(** * Verification model of [src/js/main.js]

    The portfolio script is a list of initialisers that query the document,
    mutate class lists, attributes and styles, and register event listeners,
    followed by a block that registers a service worker. It is embedded here
    as pure functions over an explicit page [state]: the node list in
    document order, the listener table, the timer queue of the event loop
    and write traces of the host calls the script performs ([scrollTo],
    [console.warn] and [console.log], [style.setProperty], assignments to
    [src], [navigator.serviceWorker.register]). The host is an explicit
    [step] function: one input (the delivery of an event, an observer
    notification, the passing of time, the settling of a promise) takes the
    page to its next state.

    Conventions of the model:
    - the page is an HTML document in no-quirks mode; [elems] holds all its
      elements, the body among them, in document order; a node is
      identified by its index there, and [tagName] holds its local name
      (lower case);
    - the two classes that the script toggles on [document.body],
      [reduce-motion] and [using-keyboard], are kept apart from the class
      list of the body's node, in [bodyClasses];
    - JS strings are [string]; the numbers the script computes
      ([index * 0.1], [innerHeight * 0.01]) are IEEE 754 doubles;
    - time is a natural number of milliseconds;
    - an input of [step] is one delivery of an event: the listeners of one
      object on the event's path are invoked. Events that do not bubble
      ([load], [error], [mouseenter], [change]) have one delivery; [keydown]
      and [mousedown] are delivered at the body, the only place where the
      script listens for them; a click that bubbles is the sequence of its
      deliveries at the nodes of its path, which [click] puts together;
    - an exception thrown by a listener is reported by the host and the
      dispatch goes on: it is part of the result of the listener
      ([completion]), not of the page;
    - [page_ready] is the page after the main function of the script,
      [script_ready] the page after the whole script, the service-worker
      block included. *)

From Stdlib Require Import ZArith QArith String Ascii List Sorted Lia.
From Stdlib Require Import Floats.SpecFloat.
From stdpp Require Import base list gmap strings.

Open Scope string_scope.
Open Scope nat_scope.
Open Scope list_scope.

(** ** JavaScript string helpers *)

Module JS.

(** [s.indexOf(sub)]: position of the first occurrence, [-1] when absent. *)
Fixpoint indexOf_from (i : Z) (s sub : string) : Z :=
  if String.prefix sub s then i
  else match s with
       | EmptyString => (-1)%Z
       | String _ r => indexOf_from (i + 1) r sub
       end.

Definition indexOf (s sub : string) : Z := indexOf_from 0 s sub.

(** ASCII whitespace, the separator of the tokens of a [rel] value. *)
Definition is_ws (a : ascii) : bool :=
  match a with
  | " "%char | "009"%char | "010"%char | "012"%char | "013"%char => true
  | _ => false
  end.

Definition is_empty (s : string) : bool :=
  match s with EmptyString => true | _ => false end.

Fixpoint tokens_go (cur s : string) : list string :=
  match s with
  | EmptyString => if is_empty cur then [] else [cur]
  | String a r =>
      if is_ws a
      then (if is_empty cur then tokens_go "" r else cur :: tokens_go "" r)
      else tokens_go (cur +:+ String a "") r
  end.

(** The space-separated tokens of an attribute value, in order. *)
Definition tokens (s : string) : list string := tokens_go "" s.

(** [sub] occurs somewhere inside [s]. *)
Definition occurs_in (sub s : string) : Prop :=
  exists pre post, s = pre +:+ sub +:+ post.

(** [NodeList.forEach(callback(item, index))]. *)
Fixpoint forEach_from {A St : Type} (k : nat) (f : A -> nat -> St -> St)
    (l : list A) (s : St) : St :=
  match l with
  | [] => s
  | x :: r => forEach_from (S k) f r (f x k s)
  end.

Definition forEach {A St : Type} (f : A -> nat -> St -> St) (l : list A) (s : St) : St :=
  forEach_from 0 f l s.

End JS.

(** ** JavaScript numbers

    A JS number is an IEEE 754 binary64 value: [spec_float] with 53 bits of
    precision and maximal exponent 1024, with the operations of the
    Standard Library's specification of floating-point arithmetic (round to
    nearest, ties to even). *)

Module Number.

Definition t : Type := spec_float.

(** The number that holds an integer (exact below 2^53 in magnitude). *)
Definition of_Z (z : Z) : t := binary_normalize 53 1024 z 0 false.

(** [x * y] and [x / y]. *)
Definition mul : t -> t -> t := SFmul 53 1024.
Definition div : t -> t -> t := SFdiv 53 1024.

(** The literals [0.1] and [0.01]: a decimal literal denotes the double
    nearest to it, which for [1/10] and [1/100] is the correctly rounded
    quotient. *)
Definition tenth : t := Eval vm_compute in div (of_Z 1) (of_Z 10).
Definition hundredth : t := Eval vm_compute in div (of_Z 1) (of_Z 100).

(** The rational a finite number stands for. *)
Definition value (x : t) : option Q :=
  match x with
  | S754_zero _ => Some 0%Q
  | S754_finite sg m e =>
      let v := match e with
               | Z0 => inject_Z (Zpos m)
               | Zpos p => inject_Z (Zpos m * 2 ^ Zpos p)
               | Zneg p => Qmake (Zpos m) (2 ^ p)
               end in
      Some (if sg then Qopp v else v)
  | _ => None
  end.

End Number.

(** ** The page *)

(** An element, with the properties the script reads or writes. *)
Record element := Element {
  tagName : string;
  attrs : gmap string string;        (* content attributes (id, href, rel, target, src, ...)
                                        other than class and style *)
  classList : list string;
  parentNode : option nat;
  complete : bool;                   (* .complete is truthy (an image fully loaded) *)
  src : string;                      (* .src, on an image the resolved URL *)
  offsetTop : Z;
  offsetHeight : Z;
  transitionDelay : option Number.t  (* style.transitionDelay, in seconds *)
}.

Definition set_attrs (m : gmap string string) (e : element) : element :=
  Element (tagName e) m (classList e) (parentNode e) (complete e) (src e)
          (offsetTop e) (offsetHeight e) (transitionDelay e).

Definition set_classList (c : list string) (e : element) : element :=
  Element (tagName e) (attrs e) c (parentNode e) (complete e) (src e)
          (offsetTop e) (offsetHeight e) (transitionDelay e).

Definition set_complete (b : bool) (e : element) : element :=
  Element (tagName e) (attrs e) (classList e) (parentNode e) b (src e)
          (offsetTop e) (offsetHeight e) (transitionDelay e).

Definition set_src (s : string) (e : element) : element :=
  Element (tagName e) (attrs e) (classList e) (parentNode e) (complete e) s
          (offsetTop e) (offsetHeight e) (transitionDelay e).

Definition set_transitionDelay (d : option Number.t) (e : element) : element :=
  Element (tagName e) (attrs e) (classList e) (parentNode e) (complete e) (src e)
          (offsetTop e) (offsetHeight e) d.

(** [classList.add] / [classList.remove] / [classList.contains]. *)
Definition has_class (c : string) (cs : list string) : bool :=
  bool_decide (c ∈ cs).

Definition class_add (c : string) (cs : list string) : list string :=
  if has_class c cs then cs else cs ++ [c].

Definition class_remove (c : string) (cs : list string) : list string :=
  List.filter (fun x => negb (String.eqb x c)) cs.

Definition add_class (c : string) (e : element) : element :=
  set_classList (class_add c (classList e)) e.

(** [hasAttribute] / [getAttribute] / [setAttribute]. *)
Definition hasAttribute (k : string) (e : element) : bool :=
  bool_decide (is_Some (attrs e !! k)).

Definition getAttribute (k : string) (e : element) : option string :=
  attrs e !! k.

Definition setAttribute (k v : string) (e : element) : element :=
  set_attrs (<[k := v]> (attrs e)) e.

(** The selectors the script uses. *)
Inductive selector :=
  | SelAttr (name : string)                      (* [name]            *)
  | SelClass (c : string)                        (* .c                *)
  | SelIdClasses (i : string) (cs : list string) (* #i.c1.c2...       *)
  | SelTagAttrPrefix (t name p : string)         (* t[name^="p"]      *)
  | SelTagAttrEq (t name v : string).            (* t[name="v"]       *)

(** ASCII lower case. *)
Definition lower (a : ascii) : ascii :=
  let n := nat_of_ascii a in
  if ((65 <=? n) && (n <=? 90))%nat then ascii_of_nat (n + 32) else a.

Fixpoint to_lower (s : string) : string :=
  match s with
  | EmptyString => EmptyString
  | String a r => String (lower a) (to_lower r)
  end.

(** The attributes whose values a selector of an HTML document compares
    ASCII case-insensitively. *)
Definition ignores_case (name : string) : bool :=
  bool_decide (name ∈
    ["accept"; "accept-charset"; "align"; "alink"; "axis"; "bgcolor"; "charset";
     "checked"; "clear"; "codetype"; "color"; "compact"; "declare"; "defer";
     "dir"; "direction"; "disabled"; "enctype"; "face"; "frame"; "hreflang";
     "http-equiv"; "lang"; "language"; "link"; "media"; "method"; "multiple";
     "nohref"; "noresize"; "noshade"; "nowrap"; "readonly"; "rel"; "rev";
     "rules"; "scope"; "scrolling"; "selected"; "shape"; "target"; "text";
     "type"; "valign"; "valuetype"; "vlink"]).

Definition attr_value_eqb (name v w : string) : bool :=
  if ignores_case name then String.eqb (to_lower v) (to_lower w) else String.eqb v w.

Definition matches_sel (s : selector) (e : element) : bool :=
  match s with
  | SelAttr n => hasAttribute n e
  | SelClass c => has_class c (classList e)
  | SelIdClasses i cs =>
      bool_decide (getAttribute "id" e = Some i) &&
      forallb (fun c => has_class c (classList e)) cs
  | SelTagAttrPrefix t n p =>
      String.eqb (tagName e) t &&
      match getAttribute n e with Some v => String.prefix p v | None => false end
  | SelTagAttrEq t n v =>
      String.eqb (tagName e) t &&
      match getAttribute n e with Some w => attr_value_eqb n w v | None => false end
  end.

(** Indices, in document order, of the elements of [es] that satisfy [p];
    [i] is the index of the head of [es]. *)
Fixpoint find_from (p : nat -> element -> bool) (i : nat) (es : list element) : list nat :=
  match es with
  | [] => []
  | e :: r => if p i e then i :: find_from p (S i) r else find_from p (S i) r
  end.

(** [anc] is a proper ancestor of node [n]; the parent chain is followed for
    at most [fuel] links. *)
Fixpoint is_descendant (es : list element) (fuel : nat) (anc n : nat) : bool :=
  match fuel with
  | O => false
  | S f =>
      match es !! n with
      | Some e =>
          match parentNode e with
          | Some p => if Nat.eqb p anc then true else is_descendant es f anc p
          | None => false
          end
      | None => false
      end
  end.

(** ** Events, listeners and timers *)

Inductive target := TDocument | TWindow | TBody | TMedia | TElem (n : nat).

(** The closures the script registers as listeners. *)
Inductive handler :=
  | HInit                               (* init, deferred to DOMContentLoaded *)
  | HAnchorClick                        (* initSmoothScroll *)
  | HImageLoad                          (* optimizeImageLoading, 'load' *)
  | HImageError                         (* optimizeImageLoading, 'error' *)
  | HLinkMouseEnter (animatedImage : nat) (* initGifPreloading *)
  | HMotionChange                       (* checkReducedMotion, 'change' *)
  | HPerfLoad                           (* logPerformance *)
  | HKeydown                            (* enhanceKeyboardNavigation *)
  | HMousedown
  | HResize                             (* init, 'resize' *)
  | HOrientationChange                  (* init, 'orientationchange' *)
  | HServiceWorkerLoad.                 (* service-worker registration, 'load' *)

Record listener := Listener {
  l_id : nat;
  l_target : target;
  l_type : string;
  l_handler : handler;
  l_once : bool
}.

Record event := Event {
  ev_type : string;
  ev_key : string;
  defaultPrevented : bool
}.

Definition preventDefault (e : event) : event :=
  Event (ev_type e) (ev_key e) true.

(** The callbacks passed to [setTimeout]: the arrow function of the resize
    listener and [setVhProperty] itself. *)
Inductive timer_cb := CbResizeArrow | CbSetVhProperty.

Record timer := Timer { t_id : nat; t_due : nat; t_cb : timer_cb }.

Inductive console_entry :=
  | Warn (msg arg : string)
  | LogPageLoad (ms : Z)                (* `Page load time: ${ms}ms` *)
  | LogRegistrationOk                   (* 'ServiceWorker registration successful' *)
  | LogRegistrationFailed (err : string).

(** The outcome of [querySelector] on a selector given as a string: a
    [SyntaxError], or the first match if any. *)
Inductive query := QThrow | QResult (r : option nat).

(** How a listener ends. *)
Inductive completion := Returns | Throws (error : string).

#[global] Instance target_eq_dec : EqDecision target.
Proof. solve_decision. Defined.

#[global] Instance handler_eq_dec : EqDecision handler.
Proof. solve_decision. Defined.

#[global] Instance listener_eq_dec : EqDecision listener.
Proof. solve_decision. Defined.

(** ** The page state *)

Record state := State {
  readyState : string;                       (* document.readyState *)
  elems : list element;                      (* the elements, in document order *)
  bodyClasses : list string;                 (* of document.body.classList, the classes
                                                the script toggles on the body *)
  listeners : list listener;                 (* registered listeners, oldest first *)
  next_listener : nat;                       (* identity of the next closure registered *)
  hasIntersectionObserver : bool;            (* 'IntersectionObserver' in window *)
  observed : option (list nat);              (* the observer (once created) and its targets *)
  reducedMotion : bool;                      (* prefersReducedMotion.matches *)
  hostname : string;                         (* window.location.hostname *)
  hasPerformance : bool;                     (* 'performance' in window *)
  navigationStart : Z;                       (* performance.timing *)
  loadEventEnd : Z;                          (* performance.timing *)
  innerHeight : Z;                           (* window.innerHeight *)
  vh : option Number.t;                      (* --vh of the root element, in px *)
  now : nat;                                 (* current time, ms *)
  timers : list timer;                       (* pending timeouts, earliest first *)
  next_timer : nat;                          (* next timeout id *)
  resizeTimer : option nat;                  (* the variable resizeTimer of init *)
  scrollCalls : list (Z * string);           (* trace of window.scrollTo({top, behavior}) *)
  console : list console_entry;              (* trace of console calls *)
  srcWrites : list (nat * string);           (* trace of assignments to img.src *)
  vhWrites : list (nat * Number.t);          (* trace of setProperty(--vh): time, value *)
  selectorEngine : string -> list element -> query;
                                             (* the host's querySelector, for the
                                                selectors the model does not read *)
  hasServiceWorker : bool;                   (* 'serviceWorker' in navigator *)
  protocol : string;                         (* window.location.protocol *)
  registerCalls : list string;               (* trace of navigator.serviceWorker.register *)
  registrations : nat                        (* registration promises not yet settled *)
}.

Definition set_readyState (x : string) (s : state) : state :=
  State x (elems s) (bodyClasses s) (listeners s) (next_listener s)
    (hasIntersectionObserver s) (observed s) (reducedMotion s) (hostname s)
    (hasPerformance s) (navigationStart s) (loadEventEnd s) (innerHeight s)
    (vh s) (now s) (timers s) (next_timer s) (resizeTimer s) (scrollCalls s)
    (console s) (srcWrites s) (vhWrites s) (selectorEngine s)
    (hasServiceWorker s) (protocol s) (registerCalls s) (registrations s).

Definition set_elems (x : list element) (s : state) : state :=
  State (readyState s) x (bodyClasses s) (listeners s) (next_listener s)
    (hasIntersectionObserver s) (observed s) (reducedMotion s) (hostname s)
    (hasPerformance s) (navigationStart s) (loadEventEnd s) (innerHeight s)
    (vh s) (now s) (timers s) (next_timer s) (resizeTimer s) (scrollCalls s)
    (console s) (srcWrites s) (vhWrites s) (selectorEngine s)
    (hasServiceWorker s) (protocol s) (registerCalls s) (registrations s).

Definition set_bodyClasses (x : list string) (s : state) : state :=
  State (readyState s) (elems s) x (listeners s) (next_listener s)
    (hasIntersectionObserver s) (observed s) (reducedMotion s) (hostname s)
    (hasPerformance s) (navigationStart s) (loadEventEnd s) (innerHeight s)
    (vh s) (now s) (timers s) (next_timer s) (resizeTimer s) (scrollCalls s)
    (console s) (srcWrites s) (vhWrites s) (selectorEngine s)
    (hasServiceWorker s) (protocol s) (registerCalls s) (registrations s).

Definition set_listeners (x : list listener) (s : state) : state :=
  State (readyState s) (elems s) (bodyClasses s) x (next_listener s)
    (hasIntersectionObserver s) (observed s) (reducedMotion s) (hostname s)
    (hasPerformance s) (navigationStart s) (loadEventEnd s) (innerHeight s)
    (vh s) (now s) (timers s) (next_timer s) (resizeTimer s) (scrollCalls s)
    (console s) (srcWrites s) (vhWrites s) (selectorEngine s)
    (hasServiceWorker s) (protocol s) (registerCalls s) (registrations s).

Definition set_next_listener (x : nat) (s : state) : state :=
  State (readyState s) (elems s) (bodyClasses s) (listeners s) x
    (hasIntersectionObserver s) (observed s) (reducedMotion s) (hostname s)
    (hasPerformance s) (navigationStart s) (loadEventEnd s) (innerHeight s)
    (vh s) (now s) (timers s) (next_timer s) (resizeTimer s) (scrollCalls s)
    (console s) (srcWrites s) (vhWrites s) (selectorEngine s)
    (hasServiceWorker s) (protocol s) (registerCalls s) (registrations s).

Definition set_observed (x : option (list nat)) (s : state) : state :=
  State (readyState s) (elems s) (bodyClasses s) (listeners s) (next_listener s)
    (hasIntersectionObserver s) x (reducedMotion s) (hostname s)
    (hasPerformance s) (navigationStart s) (loadEventEnd s) (innerHeight s)
    (vh s) (now s) (timers s) (next_timer s) (resizeTimer s) (scrollCalls s)
    (console s) (srcWrites s) (vhWrites s) (selectorEngine s)
    (hasServiceWorker s) (protocol s) (registerCalls s) (registrations s).

Definition set_reducedMotion (x : bool) (s : state) : state :=
  State (readyState s) (elems s) (bodyClasses s) (listeners s) (next_listener s)
    (hasIntersectionObserver s) (observed s) x (hostname s) (hasPerformance s)
    (navigationStart s) (loadEventEnd s) (innerHeight s) (vh s) (now s)
    (timers s) (next_timer s) (resizeTimer s) (scrollCalls s) (console s)
    (srcWrites s) (vhWrites s) (selectorEngine s)
    (hasServiceWorker s) (protocol s) (registerCalls s) (registrations s).

Definition set_innerHeight (x : Z) (s : state) : state :=
  State (readyState s) (elems s) (bodyClasses s) (listeners s) (next_listener s)
    (hasIntersectionObserver s) (observed s) (reducedMotion s) (hostname s)
    (hasPerformance s) (navigationStart s) (loadEventEnd s) x (vh s) (now s)
    (timers s) (next_timer s) (resizeTimer s) (scrollCalls s) (console s)
    (srcWrites s) (vhWrites s) (selectorEngine s)
    (hasServiceWorker s) (protocol s) (registerCalls s) (registrations s).

Definition set_vh (x : option Number.t) (s : state) : state :=
  State (readyState s) (elems s) (bodyClasses s) (listeners s) (next_listener s)
    (hasIntersectionObserver s) (observed s) (reducedMotion s) (hostname s)
    (hasPerformance s) (navigationStart s) (loadEventEnd s) (innerHeight s) x
    (now s) (timers s) (next_timer s) (resizeTimer s) (scrollCalls s) (console
    s) (srcWrites s) (vhWrites s) (selectorEngine s)
    (hasServiceWorker s) (protocol s) (registerCalls s) (registrations s).

Definition set_now (x : nat) (s : state) : state :=
  State (readyState s) (elems s) (bodyClasses s) (listeners s) (next_listener s)
    (hasIntersectionObserver s) (observed s) (reducedMotion s) (hostname s)
    (hasPerformance s) (navigationStart s) (loadEventEnd s) (innerHeight s)
    (vh s) x (timers s) (next_timer s) (resizeTimer s) (scrollCalls s)
    (console s) (srcWrites s) (vhWrites s) (selectorEngine s)
    (hasServiceWorker s) (protocol s) (registerCalls s) (registrations s).

Definition set_timers (x : list timer) (s : state) : state :=
  State (readyState s) (elems s) (bodyClasses s) (listeners s) (next_listener s)
    (hasIntersectionObserver s) (observed s) (reducedMotion s) (hostname s)
    (hasPerformance s) (navigationStart s) (loadEventEnd s) (innerHeight s)
    (vh s) (now s) x (next_timer s) (resizeTimer s) (scrollCalls s) (console
    s) (srcWrites s) (vhWrites s) (selectorEngine s)
    (hasServiceWorker s) (protocol s) (registerCalls s) (registrations s).

Definition set_next_timer (x : nat) (s : state) : state :=
  State (readyState s) (elems s) (bodyClasses s) (listeners s) (next_listener s)
    (hasIntersectionObserver s) (observed s) (reducedMotion s) (hostname s)
    (hasPerformance s) (navigationStart s) (loadEventEnd s) (innerHeight s)
    (vh s) (now s) (timers s) x (resizeTimer s) (scrollCalls s) (console s)
    (srcWrites s) (vhWrites s) (selectorEngine s)
    (hasServiceWorker s) (protocol s) (registerCalls s) (registrations s).

Definition set_resizeTimer (x : option nat) (s : state) : state :=
  State (readyState s) (elems s) (bodyClasses s) (listeners s) (next_listener s)
    (hasIntersectionObserver s) (observed s) (reducedMotion s) (hostname s)
    (hasPerformance s) (navigationStart s) (loadEventEnd s) (innerHeight s)
    (vh s) (now s) (timers s) (next_timer s) x (scrollCalls s) (console s)
    (srcWrites s) (vhWrites s) (selectorEngine s)
    (hasServiceWorker s) (protocol s) (registerCalls s) (registrations s).

Definition set_scrollCalls (x : list (Z * string)) (s : state) : state :=
  State (readyState s) (elems s) (bodyClasses s) (listeners s) (next_listener s)
    (hasIntersectionObserver s) (observed s) (reducedMotion s) (hostname s)
    (hasPerformance s) (navigationStart s) (loadEventEnd s) (innerHeight s)
    (vh s) (now s) (timers s) (next_timer s) (resizeTimer s) x (console s)
    (srcWrites s) (vhWrites s) (selectorEngine s)
    (hasServiceWorker s) (protocol s) (registerCalls s) (registrations s).

Definition set_console (x : list console_entry) (s : state) : state :=
  State (readyState s) (elems s) (bodyClasses s) (listeners s) (next_listener s)
    (hasIntersectionObserver s) (observed s) (reducedMotion s) (hostname s)
    (hasPerformance s) (navigationStart s) (loadEventEnd s) (innerHeight s)
    (vh s) (now s) (timers s) (next_timer s) (resizeTimer s) (scrollCalls s) x
    (srcWrites s) (vhWrites s) (selectorEngine s)
    (hasServiceWorker s) (protocol s) (registerCalls s) (registrations s).

Definition set_srcWrites (x : list (nat * string)) (s : state) : state :=
  State (readyState s) (elems s) (bodyClasses s) (listeners s) (next_listener s)
    (hasIntersectionObserver s) (observed s) (reducedMotion s) (hostname s)
    (hasPerformance s) (navigationStart s) (loadEventEnd s) (innerHeight s)
    (vh s) (now s) (timers s) (next_timer s) (resizeTimer s) (scrollCalls s)
    (console s) x (vhWrites s) (selectorEngine s)
    (hasServiceWorker s) (protocol s) (registerCalls s) (registrations s).

Definition set_vhWrites (x : list (nat * Number.t)) (s : state) : state :=
  State (readyState s) (elems s) (bodyClasses s) (listeners s) (next_listener s)
    (hasIntersectionObserver s) (observed s) (reducedMotion s) (hostname s)
    (hasPerformance s) (navigationStart s) (loadEventEnd s) (innerHeight s)
    (vh s) (now s) (timers s) (next_timer s) (resizeTimer s) (scrollCalls s)
    (console s) (srcWrites s) x (selectorEngine s)
    (hasServiceWorker s) (protocol s) (registerCalls s) (registrations s).

Definition set_registerCalls (x : list string) (s : state) : state :=
  State (readyState s) (elems s) (bodyClasses s) (listeners s) (next_listener s)
    (hasIntersectionObserver s) (observed s) (reducedMotion s) (hostname s)
    (hasPerformance s) (navigationStart s) (loadEventEnd s) (innerHeight s)
    (vh s) (now s) (timers s) (next_timer s) (resizeTimer s) (scrollCalls s)
    (console s) (srcWrites s) (vhWrites s) (selectorEngine s)
    (hasServiceWorker s) (protocol s) x (registrations s).

Definition set_registrations (x : nat) (s : state) : state :=
  State (readyState s) (elems s) (bodyClasses s) (listeners s) (next_listener s)
    (hasIntersectionObserver s) (observed s) (reducedMotion s) (hostname s)
    (hasPerformance s) (navigationStart s) (loadEventEnd s) (innerHeight s)
    (vh s) (now s) (timers s) (next_timer s) (resizeTimer s) (scrollCalls s)
    (console s) (srcWrites s) (vhWrites s) (selectorEngine s)
    (hasServiceWorker s) (protocol s) (registerCalls s) x.

(** ** Host operations *)

(** Mutation of node [n] in place. *)
Definition upd_elem (n : nat) (f : element -> element) (s : state) : state :=
  set_elems (alter f n (elems s)) s.

Definition querySelectorAll (sel : selector) (s : state) : list nat :=
  find_from (fun _ e => matches_sel sel e) 0 (elems s).

Definition querySelector (sel : selector) (s : state) : option nat :=
  head (querySelectorAll sel s).

(** [root.querySelector(sel)]: the first descendant of [root] matching. *)
Definition querySelectorWithin (root : nat) (sel : selector) (s : state) : option nat :=
  head (find_from
          (fun i e => matches_sel sel e &&
                      is_descendant (elems s) (length (elems s)) root i)
          0 (elems s)).

(** ASCII characters of a CSS identifier: letters, [_], then also digits
    and [-]. *)
Definition is_name_start (a : ascii) : bool :=
  let n := nat_of_ascii a in
  (((65 <=? n) && (n <=? 90)) || ((97 <=? n) && (n <=? 122)) || (n =? 95))%nat.

Definition is_name_char (a : ascii) : bool :=
  let n := nat_of_ascii a in
  is_name_start a || ((48 <=? n) && (n <=? 57))%nat || (n =? 45)%nat.

Fixpoint all_name_chars (s : string) : bool :=
  match s with
  | EmptyString => true
  | String a r => is_name_char a && all_name_chars r
  end.

(** An identifier: name characters, not starting with a digit, nor with a
    hyphen unless a letter, [_] or a second hyphen follows. *)
Definition is_ident (s : string) : bool :=
  match s with
  | EmptyString => false
  | String a r =>
      all_name_chars s &&
      (is_name_start a ||
       ((nat_of_ascii a =? 45)%nat &&
        match r with
        | String b _ => is_name_start b || (nat_of_ascii b =? 45)%nat
        | EmptyString => false
        end))
  end.

(** The pieces of a string between its dots. *)
Fixpoint split_dots (cur s : string) : list string :=
  match s with
  | EmptyString => [cur]
  | String a r =>
      if Ascii.eqb a "."%char then cur :: split_dots "" r
      else split_dots (cur +:+ String a "") r
  end.

Fixpoint names_and_dots (s : string) : bool :=
  match s with
  | EmptyString => true
  | String a r => (is_name_char a || Ascii.eqb a "."%char) && names_and_dots r
  end.

(** A selector given as a string at run time (the [href] of an anchor).
    The model reads the strings made of [#], ASCII name characters and dots:
    such a string is an id followed by classes, [#i.c1.c2...], when every
    piece is an identifier, and a syntax error otherwise; the empty string
    is a syntax error. Any other string (other characters, escapes,
    combinators, ...) is left to the host's selector engine. *)
Inductive parse := Parsed (q : selector) | SyntaxError | NotRead.

Definition parse_selector (s : string) : parse :=
  match s with
  | String "#"%char r =>
      if names_and_dots r
      then match split_dots "" r with
           | i :: cs =>
               if forallb is_ident (i :: cs) then Parsed (SelIdClasses i cs)
               else SyntaxError
           | [] => SyntaxError
           end
      else NotRead
  | EmptyString => SyntaxError
  | _ => NotRead
  end.

Definition querySelector_str (sel : string) (s : state) : query :=
  match parse_selector sel with
  | Parsed q => QResult (querySelector q s)
  | SyntaxError => QThrow
  | NotRead => selectorEngine s sel (elems s)
  end.

(** Every call passes a fresh closure, so a listener is always appended. *)
Definition addEventListener (t : target) (ty : string) (h : handler) (once : bool)
    (s : state) : state :=
  set_next_listener (S (next_listener s))
    (set_listeners (listeners s ++ [Listener (next_listener s) t ty h once]) s).

(** Removal of one registered closure; [l_id] tells closures apart. *)
Definition remove_listener (l : listener) (s : state) : state :=
  set_listeners (List.filter (fun l' => negb (bool_decide (l' = l))) (listeners s)) s.

(** The timer queue is kept ordered by due time, first scheduled first. *)
Fixpoint insert_timer (t : timer) (q : list timer) : list timer :=
  match q with
  | [] => [t]
  | u :: q' => if t_due t <? t_due u then t :: q else u :: insert_timer t q'
  end.

Definition setTimeout (cb : timer_cb) (delay : nat) (s : state) : nat * state :=
  (next_timer s,
   set_next_timer (S (next_timer s))
     (set_timers (insert_timer (Timer (next_timer s) (now s + delay) cb) (timers s)) s)).

(** [clearTimeout(id)]; [None] is [undefined], which clears nothing. *)
Definition clearTimeout (id : option nat) (s : state) : state :=
  match id with
  | Some i => set_timers (List.filter (fun t => negb (t_id t =? i)) (timers s)) s
  | None => s
  end.

Definition observe (n : nat) (s : state) : state :=
  match observed s with
  | Some l => set_observed (Some (if bool_decide (n ∈ l) then l else l ++ [n])) s
  | None => s
  end.

Definition unobserve (n : nat) (s : state) : state :=
  match observed s with
  | Some l => set_observed (Some (List.filter (fun m => negb (m =? n)) l)) s
  | None => s
  end.

(** ** The script *)

Definition reveal (n : nat) (s : state) : state :=
  upd_elem n (add_class "animate-in") s.

Definition initScrollAnimations (s : state) : state :=
  if negb (hasIntersectionObserver s)
  then JS.forEach (fun element _ => reveal element)
         (querySelectorAll (SelAttr "data-animate") s) s
  else
    let s1 := set_observed (Some []) s in
    JS.forEach (fun element _ => observe element)
      (querySelectorAll (SelAttr "data-animate") s1) s1.

(** The callback of the observer, applied to the entries the host reports. *)
Definition observer_callback (entries : list (nat * bool)) (s : state) : state :=
  JS.forEach
    (fun (entry : nat * bool) _ s =>
       if snd entry then unobserve (fst entry) (reveal (fst entry) s) else s)
    entries s.

(** [index * 0.1], the double product. *)
Definition stagger (index : nat) : Number.t :=
  Number.mul (Number.of_Z (Z.of_nat index)) Number.tenth.

Definition addStaggerDelay (s : state) : state :=
  JS.forEach
    (fun card index => upd_elem card (set_transitionDelay (Some (stagger index))))
    (querySelectorAll (SelClass "project-card") s) s.

(** [x || 0] on a number. *)
Definition or_zero (z : Z) : Z := if (z =? 0)%Z then 0%Z else z.

(** [String(v)] of an attribute value that may be [null]. *)
Definition str_of (v : option string) : string :=
  match v with Some x => x | None => "null" end.

(** The click listener of an anchor: the page and the event it leaves, and
    how it ends. *)
Definition anchor_click_run (this : nat) (e : event) (s : state)
    : state * event * completion :=
  let href := (elems s !! this) ≫= getAttribute "href" in
  if bool_decide (href = Some "#") || bool_decide (href = Some "")
  then (s, e, Returns)
  else
    let e := preventDefault e in
    match querySelector_str (str_of href) s with
    | QThrow => (s, e, Throws "SyntaxError")
    | QResult None => (s, e, Returns)
    | QResult (Some target) =>
        let headerHeight :=
          match querySelector (SelClass "header") s ≫= (fun h => elems s !! h) with
          | Some h => or_zero (offsetHeight h)
          | None => 0%Z
          end in
        let targetPosition :=
          (match elems s !! target with Some t => offsetTop t | None => 0 end
           - headerHeight)%Z in
        (set_scrollCalls (scrollCalls s ++ [(targetPosition, "smooth")]) s, e, Returns)
    end.

Definition anchor_click (this : nat) (e : event) (s : state) : state * event :=
  fst (anchor_click_run this e s).

Definition optimizeImageLoading (s : state) : state :=
  JS.forEach
    (fun img _ s =>
       match elems s !! img with
       | Some e =>
           if complete e
           then upd_elem img (add_class "loaded") s
           else addEventListener (TElem img) "error" HImageError false
                  (addEventListener (TElem img) "load" HImageLoad false s)
       | None => s
       end)
    (querySelectorAll (SelClass "project-image") s) s.

Definition image_load (this : nat) (s : state) : state :=
  upd_elem this (add_class "loaded") s.

Definition image_error (this : nat) (s : state) : state :=
  let url := match elems s !! this with Some e => src e | None => "" end in
  upd_elem this (add_class "error")
    (set_console (console s ++ [Warn "Image failed to load:" url]) s).

(** The elements whose [src] property reflects the [src] content
    attribute; on any other element it is a plain property. *)
Definition reflects_src (tag : string) : bool :=
  bool_decide (tag ∈ ["img"; "iframe"; "frame"; "embed"; "script"; "input"; "audio";
                      "video"; "source"; "track"]).

(** [element.src = v]. On an image this also starts loading it anew; the
    outcome reaches the page as a later [load] or [error] event. The script
    assigns [''], which it never reads back, and a URL it has read from the
    same property, which is the value read back afterwards. *)
Definition assign_src (v : string) (e : element) : element :=
  if reflects_src (tagName e) then set_src v (setAttribute "src" v e) else set_src v e.

Definition write_src (img : nat) (v : string) (s : state) : state :=
  set_srcWrites (srcWrites s ++ [(img, v)]) (upd_elem img (assign_src v) s).

Definition initGifPreloading (s : state) : state :=
  JS.forEach
    (fun link _ s =>
       match querySelectorWithin link (SelClass "project-image-animated") s with
       | Some animatedImage =>
           addEventListener (TElem link) "mouseenter" (HLinkMouseEnter animatedImage) true s
       | None => s
       end)
    (querySelectorAll (SelClass "project-link") s) s.

Definition link_mouseenter (animatedImage : nat) (s : state) : state :=
  match elems s !! animatedImage with
  | Some e =>
      if negb (complete e)
      then write_src animatedImage (src e) (write_src animatedImage "" s)
      else s
  | None => s
  end.

Definition checkReducedMotion (s : state) : state :=
  let s1 :=
    if reducedMotion s
    then
      let s' := set_bodyClasses (class_add "reduce-motion" (bodyClasses s)) s in
      JS.forEach (fun element _ => reveal element)
        (querySelectorAll (SelAttr "data-animate") s') s'
    else s in
  addEventListener TMedia "change" HMotionChange false s1.

Definition motion_change (s : state) : state :=
  if reducedMotion s
  then set_bodyClasses (class_add "reduce-motion" (bodyClasses s)) s
  else set_bodyClasses (class_remove "reduce-motion" (bodyClasses s)) s.

Definition logPerformance (s : state) : state :=
  if hasPerformance s
  then addEventListener TWindow "load" HPerfLoad false s
  else s.

Definition perf_load (s : state) : state :=
  set_console (console s ++ [LogPageLoad (loadEventEnd s - navigationStart s)]) s.

Definition secure_link (link : element) : element :=
  if negb (hasAttribute "rel" link) ||
     (JS.indexOf (default "" (getAttribute "rel" link)) "noopener" =? -1)%Z
  then
    let currentRel :=
      match getAttribute "rel" link with
      | Some v => if JS.is_empty v then "" else v
      | None => ""
      end in
    setAttribute "rel" (currentRel +:+ " noopener noreferrer") link
  else link.

Definition secureExternalLinks (s : state) : state :=
  JS.forEach (fun link _ => upd_elem link secure_link)
    (querySelectorAll (SelTagAttrEq "a" "target" "_blank") s) s.

Definition enhanceKeyboardNavigation (s : state) : state :=
  addEventListener TBody "mousedown" HMousedown false
    (addEventListener TBody "keydown" HKeydown false s).

Definition body_keydown (e : event) (s : state) : state :=
  if String.eqb (ev_key e) "Tab"
  then set_bodyClasses (class_add "using-keyboard" (bodyClasses s)) s
  else s.

Definition body_mousedown (s : state) : state :=
  set_bodyClasses (class_remove "using-keyboard" (bodyClasses s)) s.

Definition setVhProperty (s : state) : state :=
  let vh := Number.mul (Number.of_Z (innerHeight s)) Number.hundredth in
  set_vhWrites (vhWrites s ++ [(now s, vh)]) (set_vh (Some vh) s).

Definition window_resize (s : state) : state :=
  let s1 := clearTimeout (resizeTimer s) s in
  let r := setTimeout CbResizeArrow 100 s1 in
  set_resizeTimer (Some (fst r)) (snd r).

Definition window_orientationchange (s : state) : state :=
  snd (setTimeout CbSetVhProperty 100 s).

Definition is_dev_host (h : string) : bool :=
  String.eqb h "localhost" || String.eqb h "127.0.0.1".

Definition initSmoothScroll (s : state) : state :=
  JS.forEach
    (fun anchor _ => addEventListener (TElem anchor) "click" HAnchorClick false)
    (querySelectorAll (SelTagAttrPrefix "a" "href" "#") s) s.

(** The body of [init] once the document is parsed. *)
Definition init_ready (s : state) : state :=
  let s := checkReducedMotion s in
  let s := addStaggerDelay s in
  let s := initScrollAnimations s in
  let s := initSmoothScroll s in
  let s := optimizeImageLoading s in
  let s := initGifPreloading s in
  let s := secureExternalLinks s in
  let s := enhanceKeyboardNavigation s in
  let s := setVhProperty s in
  let s := if is_dev_host (hostname s) then logPerformance s else s in
  let s := set_resizeTimer None s in
  let s := addEventListener TWindow "resize" HResize false s in
  addEventListener TWindow "orientationchange" HOrientationChange false s.

Definition init (s : state) : state :=
  if String.eqb (readyState s) "loading"
  then addEventListener TDocument "DOMContentLoaded" HInit false s
  else init_ready s.

(** The listener of the service-worker block: the registration is asked
    for, its promise settles later. *)
Definition service_worker_load (s : state) : state :=
  set_registrations (S (registrations s))
    (set_registerCalls (registerCalls s ++ ["/sw.js"]) s).

(** The block after the main function. *)
Definition registerServiceWorker (s : state) : state :=
  if hasServiceWorker s && String.eqb (protocol s) "https:"
  then addEventListener TWindow "load" HServiceWorkerLoad false s
  else s.

(** The whole script. *)
Definition main (s : state) : state := registerServiceWorker (init s).

(** ** Event dispatch and the event loop *)

Definition run_timer (cb : timer_cb) (s : state) : state :=
  match cb with
  | CbResizeArrow => setVhProperty s
  | CbSetVhProperty => setVhProperty s
  end.

Definition run_handler (h : handler) (this : target) (e : event) (s : state)
    : state * event :=
  match h, this with
  | HInit, _ => (init s, e)
  | HAnchorClick, TElem n => anchor_click n e s
  | HImageLoad, TElem n => (image_load n s, e)
  | HImageError, TElem n => (image_error n s, e)
  | HLinkMouseEnter img, _ => (link_mouseenter img s, e)
  | HMotionChange, _ => (motion_change s, e)
  | HPerfLoad, _ => (perf_load s, e)
  | HKeydown, _ => (body_keydown e s, e)
  | HMousedown, _ => (body_mousedown s, e)
  | HResize, _ => (window_resize s, e)
  | HOrientationChange, _ => (window_orientationchange s, e)
  | HServiceWorkerLoad, _ => (service_worker_load s, e)
  | _, _ => (s, e)
  end.

Definition listens (t : target) (ty : string) (l : listener) : bool :=
  bool_decide (l_target l = t) && String.eqb (l_type l) ty.

Definition listeners_on (t : target) (ty : string) (s : state) : list listener :=
  List.filter (listens t ty) (listeners s).

Definition registered (l : listener) (s : state) : bool :=
  bool_decide (l ∈ listeners s).

(** One listener of a dispatch: skipped if it was removed meanwhile, removed
    before it runs if it was registered with [once]. *)
Definition invoke (t : target) (se : state * event) (l : listener) : state * event :=
  let (s, e) := se in
  if registered l s
  then run_handler (l_handler l) t e
         (if l_once l then remove_listener l s else s)
  else (s, e).

(** The event [e] reaches [t]: the listeners of [t] present at that moment
    run in registration order. *)
Definition dispatch (t : target) (e : event) (s : state) : state * event :=
  fold_left (invoke t) (listeners_on t (ev_type e) s) (s, e).

Definition mk_event (ty : string) : event := Event ty "" false.

Fixpoint run_timers (due : list timer) (s : state) : state :=
  match due with
  | [] => s
  | t :: r => run_timers r (run_timer (t_cb t) (set_now (max (now s) (t_due t)) s))
  end.

Definition is_due (until : nat) (t : timer) : bool := t_due t <=? until.

(** Time passes by [d] ms: the timeouts that come due leave the queue and
    run, earliest first. No callback of the script looks at the queue or
    schedules a further timeout. *)
Definition advance (d : nat) (s : state) : state :=
  let until := now s + d in
  set_now until
    (run_timers (List.filter (is_due until) (timers s))
       (set_timers (List.filter (fun t => negb (is_due until t)) (timers s)) s)).

(** What the host can make happen to the page. *)
Inductive input :=
  | DOMContentLoaded
  | WindowLoad
  | Click (n : nat)
  | ImageLoad (n : nat)
  | ImageError (n : nat)
  | MouseEnter (n : nat)
  | Intersect (entries : list (nat * bool))
  | MotionPreference (reduce : bool)
  | KeyDown (key : string)
  | MouseDown
  | Resize (height : Z)
  | OrientationChange
  | Advance (d : nat)
  | RegistrationSettled (err : option string).

Definition step (s : state) (i : input) : state :=
  match i with
  | DOMContentLoaded =>
      if String.eqb (readyState s) "loading"
      then fst (dispatch TDocument (mk_event "DOMContentLoaded")
                  (set_readyState "interactive" s))
      else s
  | WindowLoad =>
      fst (dispatch TWindow (mk_event "load") (set_readyState "complete" s))
  | Click n => fst (dispatch (TElem n) (mk_event "click") s)
  | ImageLoad n =>
      fst (dispatch (TElem n) (mk_event "load") (upd_elem n (set_complete true) s))
  | ImageError n =>
      fst (dispatch (TElem n) (mk_event "error") (upd_elem n (set_complete true) s))
  | MouseEnter n => fst (dispatch (TElem n) (mk_event "mouseenter") s)
  | Intersect entries =>
      match observed s with
      | Some obs =>
          observer_callback
            (List.filter (fun en => bool_decide (fst en ∈ obs)) entries) s
      | None => s
      end
  | MotionPreference b =>
      fst (dispatch TMedia (mk_event "change") (set_reducedMotion b s))
  | KeyDown k => fst (dispatch TBody (Event "keydown" k false) s)
  | MouseDown => fst (dispatch TBody (mk_event "mousedown") s)
  | Resize h => fst (dispatch TWindow (mk_event "resize") (set_innerHeight h s))
  | OrientationChange => fst (dispatch TWindow (mk_event "orientationchange") s)
  | Advance d => advance d s
  | RegistrationSettled err =>
      match registrations s with
      | O => s
      | S k =>
          set_registrations k
            (set_console
               (console s ++
                [match err with
                 | None => LogRegistrationOk
                 | Some x => LogRegistrationFailed x
                 end]) s)
      end
  end.

Definition run (s : state) (ins : list input) : state := fold_left step ins s.

(** The nodes an event at [n] passes: [n], then its ancestors, innermost
    first. *)
Fixpoint path_from (es : list element) (fuel : nat) (n : nat) : list nat :=
  match fuel with
  | O => []
  | S f =>
      n :: match es !! n ≫= parentNode with
           | Some p => path_from es f p
           | None => []
           end
  end.

Definition event_path (n : nat) (s : state) : list target :=
  map TElem (path_from (elems s) (length (elems s)) n) ++ [TBody; TDocument; TWindow].

(** A click on node [n]: one event, delivered at [n] and then, bubbling, at
    each of its ancestors, the body, the document and the window. The path
    is fixed when the click starts. *)
Definition click (n : nat) (s : state) : state * event :=
  fold_left (fun se t => dispatch t (snd se) (fst se)) (event_path n s)
    (s, mk_event "click").

(** A freshly parsed page before the script runs: nothing registered,
    nothing scheduled, nothing traced. *)
Definition fresh (s : state) : Prop :=
  listeners s = [] /\ timers s = [] /\ observed s = None /\
  scrollCalls s = [] /\ console s = [] /\ srcWrites s = [] /\ vhWrites s = [].

(** ** Auxiliary notions for the proofs *)

(** The node list after a loop of in-place updates. *)
Definition alter_each (k : nat) (g : nat -> element -> element)
    (ns : list nat) (es : list element) : list element :=
  JS.forEach_from k (fun n i => alter (g i) n) ns es.

(** Pointwise relations between the nodes before and after part of the
    script: a mutator that keeps [R] on the right keeps it along a run. *)
Definition keeps (R : element -> element -> Prop) (f : element -> element) : Prop :=
  forall x y, R x y -> R x (f y).

Definition elems_rel (R : element -> element -> Prop) (s0 s : state) : Prop :=
  Forall2 R (elems s0) (elems s).

(** The closures listening on a target for an event type, with their [once]
    flag, in registration order. *)
Definition handlers_on (t : target) (ty : string) (s : state) : list (handler * bool) :=
  map (fun l => (l_handler l, l_once l)) (listeners_on t ty s).

(** The [rel] value of a link, [""] when the attribute is absent. *)
Definition rel_of (e : element) : string := default "" (getAttribute "rel" e).

Definition blank_target : selector := SelTagAttrEq "a" "target" "_blank".

(** ** A sample page *)

Module Sample.

Definition el (t : string) (a : list (string * string)) (c : list string)
    (p : option nat) : element :=
  Element t (list_to_map a) c p true "" 0 0 None.

Definition img (c : list string) (p : option nat) (loaded : bool) (u : string) : element :=
  Element "img" ∅ c p loaded u 0 0 None.

Definition header : element := Element "header" ∅ ["header"] None true "" 0 80 None.

Definition work_section : element :=
  Element "section" (list_to_map [("id", "work"); ("data-animate", "")])
    [] None true "" 600 300 None.

Definition plain_link : element :=
  el "a" [("target", "_blank")] ["project-link"] (Some 5).

Definition nofollow_link : element :=
  el "a" [("target", "_blank"); ("rel", "nofollow")] ["project-link"] (Some 9).

Definition xnoopener_link : element :=
  el "a" [("target", "_blank"); ("rel", "xnoopener")] [] None.

Definition noopener_link : element :=
  el "a" [("target", "_blank"); ("rel", "noopener")] [] None.

Definition doc : list element :=
  [ header;
    el "a" [("href", "#work")] [] None;
    el "a" [("href", "#missing")] [] None;
    el "a" [("href", "#")] [] None;
    work_section;
    el "div" [("data-animate", "")] ["project-card"] None;
    plain_link;
    img ["project-image"] (Some 6) false "a.png";
    img ["project-image"; "project-image-animated"] (Some 6) false "a.gif";
    el "div" [] ["project-card"] None;
    nofollow_link;
    img ["project-image"; "project-image-animated"] (Some 10) true "b.gif";
    xnoopener_link;
    noopener_link ].

(** The page when the script starts, parsed, with and without the
    reduced-motion preference. *)
Definition page (reduce : bool) : state :=
  State "complete" doc [] [] 0 true None reduce "example.org" true 0 0 800 None
        0 [] 0 None [] [] [] [] (fun _ _ => QResult None) true "https:" [] 0.

Definition loaded_page : state := init (page false).

(** The same page when the script starts while the document is loading. *)
Definition early_page : state :=
  State "loading" doc [] [] 0 true None true "example.org" true 0 0 800 None
        0 [] 0 None [] [] [] [] (fun _ _ => QResult None) true "https:" [] 0.

End Sample.


(** The reading of hover preloading as an unconditional reload: two
    pointer-enter events on a link with the listener of [initGifPreloading]
    always leave exactly one clear-and-restore of the image source. *)
Definition hover_reloads_exactly_once : Prop :=
  forall s link img e,
    handlers_on (TElem link) "mouseenter" s = [(HLinkMouseEnter img, true)] ->
    elems s !! img = Some e ->
    srcWrites (run s [MouseEnter link; MouseEnter link]) =
    srcWrites s ++ [(img, ""); (img, src e)].

(** What [init] runs after the stagger delays are assigned. *)
Definition init_rest (s : state) : state :=
  let s := initScrollAnimations s in
  let s := initSmoothScroll s in
  let s := optimizeImageLoading s in
  let s := initGifPreloading s in
  let s := secureExternalLinks s in
  let s := enhanceKeyboardNavigation s in
  let s := setVhProperty s in
  let s := if is_dev_host (hostname s) then logPerformance s else s in
  let s := set_resizeTimer None s in
  let s := addEventListener TWindow "resize" HResize false s in
  addEventListener TWindow "orientationchange" HOrientationChange false s.

(** The document is parsed: [readyState] is no longer ['loading']. *)
Definition parsed (s : state) : Prop :=
  String.eqb (readyState s) "loading" = false.

(** The only listener that would run [init] is the one [init] itself defers
    to [DOMContentLoaded]. *)
Definition no_init_pending (s : state) : Prop :=
  Forall (fun l => l_handler l = HInit ->
                   l_target l = TDocument /\ l_type l = "DOMContentLoaded")
    (listeners s).

(** The state in which the body of [init] runs: the state the script starts
    in or, when the script starts while the document is loading, that state
    with the deferred listener at [DOMContentLoaded]. *)
Definition entry (s : state) : state :=
  if String.eqb (readyState s) "loading"
  then set_readyState "interactive"
         (addEventListener TDocument "DOMContentLoaded" HInit false s)
  else s.

(** The page once the main function of the script has run and the
    document is parsed: [init] has run past its readiness test. *)
Definition page_ready (s : state) : state :=
  if String.eqb (readyState s) "loading"
  then step (init s) DOMContentLoaded
  else init s.

(** The class list only grows. *)
Definition classes_grow (e e' : element) : Prop :=
  forall c, c ∈ classList e -> c ∈ classList e'.

(** The stagger delay is untouched. *)
Definition same_delay (e e' : element) : Prop :=
  transitionDelay e' = transitionDelay e.

Definition project_image : selector := SelClass "project-image".

Definition image_event (n : nat) (i : input) : Prop :=
  i = ImageLoad n \/ i = ImageError n.

(** The reading of the image handlers as one-shot: after its first event a
    handler is no longer registered, and the body of the error handler (which
    warns on the console) runs at most once. *)
Definition image_handlers_one_shot : Prop :=
  forall s0 n e,
    elems s0 !! n = Some e ->
    matches_sel project_image e = true ->
    complete e = false ->
    handlers_on (TElem n) "load" s0 = [] ->
    handlers_on (TElem n) "error" s0 = [] ->
    let s := optimizeImageLoading s0 in
    handlers_on (TElem n) "load" (step s (ImageLoad n)) = [] /\
    handlers_on (TElem n) "error" (step s (ImageError n)) = [] /\
    forall k, length (console (run s (repeat (ImageError n) k))) <= length (console s) + 1.

(** The reading of [loaded] and [error] as exclusive: whatever load and error
    events an image receives, it never carries both classes. *)
Definition loaded_error_exclusive : Prop :=
  forall s0 n e evs e',
    elems s0 !! n = Some e ->
    matches_sel project_image e = true ->
    "loaded" ∉ classList e -> "error" ∉ classList e ->
    handlers_on (TElem n) "load" s0 = [] ->
    handlers_on (TElem n) "error" s0 = [] ->
    Forall (image_event n) evs ->
    elems (run (optimizeImageLoading s0) evs) !! n = Some e' ->
    ~ ("loaded" ∈ classList e' /\ "error" ∈ classList e').

(** The listeners of [s'] are those of [s] without some that were registered
    with [once]. *)
Definition pruned (s s' : state) : Prop :=
  exists f : listener -> bool,
    (forall l, l_once l = false -> f l = true) /\
    listeners s' = List.filter f (listeners s).

(** The listeners [init] registers on the media query, the body and the
    window, the optional page-load logger apart. *)
Definition global_handlers (t : target) (ty : string) : list (handler * bool) :=
  (if bool_decide (TMedia = t) && String.eqb "change" ty
   then [(HMotionChange, false)] else []) ++
  (if bool_decide (TBody = t) && String.eqb "keydown" ty
   then [(HKeydown, false)] else []) ++
  (if bool_decide (TBody = t) && String.eqb "mousedown" ty
   then [(HMousedown, false)] else []) ++
  (if bool_decide (TWindow = t) && String.eqb "resize" ty
   then [(HResize, false)] else []) ++
  (if bool_decide (TWindow = t) && String.eqb "orientationchange" ty
   then [(HOrientationChange, false)] else []).

(** The document-level class follows the preference. *)
Definition toggle_reduce_motion (reduce : bool) (cs : list string) : list string :=
  if reduce then class_add "reduce-motion" cs else class_remove "reduce-motion" cs.

Definition project_card : selector := SelClass "project-card".


(** ** Bursts of window events *)

(** [innerHeight * 0.01], the double product. *)
Definition vh_of (height : Z) : Number.t :=
  Number.mul (Number.of_Z height) Number.hundredth.

(** A resize to [h0], then for each [(gap, h)] a resize to [h], [gap] ms
    after the one before. *)
Fixpoint resize_events (h0 : Z) (rest : list (nat * Z)) : list input :=
  match rest with
  | [] => [Resize h0]
  | (gap, h) :: r => Resize h0 :: Advance gap :: resize_events h r
  end.

Fixpoint final_height (h0 : Z) (rest : list (nat * Z)) : Z :=
  match rest with
  | [] => h0
  | (_, h) :: r => final_height h r
  end.

Fixpoint span (rest : list (nat * Z)) : nat :=
  match rest with
  | [] => 0
  | (gap, _) :: r => gap + span r
  end.

(** Orientation changes, each [gap] ms after the one before. *)
Fixpoint orientation_events (gaps : list nat) : list input :=
  match gaps with
  | [] => [OrientationChange]
  | gap :: r => OrientationChange :: Advance gap :: orientation_events r
  end.

(** The times of the events of [orientation_events] started at [t0]. *)
Fixpoint event_times (t0 : nat) (gaps : list nat) : list nat :=
  match gaps with
  | [] => [t0]
  | gap :: r => t0 :: event_times (t0 + gap) r
  end.

(** A resize at time [t] to height [h] is waiting for its recomputation. *)
Definition resize_pending (s : state) (t : nat) (h : Z) : Prop :=
  handlers_on TWindow "resize" s = [(HResize, false)] /\
  (exists id, timers s = [Timer id (t + 100) CbResizeArrow] /\
              resizeTimer s = Some id) /\
  now s = t /\ innerHeight s = h.

Definition due_sorted (q : list timer) : Prop :=
  StronglySorted (fun t u => t_due t <= t_due u) q.

(** Orientation changes at [times] on a window of height [hgt]: every one
    of them has run its recomputation or still has it in the queue. *)
Definition orientation_inv (hgt : Z) (W : list (nat * Number.t)) (times : list nat)
    (s : state) : Prop :=
  handlers_on TWindow "orientationchange" s = [(HOrientationChange, false)] /\
  innerHeight s = hgt /\
  due_sorted (timers s) /\
  Forall (fun t => now s < t_due t /\ t_due t <= now s + 100) (timers s) /\
  vhWrites s ++ map (fun t => (t_due t, vh_of hgt)) (timers s) =
    W ++ map (fun T => (T + 100, vh_of hgt)) times.

(** ** Auxiliary notions for the further properties *)

(** What [secureExternalLinks] does to one element. *)
Definition harden (e : element) : element :=
  if matches_sel blank_target e then secure_link e else e.


Definition animated : selector := SelAttr "data-animate".

(** The targets that the entries of a notification report as intersecting. *)
Definition intersecting (entries : list (nat * bool)) : list nat :=
  fst <$> List.filter snd entries.

(** The entries the host delivers: those about observed targets. *)
Definition delivered (obs : list nat) (entries : list (nat * bool)) : list (nat * bool) :=
  List.filter (fun en => bool_decide (fst en ∈ obs)) entries.

(** The four loops of [init] that wire elements, in order. *)
Definition init_wire (s : state) : state :=
  secureExternalLinks (initGifPreloading (optimizeImageLoading (initSmoothScroll s))).

(** What [init] runs after [initScrollAnimations]. *)
Definition init_tail (s : state) : state :=
  let s := setVhProperty (enhanceKeyboardNavigation (init_wire s)) in
  let s := if is_dev_host (hostname s) then logPerformance s else s in
  let s := set_resizeTimer None s in
  let s := addEventListener TWindow "resize" HResize false s in
  addEventListener TWindow "orientationchange" HOrientationChange false s.

(** The content attributes are untouched. *)
Definition same_attrs (e e' : element) : Prop :=
  tagName e' = tagName e /\ attrs e' = attrs e.

(** The element is revealed after exactly when it was before. *)
Definition same_reveal (e e' : element) : Prop :=
  has_class "animate-in" (classList e') = has_class "animate-in" (classList e).

(** The sample document in a browser without [IntersectionObserver], served
    from a development host. *)
Definition legacy_page : state :=
  State "complete" Sample.doc [] [] 0 false None false "localhost" true 100 1350 800 None
        0 [] 0 None [] [] [] [] (fun _ _ => QResult None) false "http:" [] 0.



Definition fragment_anchor : selector := SelTagAttrPrefix "a" "href" "#".
Definition project_link : selector := SelClass "project-link".
Definition animated_image : selector := SelClass "project-image-animated".

(** What the selections and tests of the wiring loops look at is
    untouched: tag, attributes, parent, [complete], and every class other
    than the two that [init] itself adds before or while wiring. *)
Definition same_wiring (e e' : element) : Prop :=
  tagName e' = tagName e /\ attrs e' = attrs e /\ parentNode e' = parentNode e /\
  complete e' = complete e /\
  forall c, c <> "animate-in" -> c <> "loaded" ->
            has_class c (classList e') = has_class c (classList e).

(** The listeners [init] registers on element [m], read off the document
    the script starts on. *)
Definition element_handlers (s : state) (m : nat) (ty : string) : list (handler * bool) :=
  (if bool_decide (m ∈ querySelectorAll fragment_anchor s)
   then (if String.eqb "click" ty then [(HAnchorClick, false)] else [])
   else []) ++
  (if bool_decide (m ∈ querySelectorAll project_image s)
   then match elems s !! m with
        | Some e =>
            if complete e then []
            else (if String.eqb "load" ty then [(HImageLoad, false)] else []) ++
                 (if String.eqb "error" ty then [(HImageError, false)] else [])
        | None => []
        end
   else []) ++
  (if bool_decide (m ∈ querySelectorAll project_link s)
   then match querySelectorWithin m animated_image s with
        | Some img =>
            if String.eqb "mouseenter" ty then [(HLinkMouseEnter img, true)] else []
        | None => []
        end
   else []).

(** The page-load logger, registered on a development host only. *)
Definition load_logger (s : state) (t : target) (ty : string) : list (handler * bool) :=
  if bool_decide (TWindow = t) && String.eqb "load" ty &&
     is_dev_host (hostname s) && hasPerformance s
  then [(HPerfLoad, false)] else [].

(** The listener by which [init] defers itself while the document loads. *)
Definition deferred_init (s : state) (t : target) (ty : string) : list (handler * bool) :=
  if String.eqb (readyState s) "loading" && bool_decide (TDocument = t) &&
     String.eqb "DOMContentLoaded" ty
  then [(HInit, false)] else [].

(** Every listener [init] registers past the readiness test, by target and
    type, in the order of registration. *)
Definition wired (s : state) (t : target) (ty : string) : list (handler * bool) :=
  match t with
  | TElem m => element_handlers s m ty
  | _ =>
      (if bool_decide (TMedia = t) && String.eqb "change" ty
       then [(HMotionChange, false)] else []) ++
      (if bool_decide (TBody = t) && String.eqb "keydown" ty
       then [(HKeydown, false)] else []) ++
      (if bool_decide (TBody = t) && String.eqb "mousedown" ty
       then [(HMousedown, false)] else []) ++
      load_logger s t ty ++
      (if bool_decide (TWindow = t) && String.eqb "resize" ty
       then [(HResize, false)] else []) ++
      (if bool_decide (TWindow = t) && String.eqb "orientationchange" ty
       then [(HOrientationChange, false)] else [])
  end.

(** The page once the whole script has run and the document is parsed. *)
Definition script_ready (s : state) : state :=
  if String.eqb (readyState s) "loading"
  then step (main s) DOMContentLoaded
  else main s.

(** The load listener of the service-worker block. *)
Definition service_worker_loader (s : state) (t : target) (ty : string)
    : list (handler * bool) :=
  if hasServiceWorker s && String.eqb (protocol s) "https:"
  then (if bool_decide (TWindow = t) && String.eqb "load" ty
        then [(HServiceWorkerLoad, false)] else [])
  else [].

(** Every listener the script registers, by target and type, in the order
    of registration: when the script starts while the document is loading,
    the service-worker block registers before the body of [init] runs. *)
Definition registered_by_script (s : state) (t : target) (ty : string)
    : list (handler * bool) :=
  if String.eqb (readyState s) "loading"
  then deferred_init s t ty ++ service_worker_loader s t ty ++ wired s t ty
  else wired s t ty ++ service_worker_loader s t ty.

(** What the listeners of the window's [load] event write. *)
Definition load_entries (s : state) (hs : list (handler * bool)) : list console_entry :=
  flat_map (fun ho => match fst ho with
                      | HPerfLoad => [LogPageLoad (loadEventEnd s - navigationStart s)]
                      | _ => []
                      end) hs.

Definition load_registrations (hs : list (handler * bool)) : list string :=
  flat_map (fun ho => match fst ho with
                      | HServiceWorkerLoad => ["/sw.js"]
                      | _ => []
                      end) hs.

(** The sample document served over https from a development host by a
    browser with service workers, the script starting while the document
    loads. *)
Definition secure_dev_page : state :=
  State "loading" Sample.doc [] [] 0 true None false "localhost" true 100 1350 800 None
        0 [] 0 None [] [] [] [] (fun _ _ => QResult None) true "https:" [] 0.

(** A page where the text of a fragment link is wrapped in a [span]: a
    header, the target section, the link and the span inside it. *)
Definition nested_page : state :=
  State "complete"
        [ Sample.header;
          Sample.work_section;
          Sample.el "a" [("href", "#work")] [] None;
          Sample.el "span" [] [] (Some 2) ]
        [] [] 0 true None false "example.org" true 0 0 800 None
        0 [] 0 None [] [] [] [] (fun _ _ => QResult None) false "http:" [] 0.

(** A page with two fragment links: one to the section with id [1up], one
    whose fragment [work.card] names no element. *)
Definition fragments_page : state :=
  State "complete"
        [ Sample.header;
          Sample.el "a" [("href", "#1up")] [] None;
          Element "section" (list_to_map [("id", "1up")]) [] None true "" 600 300 None;
          Sample.el "a" [("href", "#work.card")] [] None;
          Element "section" (list_to_map [("id", "work")]) ["card"] None true "" 900 300 None ]
        [] [] 0 true None false "example.org" true 0 0 800 None
        0 [] 0 None [] [] [] [] (fun _ _ => QResult None) false "http:" [] 0.

(** What [optimizeImageLoading] does to the classes of a project image. *)
Definition mark_loaded (e : element) : element :=
  if complete e then add_class "loaded" e else e.

(** The element is marked as loaded after exactly when it was before. *)
Definition same_loaded (e e' : element) : Prop :=
  has_class "loaded" (classList e') = has_class "loaded" (classList e).







(** The shapes of the listeners the script registers: target, type,
    handler and whether it is registered with [once]. *)
Definition shape_ok (t : target) (ty : string) (h : handler) (once : bool) : bool :=
  match t, h with
  | TElem _, HAnchorClick => String.eqb ty "click" && negb once
  | TElem _, HImageLoad => String.eqb ty "load" && negb once
  | TElem _, HImageError => String.eqb ty "error" && negb once
  | TElem _, HLinkMouseEnter _ => String.eqb ty "mouseenter" && once
  | TMedia, HMotionChange => String.eqb ty "change" && negb once
  | TBody, HKeydown => String.eqb ty "keydown" && negb once
  | TBody, HMousedown => String.eqb ty "mousedown" && negb once
  | TWindow, HPerfLoad => String.eqb ty "load" && negb once
  | TWindow, HResize => String.eqb ty "resize" && negb once
  | TWindow, HOrientationChange => String.eqb ty "orientationchange" && negb once
  | TWindow, HServiceWorkerLoad => String.eqb ty "load" && negb once
  | TDocument, HInit => String.eqb ty "DOMContentLoaded" && negb once
  | _, _ => false
  end.

Definition listener_ok (l : listener) : bool :=
  shape_ok (l_target l) (l_type l) (l_handler l) (l_once l).



(** The timeout set by the resize listener, as opposed to the one set by
    the orientation listener. *)
Definition is_resize_timer (t : timer) : bool :=
  match t_cb t with CbResizeArrow => true | CbSetVhProperty => false end.

(** The timer identifiers in use are below [next_timer]; [resizeTimer]
    names every pending timeout of the resize listener and none of the
    orientation listener; at most one timeout of the resize listener is
    pending. *)
Definition timers_inv (s : state) : Prop :=
  Forall (fun t => t_id t < next_timer s) (timers s) /\
  (forall id, resizeTimer s = Some id -> id < next_timer s) /\
  Forall (fun t => if is_resize_timer t
                   then resizeTimer s = Some (t_id t)
                   else resizeTimer s <> Some (t_id t)) (timers s) /\
  length (List.filter is_resize_timer (timers s)) <= 1.

(** What can happen to a node once the script has started: it can gain the
    classes [animate-in], [loaded] and [error], become complete, and have
    its [src] attribute rewritten. Everything else about it stays. *)
Definition only_marks (e e' : element) : Prop :=
  tagName e' = tagName e /\
  (forall k, k <> "src" -> getAttribute k e' = getAttribute k e) /\
  parentNode e' = parentNode e /\
  src e' = src e /\ offsetTop e' = offsetTop e /\ offsetHeight e' = offsetHeight e /\
  transitionDelay e' = transitionDelay e /\
  (complete e = true -> complete e' = true) /\
  (forall c, c ∈ classList e -> c ∈ classList e') /\
  (forall c, c ∈ classList e' ->
             c ∈ classList e \/ c = "animate-in" \/ c = "loaded" \/ c = "error").



(** What the reload of the hover listener does to the image: the [src]
    read is assigned back. *)
Definition reload (e : element) : element :=
  if complete e then e else assign_src (src e) e.

(** ** Stagger delays as numbers *)

(** The reading of "exactly index x 0.1" as the number [index / 10]: the
    delay of the card at index [k] stands for the rational [k / 10], or at
    least is the double nearest to it, the one that prints as [0.1], [0.2],
    [0.3], ... *)
Definition delays_exact_tenths : Prop :=
  forall s k n,
    querySelectorAll project_card s !! k = Some n ->
    exists e' d,
      elems (addStaggerDelay s) !! n = Some e' /\
      transitionDelay e' = Some d /\
      (d = Number.div (Number.of_Z (Z.of_nat k)) (Number.of_Z 10) \/
       exists q, Number.value d = Some q /\ (q == inject_Z (Z.of_nat k) * (1 # 10))%Q).

(** A page of four project cards. *)
Definition gallery : state :=
  State "complete" (repeat (Sample.el "div" [] ["project-card"] None) 4)
        [] [] 0 true None false "example.org" true 0 0 812 None
        0 [] 0 None [] [] [] [] (fun _ _ => QResult None) false "http:" [] 0.




(** * Properties *)

(** ** Strings *)

Module JSFacts.
Import JS.

Lemma app_empty_l (s : string) : "" +:+ s = s.
Proof. reflexivity. Qed.

Lemma app_cons_l (a : ascii) (s t : string) :
  String a s +:+ t = String a (s +:+ t).
Proof. reflexivity. Qed.

Lemma prefix_empty (s : string) : String.prefix "" s = true.
Proof. destruct s; reflexivity. Qed.

Lemma prefix_spec (sub s : string) :
  String.prefix sub s = true <-> exists post, s = sub +:+ post.
Proof.
  revert s. induction sub as [|a sub IH]; intros s.
  - rewrite prefix_empty. split; [intros _; exists s; reflexivity | reflexivity].
  - destruct s as [|b s]; simpl.
    + split; [discriminate | intros [post H]; discriminate].
    + destruct (ascii_dec a b) as [->|Hab].
      * rewrite IH. split; intros [post H]; exists post.
        -- rewrite app_cons_l. now rewrite H.
        -- rewrite app_cons_l in H. now inversion H.
      * split; [discriminate | intros [post H]].
        rewrite app_cons_l in H. inversion H. congruence.
Qed.

Lemma occurs_in_cons (sub : string) (a : ascii) (r : string) :
  occurs_in sub (String a r) <->
  String.prefix sub (String a r) = true \/ occurs_in sub r.
Proof.
  split.
  - intros ([|b pre] & post & H).
    + left. apply prefix_spec. exists post. exact H.
    + right. rewrite app_cons_l in H. inversion H; subst.
      exists pre, post. reflexivity.
  - intros [H | (pre & post & ->)].
    + apply prefix_spec in H as [post H]. exists "", post. exact H.
    + exists (String a pre), post. reflexivity.
Qed.

Lemma occurs_in_empty (sub : string) :
  occurs_in sub "" <-> String.prefix sub "" = true.
Proof.
  split.
  - intros (pre & post & H). destruct pre; [|discriminate].
    apply prefix_spec. exists post. exact H.
  - intros H. apply prefix_spec in H as [post H]. exists "", post. exact H.
Qed.

Lemma indexOf_from_eq (i : Z) (s sub : string) :
  indexOf_from i s sub =
  if String.prefix sub s then i
  else match s with
       | EmptyString => (-1)%Z
       | String _ r => indexOf_from (i + 1) r sub
       end.
Proof. destruct s; reflexivity. Qed.

(** [indexOf] answers [-1] exactly when the string does not occur. *)
Lemma indexOf_from_absent (sub s : string) (i : Z) :
  (0 <= i)%Z -> indexOf_from i s sub = (-1)%Z <-> ~ occurs_in sub s.
Proof.
  revert i. induction s as [|a r IH]; intros i Hi; rewrite indexOf_from_eq.
  - rewrite occurs_in_empty.
    destruct (String.prefix sub ""); split; try lia; try congruence.
  - rewrite occurs_in_cons.
    destruct (String.prefix sub (String a r)) eqn:Hp.
    + split; [lia | intros H; destruct H; now left].
    + rewrite IH by lia. split.
      * intros Hn [H | H]; [discriminate | contradiction].
      * intros Hn H. apply Hn. now right.
Qed.

Lemma indexOf_absent (sub s : string) :
  indexOf s sub = (-1)%Z <-> ~ occurs_in sub s.
Proof. apply indexOf_from_absent. lia. Qed.



End JSFacts.

(** ** Loops, selections and in-place updates *)

Lemma forEach_from_inv {A St : Type} (P : St -> Prop) (f : A -> nat -> St -> St) :
  (forall x k s, P s -> P (f x k s)) ->
  forall l k s, P s -> P (JS.forEach_from k f l s).
Proof.
  intros Hf l. induction l as [|x l IH]; intros k s Hs; simpl; [exact Hs|].
  apply IH, Hf, Hs.
Qed.

Lemma forEach_inv {A St : Type} (P : St -> Prop) (f : A -> nat -> St -> St) :
  (forall x k s, P s -> P (f x k s)) ->
  forall l s, P s -> P (JS.forEach f l s).
Proof. intros Hf l s. apply forEach_from_inv, Hf. Qed.

Lemma find_from_ge p i es n : n ∈ find_from p i es -> i <= n.
Proof.
  revert i. induction es as [|e es IH]; intros i; simpl.
  - intros H. inversion H.
  - destruct (p i e); [rewrite elem_of_cons; intros [-> | H]|intros H];
      try lia; apply IH in H; lia.
Qed.

Lemma find_from_spec p i es n :
  n ∈ find_from p i es <->
  exists e, i <= n /\ es !! (n - i) = Some e /\ p n e = true.
Proof.
  revert i. induction es as [|e es IH]; intros i; simpl.
  - split; [intros H; inversion H | intros (e & _ & H & _); discriminate].
  - assert (Hrest : n ∈ find_from p (S i) es <->
                    exists e', S i <= n /\ (e :: es) !! (n - i) = Some e' /\ p n e' = true).
    { rewrite IH. split; intros (e' & Hle & Hl & Hp); exists e'; repeat split; try lia; try done.
      - replace (n - i) with (S (n - S i)) by lia. exact Hl.
      - replace (n - i) with (S (n - S i)) in Hl by lia. exact Hl. }
    destruct (p i e) eqn:Hp.
    + rewrite elem_of_cons, Hrest. split.
      * intros [-> | (e' & Hle & Hl & Hp')].
        -- exists e. rewrite Nat.sub_diag. repeat split; try done.
        -- exists e'. repeat split; try done; lia.
      * intros (e' & Hle & Hl & Hp').
        destruct (decide (n = i)) as [->|Hne]; [now left|right].
        exists e'. repeat split; try done; lia.
    + rewrite Hrest. split.
      * intros (e' & Hle & Hl & Hp'). exists e'. repeat split; try done; lia.
      * intros (e' & Hle & Hl & Hp').
        destruct (decide (n = i)) as [->|Hne].
        -- rewrite Nat.sub_diag in Hl. simpl in Hl. congruence.
        -- exists e'. repeat split; try done; lia.
Qed.

Lemma find_from_NoDup p i es : NoDup (find_from p i es).
Proof.
  revert i. induction es as [|e es IH]; intros i; simpl; [constructor|].
  destruct (p i e); [|apply IH].
  constructor; [|apply IH].
  intros H. apply find_from_ge in H. lia.
Qed.

(** [querySelectorAll] returns exactly the matching nodes, each once. *)
Lemma querySelectorAll_spec sel s n :
  n ∈ querySelectorAll sel s <->
  exists e, elems s !! n = Some e /\ matches_sel sel e = true.
Proof.
  unfold querySelectorAll. rewrite find_from_spec. rewrite Nat.sub_0_r.
  split; [intros (e & _ & H1 & H2) | intros (e & H1 & H2)]; exists e; repeat split; try done; lia.
Qed.

Lemma querySelectorAll_NoDup sel s : NoDup (querySelectorAll sel s).
Proof. apply find_from_NoDup. Qed.

(** Selections that look only at the element depend only on what the
    predicate sees. *)
Lemma find_from_rel (R : element -> element -> Prop) (p : element -> bool) :
  (forall e e', R e e' -> p e' = p e) ->
  forall es es' i, Forall2 R es es' ->
  find_from (fun _ => p) i es' = find_from (fun _ => p) i es.
Proof.
  intros HR es es' i H. revert i. induction H as [|e e' es es' He H IH]; intros i; simpl.
  - reflexivity.
  - rewrite (HR _ _ He), IH. reflexivity.
Qed.

Lemma set_elems_id s : set_elems (elems s) s = s.
Proof. destruct s; reflexivity. Qed.

Lemma set_elems_twice x y s : set_elems x (set_elems y s) = set_elems x s.
Proof. reflexivity. Qed.

(** A loop of in-place updates touches nothing but the nodes. *)
Lemma forEach_upd k g ns s :
  JS.forEach_from k (fun n i => upd_elem n (g i)) ns s =
  set_elems (alter_each k g ns (elems s)) s.
Proof.
  revert k s. induction ns as [|n ns IH]; intros k s; simpl.
  - symmetry. apply set_elems_id.
  - rewrite IH. reflexivity.
Qed.

Lemma alter_each_notin k g ns es n :
  n ∉ ns -> alter_each k g ns es !! n = es !! n.
Proof.
  revert k es. induction ns as [|m ns IH]; intros k es Hn; simpl; [reflexivity|].
  apply not_elem_of_cons in Hn as [Hne Hn].
  unfold alter_each in *. simpl. rewrite IH by exact Hn.
  apply list_lookup_alter_ne. congruence.
Qed.

Lemma alter_each_in k g ns es j n :
  NoDup ns -> ns !! j = Some n ->
  alter_each k g ns es !! n = g (k + j) <$> es !! n.
Proof.
  revert k es j. induction ns as [|m ns IH]; intros k es j Hnd Hj; [discriminate|].
  apply NoDup_cons in Hnd as [Hm Hnd].
  unfold alter_each in *. simpl. destruct j as [|j]; simpl in Hj.
  - injection Hj as ->. fold (alter_each (S k) g ns (alter (g k) n es)).
    rewrite alter_each_notin by exact Hm.
    rewrite Nat.add_0_r. apply list_lookup_alter_eq.
  - rewrite (IH (S k) _ j Hnd Hj).
    replace (S k + j) with (k + S j) by lia.
    rewrite list_lookup_alter_ne; [reflexivity|].
    intros ->. apply Hm. eapply list_elem_of_lookup_2, Hj.
Qed.

Lemma alter_each_length k g ns es : length (alter_each k g ns es) = length es.
Proof.
  revert k es. induction ns as [|m ns IH]; intros k es; [reflexivity|].
  unfold alter_each in *. simpl. rewrite IH. apply length_alter.
Qed.

Lemma upd_elem_rel R f n s0 s :
  keeps R f -> elems_rel R s0 s -> elems_rel R s0 (upd_elem n f s).
Proof.
  intros Hf H. unfold elems_rel, upd_elem. simpl.
  apply Forall2_alter_r; [exact H|]. intros x y _ _. apply Hf.
Qed.

Lemma elems_rel_eq R s0 s s' :
  elems s' = elems s -> elems_rel R s0 s -> elems_rel R s0 s'.
Proof. unfold elems_rel. now intros ->. Qed.

Lemma elems_rel_lookup R s0 s n e :
  elems_rel R s0 s -> elems s0 !! n = Some e ->
  exists e', elems s !! n = Some e' /\ R e e'.
Proof. intros H. apply Forall2_lookup_l, H. Qed.

(** ** External links *)

Lemma forEach_upd_selected sel f s n e :
  elems s !! n = Some e ->
  elems (JS.forEach (fun m _ => upd_elem m f) (querySelectorAll sel s) s) !! n =
  Some (if matches_sel sel e then f e else e).
Proof.
  intros He. unfold JS.forEach.
  rewrite (forEach_upd 0 (fun _ => f)). simpl.
  destruct (matches_sel sel e) eqn:Hm.
  - assert (Hin : n ∈ querySelectorAll sel s)
      by (apply querySelectorAll_spec; eauto).
    apply list_elem_of_lookup in Hin as [j Hj].
    rewrite (alter_each_in _ _ _ _ j n (querySelectorAll_NoDup sel s) Hj).
    now rewrite He.
  - rewrite alter_each_notin; [exact He|].
    intros Hin. apply querySelectorAll_spec in Hin as (e' & He' & Hm').
    congruence.
Qed.

Lemma secureExternalLinks_lookup s n e :
  elems s !! n = Some e ->
  elems (secureExternalLinks s) !! n =
  Some (if matches_sel blank_target e then secure_link e else e).
Proof. apply forEach_upd_selected. Qed.

Lemma secure_link_lacking e :
  ~ JS.occurs_in "noopener" (rel_of e) ->
  secure_link e = setAttribute "rel" (rel_of e +:+ " noopener noreferrer") e.
Proof.
  intros H. apply JSFacts.indexOf_absent in H.
  unfold secure_link, rel_of in *. rewrite H. rewrite orb_true_r.
  destruct (getAttribute "rel" e) as [v|]; [|reflexivity].
  destruct v; reflexivity.
Qed.

Lemma secure_link_present e r :
  getAttribute "rel" e = Some r -> JS.occurs_in "noopener" r ->
  secure_link e = e.
Proof.
  intros Hr H. unfold secure_link.
  assert (Hh : hasAttribute "rel" e = true).
  { unfold hasAttribute, getAttribute in *. rewrite Hr.
    apply bool_decide_eq_true_2. eauto. }
  rewrite Hh, Hr. simpl.
  destruct (JS.indexOf r "noopener" =? -1)%Z eqn:Hi; [|reflexivity].
  apply Z.eqb_eq, JSFacts.indexOf_absent in Hi. contradiction.
Qed.

Lemma getAttribute_setAttribute k v e :
  getAttribute k (setAttribute k v e) = Some v.
Proof. unfold getAttribute, setAttribute. simpl. apply lookup_insert_eq. Qed.



(** C1: the script at a link in a new browsing context whose [rel] is
    ["xnoopener"]. The value has neither the token [noopener] nor the token
    [noreferrer], yet [secureExternalLinks] leaves the link as it is: its
    guard looks for the substring [noopener], which the value contains. *)
Theorem xnoopener_link_left_unhardened :
  matches_sel blank_target Sample.xnoopener_link = true /\
  JS.tokens (rel_of Sample.xnoopener_link) = ["xnoopener"] /\
  (JS.indexOf (rel_of Sample.xnoopener_link) "noopener" =? -1)%Z = false /\
  elems (secureExternalLinks (Sample.page false)) !! 12 = Some Sample.xnoopener_link.
Proof. vm_compute. repeat split. Qed.


(** C10: a [rel] value that contains [noopener] anywhere is left exactly as
    it is, so a [rel] of ["noopener"] alone never gains [noreferrer]; an
    absent [rel] becomes [" noopener noreferrer"], leading space included. *)
Theorem secureExternalLinks_keeps_noopener s n e :
  elems s !! n = Some e ->
  (forall r, getAttribute "rel" e = Some r -> JS.occurs_in "noopener" r ->
     elems (secureExternalLinks s) !! n = Some e) /\
  (forall pre post, getAttribute "rel" e = Some (pre +:+ "noopener" +:+ post) ->
     elems (secureExternalLinks s) !! n = Some e) /\
  (getAttribute "rel" e = Some "noopener" ->
     elems (secureExternalLinks s) !! n = Some e /\
     "noreferrer" ∉ JS.tokens (rel_of e)) /\
  (matches_sel blank_target e = true -> getAttribute "rel" e = None ->
     elems (secureExternalLinks s) !! n =
       Some (setAttribute "rel" " noopener noreferrer" e)).
Proof.
  intros He.
  assert (Hkeep : forall r, getAttribute "rel" e = Some r ->
            JS.occurs_in "noopener" r ->
            elems (secureExternalLinks s) !! n = Some e).
  { intros r Hr Ho. rewrite (secureExternalLinks_lookup s n e He).
    rewrite (secure_link_present e r Hr Ho). now destruct (matches_sel _ e). }
  split; [exact Hkeep|]. split; [|split].
  - intros pre post Hr. apply (Hkeep _ Hr). now exists pre, post.
  - intros Hr. split.
    + apply (Hkeep _ Hr). now exists "", "".
    + unfold rel_of. rewrite Hr. vm_compute. intros Hin.
      apply list_elem_of_In in Hin. destruct Hin as [Hin | []]. discriminate.
  - intros Hm Hr.
    rewrite (secureExternalLinks_lookup s n e He), Hm.
    rewrite secure_link_lacking; unfold rel_of; rewrite Hr; [reflexivity|].
    apply JSFacts.indexOf_absent. reflexivity.
Qed.

Lemma secureExternalLinks_keeps_noopener_witness :
  elems (secureExternalLinks (Sample.page false)) !! 13 = Some Sample.noopener_link /\
  "noreferrer" ∉ JS.tokens (rel_of Sample.noopener_link).
Proof.
  apply (secureExternalLinks_keeps_noopener (Sample.page false) 13 Sample.noopener_link).
  - reflexivity.
  - vm_compute. reflexivity.
Defined.

(** ** Listeners and dispatch *)

Lemma handlers_on_add t ty t' ty' h o s :
  handlers_on t ty (addEventListener t' ty' h o s) =
  handlers_on t ty s ++
  (if bool_decide (t' = t) && String.eqb ty' ty then [(h, o)] else []).
Proof.
  unfold handlers_on, listeners_on, addEventListener. simpl.
  rewrite List.filter_app, map_app. simpl. unfold listens at 2. simpl.
  now destruct (bool_decide (t' = t) && String.eqb ty' ty).
Qed.

Lemma handlers_on_listeners t ty s s' :
  listeners s' = listeners s -> handlers_on t ty s' = handlers_on t ty s.
Proof. unfold handlers_on, listeners_on. now intros ->. Qed.

Lemma listeners_on_remove t ty l s :
  listeners_on t ty (remove_listener l s) =
  List.filter (fun l' => negb (bool_decide (l' = l))) (listeners_on t ty s).
Proof.
  unfold listeners_on, remove_listener. simpl.
  induction (listeners s) as [|x ls IH]; simpl; [reflexivity|].
  destruct (negb (bool_decide (x = l))) eqn:Hid, (listens t ty x) eqn:Hl; simpl;
    rewrite ?Hid, ?Hl, IH; reflexivity.
Qed.

Lemma listeners_on_registered t ty s l :
  In l (listeners_on t ty s) -> registered l s = true.
Proof.
  unfold listeners_on, registered. intros H.
  apply List.filter_In in H as [H _]. apply bool_decide_eq_true_2.
  now apply list_elem_of_In.
Qed.

Lemma dispatch_none t e s :
  handlers_on t (ev_type e) s = [] -> dispatch t e s = (s, e).
Proof.
  unfold handlers_on, dispatch. intros H.
  apply map_eq_nil in H. now rewrite H.
Qed.

(** A target with a single listener for the event: the listener runs, after
    being removed if it was registered with [once]. *)
Lemma dispatch_single t e s h o :
  handlers_on t (ev_type e) s = [(h, o)] ->
  exists id,
    listeners_on t (ev_type e) s = [Listener id t (ev_type e) h o] /\
    dispatch t e s =
      run_handler h t e
        (if o then remove_listener (Listener id t (ev_type e) h o) s else s).
Proof.
  unfold handlers_on, dispatch. intros H.
  destruct (listeners_on t (ev_type e) s) as [|l [|l' ls]] eqn:Hl; try discriminate.
  simpl in H. injection H as Hh Ho.
  assert (Hin : In l (listeners_on t (ev_type e) s)) by (rewrite Hl; now left).
  pose proof (listeners_on_registered _ _ _ _ Hin) as Hreg.
  unfold listeners_on in Hin. apply List.filter_In in Hin as [_ Hls].
  unfold listens in Hls. apply andb_prop in Hls as [Ht Hty].
  apply bool_decide_eq_true in Ht. apply String.eqb_eq in Hty.
  exists (l_id l).
  assert (El : l = Listener (l_id l) t (ev_type e) h o)
    by (destruct l; simpl in *; now subst).
  rewrite <- El. split; [reflexivity|].
  simpl. rewrite Hreg, Hh, Ho. reflexivity.
Qed.

Lemma handlers_on_remove_single t ty s l :
  listeners_on t ty s = [l] ->
  handlers_on t ty (remove_listener l s) = [].
Proof.
  intros H. unfold handlers_on. rewrite listeners_on_remove, H. simpl.
  now rewrite bool_decide_eq_true_2.
Qed.

(** Handlers registered by a loop over nodes: each node of the list
    contributes its own listeners, once. *)
Lemma forEach_handlers (P : state -> Prop) (B : nat -> nat -> state -> state)
    (C : nat -> string -> list (handler * bool)) :
  (forall n k s, P s -> P (B n k s)) ->
  (forall n k s t ty, P s ->
     handlers_on t ty (B n k s) =
     handlers_on t ty s ++ (if bool_decide (t = TElem n) then C n ty else [])) ->
  forall ns k s t ty, NoDup ns -> P s ->
    handlers_on t ty (JS.forEach_from k B ns s) =
    handlers_on t ty s ++
    match t with
    | TElem m => if bool_decide (m ∈ ns) then C m ty else []
    | _ => []
    end.
Proof.
  intros HP HB ns. induction ns as [|n ns IH]; intros k s t ty Hnd Hs; simpl.
  - destruct t; now rewrite app_nil_r.
  - apply NoDup_cons in Hnd as [Hn Hnd].
    rewrite IH by auto. rewrite HB by exact Hs. rewrite <- app_assoc. f_equal.
    destruct t as [| | | |m]; try (rewrite bool_decide_eq_false_2 by discriminate; reflexivity).
    destruct (decide (m = n)) as [->|Hne].
    + rewrite bool_decide_eq_true_2 by reflexivity.
      rewrite (bool_decide_eq_false_2 _ Hn).
      rewrite bool_decide_eq_true_2 by (now left).
      apply app_nil_r.
    + rewrite (bool_decide_eq_false_2 (TElem m = TElem n)) by congruence.
      simpl. destruct (decide (m ∈ ns)) as [Hin|Hin].
      * rewrite !bool_decide_eq_true_2; [reflexivity| now right | exact Hin].
      * rewrite !bool_decide_eq_false_2; [reflexivity| |exact Hin].
        intros H. apply elem_of_cons in H as [?|?]; contradiction.
Qed.

(** ** Anchor navigation *)

Lemma handlers_on_add_elem t ty n ty' h o s :
  handlers_on t ty (addEventListener (TElem n) ty' h o s) =
  handlers_on t ty s ++
  (if bool_decide (t = TElem n)
   then (if String.eqb ty' ty then [(h, o)] else [])
   else []).
Proof.
  rewrite handlers_on_add.
  destruct (decide (t = TElem n)) as [->|Hne].
  - now rewrite !bool_decide_eq_true_2 by reflexivity.
  - rewrite (bool_decide_eq_false_2 (TElem n = t)) by congruence.
    now rewrite (bool_decide_eq_false_2 (t = TElem n)) by congruence.
Qed.

(** [initSmoothScroll] gives every anchor with a fragment [href] one
    persistent click listener and registers nothing else. *)
Lemma initSmoothScroll_handlers s t ty :
  handlers_on t ty (initSmoothScroll s) =
  handlers_on t ty s ++
  match t with
  | TElem m =>
      if bool_decide (m ∈ querySelectorAll (SelTagAttrPrefix "a" "href" "#") s)
      then (if String.eqb "click" ty then [(HAnchorClick, false)] else [])
      else []
  | _ => []
  end.
Proof.
  unfold initSmoothScroll, JS.forEach.
  apply (forEach_handlers (fun _ => True)
           (fun anchor _ => addEventListener (TElem anchor) "click" HAnchorClick false)
           (fun _ ty => if String.eqb "click" ty then [(HAnchorClick, false)] else []));
    auto using querySelectorAll_NoDup.
  intros n k s' t' ty' _. apply handlers_on_add_elem.
Qed.

(** The page and the event a click listener leaves, whichever way it
    ends. *)
Lemma anchor_click_unfold this e s :
  anchor_click this e s =
  (let href := (elems s !! this) ≫= getAttribute "href" in
   if bool_decide (href = Some "#") || bool_decide (href = Some "")
   then (s, e)
   else
     let e := preventDefault e in
     match querySelector_str (str_of href) s with
     | QThrow => (s, e)
     | QResult None => (s, e)
     | QResult (Some target) =>
         let headerHeight :=
           match querySelector (SelClass "header") s ≫= (fun h => elems s !! h) with
           | Some h => or_zero (offsetHeight h)
           | None => 0%Z
           end in
         let targetPosition :=
           (match elems s !! target with Some t => offsetTop t | None => 0 end
            - headerHeight)%Z in
         (set_scrollCalls (scrollCalls s ++ [(targetPosition, "smooth")]) s, e)
     end).
Proof.
  unfold anchor_click, anchor_click_run. cbv zeta.
  destruct (_ || _); [reflexivity|].
  destruct (querySelector_str _ s) as [|[t|]]; reflexivity.
Qed.

Lemma anchor_dispatch s a :
  handlers_on (TElem a) "click" s = [(HAnchorClick, false)] ->
  dispatch (TElem a) (mk_event "click") s = anchor_click a (mk_event "click") s.
Proof.
  intros H. destruct (dispatch_single (TElem a) (mk_event "click") s _ _ H) as (id & _ & ->).
  reflexivity.
Qed.



Lemma string_app_assoc (a b c : string) : (a +:+ b) +:+ c = a +:+ (b +:+ c).
Proof.
  induction a as [|x a IH]; [reflexivity|].
  rewrite !JSFacts.app_cons_l. now rewrite IH.
Qed.










(** C7: the script at a link whose fragment names no element but reads as
    a selector that matches one. No element of the page has the id
    [work.card]; the [href] ["#work.card"], passed to [querySelector] as it
    is, selects the section with id [work] and class [card], and the click
    scrolls to it. *)
Theorem click_on_dotted_fragment_scrolls :
  (forall n e, elems fragments_page !! n = Some e ->
               getAttribute "id" e <> Some "work.card") /\
  querySelector_str "#work.card" (page_ready fragments_page) = QResult (Some 4) /\
  click 3 (page_ready fragments_page) =
    (set_scrollCalls [(820%Z, "smooth")] (page_ready fragments_page),
     preventDefault (mk_event "click")).
Proof.
  split; [|split; vm_compute; reflexivity].
  intros n e He.
  assert (Hlt : n < 5) by (apply lookup_lt_Some in He; exact He).
  do 5 (destruct n as [|n]; [vm_compute in He; injection He as <-; vm_compute; discriminate|]).
  lia.
Qed.

(** C8: the script at a link whose fragment names an element but is not a
    selector. The section with id [1up] is the target of the [href]
    ["#1up"]; [querySelector] rejects the string with a [SyntaxError], so
    the click listener ends by throwing after it has prevented the default
    action, and nothing is scrolled. *)
Theorem click_on_numeric_fragment_throws :
  getAttribute "id" <$> elems fragments_page !! 2 = Some (Some "1up") /\
  querySelector_str "#1up" (page_ready fragments_page) = QThrow /\
  anchor_click_run 1 (mk_event "click") (page_ready fragments_page) =
    (page_ready fragments_page, preventDefault (mk_event "click"), Throws "SyntaxError") /\
  click 1 (page_ready fragments_page) =
    (page_ready fragments_page, preventDefault (mk_event "click")).
Proof. vm_compute. repeat split. Qed.

(** ** Hover preloading *)

Lemma querySelectorWithin_elems root sel s s' :
  elems s' = elems s ->
  querySelectorWithin root sel s' = querySelectorWithin root sel s.
Proof. unfold querySelectorWithin. now intros ->. Qed.

(** [initGifPreloading] gives every project link with an animated image
    below it one [once] listener for [mouseenter]. *)
Lemma initGifPreloading_handlers s t ty :
  handlers_on t ty (initGifPreloading s) =
  handlers_on t ty s ++
  match t with
  | TElem m =>
      if bool_decide (m ∈ querySelectorAll (SelClass "project-link") s)
      then match querySelectorWithin m (SelClass "project-image-animated") s with
           | Some img =>
               if String.eqb "mouseenter" ty then [(HLinkMouseEnter img, true)] else []
           | None => []
           end
      else []
  | _ => []
  end.
Proof.
  unfold initGifPreloading, JS.forEach.
  apply (forEach_handlers (fun s' => elems s' = elems s) _
           (fun m ty =>
              match querySelectorWithin m (SelClass "project-image-animated") s with
              | Some img =>
                  if String.eqb "mouseenter" ty then [(HLinkMouseEnter img, true)] else []
              | None => []
              end)); auto using querySelectorAll_NoDup.
  - intros n k s' Hs'. now destruct (querySelectorWithin n _ s').
  - intros n k s' t' ty' Hs'.
    rewrite (querySelectorWithin_elems _ _ _ _ Hs').
    destruct (querySelectorWithin n _ s) as [img|].
    + apply handlers_on_add_elem.
    + destruct (bool_decide (t' = TElem n)); now rewrite app_nil_r.
Qed.

Lemma hover_first s link img e :
  handlers_on (TElem link) "mouseenter" s = [(HLinkMouseEnter img, true)] ->
  elems s !! img = Some e ->
  srcWrites (step s (MouseEnter link)) =
    srcWrites s ++ (if complete e then [] else [(img, ""); (img, src e)]) /\
  handlers_on (TElem link) "mouseenter" (step s (MouseEnter link)) = [].
Proof.
  intros Hw He. unfold step.
  destruct (dispatch_single (TElem link) (mk_event "mouseenter") s _ _ Hw)
    as (id & Hl & ->).
  simpl. unfold link_mouseenter. simpl. rewrite He.
  destruct (complete e); simpl.
  - split; [now rewrite app_nil_r|].
    apply (handlers_on_remove_single _ _ _ _ Hl).
  - split; [now rewrite <- app_assoc|].
    rewrite <- (handlers_on_remove_single _ _ _ _ Hl).
    now apply handlers_on_listeners.
Qed.

Lemma hover_spent s link k :
  handlers_on (TElem link) "mouseenter" s = [] ->
  run s (repeat (MouseEnter link) k) = s.
Proof.
  intros H. induction k as [|k IH]; [reflexivity|].
  change (run (step s (MouseEnter link)) (repeat (MouseEnter link) k) = s).
  assert (Hs : step s (MouseEnter link) = s).
  { unfold step. now rewrite (dispatch_none (TElem link) (mk_event "mouseenter") s H). }
  now rewrite Hs.
Qed.

(** C6, as amended: on a project link that carries the [mouseenter] listener
    of [initGifPreloading], the first pointer-enter clears and restores the
    source of the animated image exactly when that image is not complete at
    that moment, and does nothing to it otherwise; the listener is gone after
    the first event, so two, or any number of, pointer-enter events reload at
    most once. *)
Theorem hover_reloads_at_most_once s link img e :
  handlers_on (TElem link) "mouseenter" s = [(HLinkMouseEnter img, true)] ->
  elems s !! img = Some e ->
  srcWrites (run s [MouseEnter link; MouseEnter link]) =
    srcWrites s ++ (if complete e then [] else [(img, ""); (img, src e)]) /\
  handlers_on (TElem link) "mouseenter" (step s (MouseEnter link)) = [] /\
  (forall k, run s (MouseEnter link :: repeat (MouseEnter link) k) =
             step s (MouseEnter link)).
Proof.
  intros Hw He. destruct (hover_first s link img e Hw He) as [Hsrc Hgone].
  assert (Hmore : forall k, run s (MouseEnter link :: repeat (MouseEnter link) k) =
                            step s (MouseEnter link)).
  { intros k. change (run (step s (MouseEnter link)) (repeat (MouseEnter link) k) =
                      step s (MouseEnter link)).
    now apply hover_spent. }
  split; [|split]; [|exact Hgone|exact Hmore].
  replace (run s [MouseEnter link; MouseEnter link])
    with (step s (MouseEnter link)) by (symmetry; exact (Hmore 1)).
  exact Hsrc.
Qed.

Lemma hover_reloads_at_most_once_witness :
  srcWrites (run Sample.loaded_page [MouseEnter 6; MouseEnter 6]) =
    srcWrites Sample.loaded_page ++ [(8, ""); (8, "a.gif")].
Proof.
  refine (proj1 (hover_reloads_at_most_once Sample.loaded_page 6 8
                   (Sample.img ["project-image"; "project-image-animated"]
                      (Some 6) false "a.gif") _ _));
    vm_compute; reflexivity.
Defined.

(** C6 as stated fails: when the animated image is already complete at the
    first pointer-enter, two pointer-enter events reload nothing. *)
Lemma hover_on_complete_image_reloads_nothing : ~ hover_reloads_exactly_once.
Proof.
  intros H.
  specialize (H Sample.loaded_page 10 11
                (Sample.img ["project-image"; "project-image-animated"; "loaded"]
                   (Some 10) true "b.gif")).
  vm_compute in H. specialize (H eq_refl eq_refl). discriminate.
Qed.

(** ** What the script and the handlers leave alone *)

Section Frames.

Context (R : element -> element -> Prop) (s0 : state).
Hypothesis Hanimate : keeps R (add_class "animate-in").
Hypothesis Hloaded : keeps R (add_class "loaded").
Hypothesis Herror : keeps R (add_class "error").
Hypothesis Hdelay : forall d, keeps R (set_transitionDelay d).
Hypothesis Hsecure : keeps R secure_link.
Hypothesis Hsrc : forall v, keeps R (assign_src v).
Hypothesis Hcomplete : forall b, keeps R (set_complete b).

Local Abbreviation rel := (elems_rel R s0).

Lemma reveal_rel n s : rel s -> rel (reveal n s).
Proof. apply upd_elem_rel, Hanimate. Qed.

Lemma checkReducedMotion_rel s : rel s -> rel (checkReducedMotion s).
Proof.
  intros H. unfold checkReducedMotion.
  apply (elems_rel_eq R s0
           (if reducedMotion s
            then JS.forEach (fun element _ => reveal element)
                   (querySelectorAll (SelAttr "data-animate")
                      (set_bodyClasses (class_add "reduce-motion" (bodyClasses s)) s))
                   (set_bodyClasses (class_add "reduce-motion" (bodyClasses s)) s)
            else s)); [reflexivity|].
  destruct (reducedMotion s); [|exact H].
  apply forEach_inv; [intros; now apply reveal_rel | exact H].
Qed.

Lemma addStaggerDelay_rel s : rel s -> rel (addStaggerDelay s).
Proof.
  intros H. unfold addStaggerDelay.
  apply forEach_inv; [|exact H]. intros n k s' Hs'. now apply upd_elem_rel.
Qed.

Lemma observe_elems n s : elems (observe n s) = elems s.
Proof. unfold observe. now destruct (observed s). Qed.

Lemma unobserve_elems n s : elems (unobserve n s) = elems s.
Proof. unfold unobserve. now destruct (observed s). Qed.

Lemma initScrollAnimations_rel s : rel s -> rel (initScrollAnimations s).
Proof.
  intros H. unfold initScrollAnimations.
  destruct (negb (hasIntersectionObserver s)).
  - apply forEach_inv; [intros; now apply reveal_rel | exact H].
  - apply forEach_inv; [|exact H].
    intros n k s' Hs'. eapply elems_rel_eq; [apply observe_elems | exact Hs'].
Qed.

Lemma observer_callback_rel entries s : rel s -> rel (observer_callback entries s).
Proof.
  intros H. unfold observer_callback. apply forEach_inv; [|exact H].
  intros [n b] k s' Hs'. simpl. destruct b; [|exact Hs'].
  eapply elems_rel_eq; [apply unobserve_elems | now apply reveal_rel].
Qed.

Lemma initSmoothScroll_rel s : rel s -> rel (initSmoothScroll s).
Proof.
  intros H. unfold initSmoothScroll. apply forEach_inv; [|exact H].
  intros n k s' Hs'. exact Hs'.
Qed.

Lemma optimizeImageLoading_rel s : rel s -> rel (optimizeImageLoading s).
Proof.
  intros H. unfold optimizeImageLoading. apply forEach_inv; [|exact H].
  intros n k s' Hs'. destruct (elems s' !! n) as [e|]; [|exact Hs'].
  destruct (complete e); [now apply upd_elem_rel | exact Hs'].
Qed.

Lemma initGifPreloading_rel s : rel s -> rel (initGifPreloading s).
Proof.
  intros H. unfold initGifPreloading. apply forEach_inv; [|exact H].
  intros n k s' Hs'. now destruct (querySelectorWithin n _ s').
Qed.

Lemma secureExternalLinks_rel s : rel s -> rel (secureExternalLinks s).
Proof.
  intros H. unfold secureExternalLinks. apply forEach_inv; [|exact H].
  intros n k s' Hs'. now apply upd_elem_rel.
Qed.

Lemma init_rest_rel s : rel s -> rel (init_rest s).
Proof.
  intros H. unfold init_rest.
  apply initScrollAnimations_rel, initSmoothScroll_rel, optimizeImageLoading_rel,
    initGifPreloading_rel, secureExternalLinks_rel in H.
  eapply elems_rel_eq; [|exact H].
  simpl. now destruct (is_dev_host _); [unfold logPerformance; destruct (hasPerformance _)|].
Qed.

Lemma init_rel s : rel s -> rel (init s).
Proof.
  intros H. unfold init. destruct (String.eqb (readyState s) "loading"); [exact H|].
  change (init_ready s) with (init_rest (addStaggerDelay (checkReducedMotion s))).
  now apply init_rest_rel, addStaggerDelay_rel, checkReducedMotion_rel.
Qed.

Lemma anchor_click_elems n e s : elems (fst (anchor_click n e s)) = elems s.
Proof.
  rewrite anchor_click_unfold; cbv zeta.
  destruct (bool_decide _ || bool_decide _); [reflexivity|].
  now destruct (querySelector_str _ s) as [|[t|]].
Qed.

(** Every handler but the deferred [init] itself. *)
Lemma run_handler_rel h t e s :
  h <> HInit -> rel s -> rel (fst (run_handler h t e s)).
Proof.
  intros Hh H. destruct h; try contradiction; simpl.
  - destruct t; try exact H. eapply elems_rel_eq; [apply anchor_click_elems|exact H].
  - destruct t; try exact H. now apply upd_elem_rel.
  - destruct t; try exact H. now apply upd_elem_rel.
  - unfold link_mouseenter. destruct (elems s !! animatedImage) as [x|]; [|exact H].
    destruct (negb (complete x)); [|exact H].
    unfold write_src. simpl.
    change (rel (upd_elem animatedImage (assign_src (src x))
                   (upd_elem animatedImage (assign_src "") s))).
    now apply upd_elem_rel, upd_elem_rel.
  - unfold motion_change. now destruct (reducedMotion s).
  - exact H.
  - unfold body_keydown. now destruct (String.eqb _ _).
  - exact H.
  - unfold window_resize, clearTimeout. now destruct (resizeTimer s).
  - exact H.
  - exact H.
Qed.

Lemma run_handler_rel_any h t e s : rel s -> rel (fst (run_handler h t e s)).
Proof.
  intros H. destruct h; try (apply run_handler_rel; [discriminate | exact H]).
  simpl. now apply init_rel.
Qed.

Lemma dispatch_rel (ok : handler -> Prop) t e s :
  (forall h t e s, ok h -> rel s -> rel (fst (run_handler h t e s))) ->
  Forall (fun l => ok (l_handler l)) (listeners_on t (ev_type e) s) ->
  rel s -> rel (fst (dispatch t e s)).
Proof.
  intros Hrun Hls H. unfold dispatch.
  revert Hls. generalize (listeners_on t (ev_type e) s) as ls.
  assert (Hgen : forall ls se, rel (fst se) ->
            Forall (fun l => ok (l_handler l)) ls ->
            rel (fst (fold_left (invoke t) ls se))).
  { induction ls as [|l ls IH]; intros [s' e'] Hs' Hls; simpl; [exact Hs'|].
    apply Forall_cons in Hls as [Hl Hls]. apply IH; [|exact Hls].
    destruct (registered l s'); [|exact Hs'].
    apply Hrun; [exact Hl|]. now destruct (l_once l). }
  intros ls Hls. now apply Hgen.
Qed.

Lemma run_timers_elems due s : elems (run_timers due s) = elems s.
Proof.
  revert s. induction due as [|t due IH]; intros s; simpl; [reflexivity|].
  rewrite IH. now destruct (t_cb t).
Qed.

Lemma advance_elems d s : elems (advance d s) = elems s.
Proof. unfold advance. simpl. now rewrite run_timers_elems. Qed.

(** The listeners an input reaches must be [ok]; on a parsed page no input
    reaches the listeners for [DOMContentLoaded]. *)
Lemma step_rel (ok : handler -> Prop) s i :
  (forall h t e s, ok h -> rel s -> rel (fst (run_handler h t e s))) ->
  (forall t ty, (parsed s -> t <> TDocument \/ ty <> "DOMContentLoaded") ->
     Forall (fun l => ok (l_handler l)) (listeners_on t ty s)) ->
  rel s -> rel (step s i).
Proof.
  intros Hrun Hok H.
  assert (Hother : forall t ty, t <> TDocument \/ ty <> "DOMContentLoaded" ->
            Forall (fun l => ok (l_handler l)) (listeners_on t ty s))
    by (intros t ty Ht; apply Hok; intros _; exact Ht).
  destruct i; simpl;
    try (apply (dispatch_rel ok);
         [exact Hrun | apply Hother; left; discriminate | ]; try exact H;
         now apply upd_elem_rel).
  - destruct (String.eqb (readyState s) "loading") eqn:Hl; [|exact H].
    apply (dispatch_rel ok); [exact Hrun| |exact H].
    apply (Hok TDocument "DOMContentLoaded"). unfold parsed. congruence.
  - destruct (observed s); [|exact H]. now apply observer_callback_rel.
  - eapply elems_rel_eq; [apply advance_elems | exact H].
  - now destruct (registrations s).
Qed.

End Frames.

(** ** Image loading *)

Lemma handlers_on_fresh t ty s : listeners s = [] -> handlers_on t ty s = [].
Proof. unfold handlers_on, listeners_on. now intros ->. Qed.

(** [optimizeImageLoading] gives every project image that is not complete
    a [load] and an [error] listener, neither with [once]. *)
Lemma optimizeImageLoading_handlers s t ty :
  handlers_on t ty (optimizeImageLoading s) =
  handlers_on t ty s ++
  match t with
  | TElem m =>
      if bool_decide (m ∈ querySelectorAll project_image s)
      then match elems s !! m with
           | Some e =>
               if complete e then []
               else (if String.eqb "load" ty then [(HImageLoad, false)] else []) ++
                    (if String.eqb "error" ty then [(HImageError, false)] else [])
           | None => []
           end
      else []
  | _ => []
  end.
Proof.
  unfold optimizeImageLoading, JS.forEach.
  apply (forEach_handlers
           (fun s' => forall m, complete <$> elems s' !! m = complete <$> elems s !! m)
           _
           (fun m ty =>
              match elems s !! m with
              | Some e =>
                  if complete e then []
                  else (if String.eqb "load" ty then [(HImageLoad, false)] else []) ++
                       (if String.eqb "error" ty then [(HImageError, false)] else [])
              | None => []
              end)); auto using querySelectorAll_NoDup.
  - intros n k s' Hs' m. destruct (elems s' !! n) as [e'|]; [|apply Hs'].
    destruct (complete e'); [|apply Hs'].
    rewrite <- Hs'. unfold upd_elem. simpl. rewrite list_lookup_alter.
    destruct (decide (n = m)) as [->|]; [|reflexivity].
    now destruct (elems s' !! m).
  - intros n k s' t' ty' Hs'. specialize (Hs' n).
    destruct (elems s' !! n) as [e'|], (elems s !! n) as [e|]; try discriminate.
    + simpl in Hs'. injection Hs' as Hc. rewrite <- Hc.
      destruct (complete e').
      * destruct (bool_decide (t' = TElem n)); now rewrite app_nil_r.
      * rewrite !handlers_on_add_elem.
        destruct (bool_decide (t' = TElem n)); rewrite <- ?app_assoc; reflexivity.
    + destruct (bool_decide (t' = TElem n)); now rewrite app_nil_r.
Qed.

Lemma image_event_listeners s n i :
  handlers_on (TElem n) "load" s = [(HImageLoad, false)] ->
  handlers_on (TElem n) "error" s = [(HImageError, false)] ->
  image_event n i ->
  listeners (step s i) = listeners s.
Proof.
  intros Hl He [-> | ->]; unfold step.
  - destruct (dispatch_single (TElem n) (mk_event "load")
                (upd_elem n (set_complete true) s) HImageLoad false Hl) as (id & _ & ->).
    reflexivity.
  - destruct (dispatch_single (TElem n) (mk_event "error")
                (upd_elem n (set_complete true) s) HImageError false He) as (id & _ & ->).
    reflexivity.
Qed.

Lemma image_events_listeners s n evs :
  handlers_on (TElem n) "load" s = [(HImageLoad, false)] ->
  handlers_on (TElem n) "error" s = [(HImageError, false)] ->
  Forall (image_event n) evs ->
  listeners (run s evs) = listeners s.
Proof.
  intros Hl He Hevs. revert s Hl He.
  induction Hevs as [|i evs Hi _ IH]; intros s Hl He; [reflexivity|].
  change (listeners (run (step s i) evs) = listeners s).
  pose proof (image_event_listeners s n i Hl He Hi) as Hs.
  rewrite IH; [exact Hs| |];
    now rewrite (handlers_on_listeners _ _ _ _ Hs).
Qed.

Lemma image_error_warns s n :
  handlers_on (TElem n) "error" s = [(HImageError, false)] ->
  length (console (step s (ImageError n))) = S (length (console s)) /\
  listeners (step s (ImageError n)) = listeners s.
Proof.
  intros He. unfold step.
  destruct (dispatch_single (TElem n) (mk_event "error")
              (upd_elem n (set_complete true) s) HImageError false He) as (id & _ & ->).
  simpl. rewrite length_app. simpl. split; [lia | reflexivity].
Qed.

Lemma image_errors_warn s n k :
  handlers_on (TElem n) "error" s = [(HImageError, false)] ->
  length (console (run s (repeat (ImageError n) k))) = length (console s) + k.
Proof.
  revert s. induction k as [|k IH]; intros s He; simpl; [lia|].
  change (length (console (run (step s (ImageError n)) (repeat (ImageError n) k))) =
          length (console s) + S k).
  destruct (image_error_warns s n He) as [Hlen Hls].
  rewrite IH by (now rewrite (handlers_on_listeners _ _ _ _ Hls)).
  lia.
Qed.

(** C2, as amended: for a project image that is not complete when
    [optimizeImageLoading] runs (and has no load or error listener yet), the
    [load] and [error] handlers are registered without [once]; they stay
    registered through every load and error event, and the body runs on each
    event: every error event adds one warning to the console. *)
Theorem image_handlers_persist s0 n e :
  elems s0 !! n = Some e ->
  matches_sel project_image e = true ->
  complete e = false ->
  handlers_on (TElem n) "load" s0 = [] ->
  handlers_on (TElem n) "error" s0 = [] ->
  handlers_on (TElem n) "load" (optimizeImageLoading s0) = [(HImageLoad, false)] /\
  handlers_on (TElem n) "error" (optimizeImageLoading s0) = [(HImageError, false)] /\
  (forall evs, Forall (image_event n) evs ->
     listeners (run (optimizeImageLoading s0) evs) = listeners (optimizeImageLoading s0)) /\
  (forall k, length (console (run (optimizeImageLoading s0) (repeat (ImageError n) k))) =
             length (console (optimizeImageLoading s0)) + k).
Proof.
  intros He Hm Hc Hl0 Hr0.
  assert (Hin : n ∈ querySelectorAll project_image s0)
    by (apply querySelectorAll_spec; eauto).
  assert (Hl : handlers_on (TElem n) "load" (optimizeImageLoading s0) = [(HImageLoad, false)]).
  { rewrite optimizeImageLoading_handlers, Hl0.
    rewrite (bool_decide_eq_true_2 _ Hin), He, Hc. reflexivity. }
  assert (Hr : handlers_on (TElem n) "error" (optimizeImageLoading s0) = [(HImageError, false)]).
  { rewrite optimizeImageLoading_handlers, Hr0.
    rewrite (bool_decide_eq_true_2 _ Hin), He, Hc. reflexivity. }
  repeat split; try assumption.
  - intros evs Hevs. now apply (image_events_listeners _ n).
  - intros k. now apply image_errors_warn.
Qed.

Lemma image_handlers_persist_witness :
  handlers_on (TElem 7) "load" (optimizeImageLoading (Sample.page false)) =
    [(HImageLoad, false)] /\
  handlers_on (TElem 7) "error" (optimizeImageLoading (Sample.page false)) =
    [(HImageError, false)] /\
  (forall evs, Forall (image_event 7) evs ->
     listeners (run (optimizeImageLoading (Sample.page false)) evs) =
     listeners (optimizeImageLoading (Sample.page false))) /\
  (forall k, length (console (run (optimizeImageLoading (Sample.page false))
                                (repeat (ImageError 7) k))) =
             length (console (optimizeImageLoading (Sample.page false))) + k).
Proof.
  apply (image_handlers_persist (Sample.page false) 7
           (Sample.img ["project-image"] (Some 6) false "a.png"));
    vm_compute; reflexivity.
Defined.

(** C2 as stated fails: after a first error event the error handler of an
    incomplete project image is still registered. *)
Lemma image_handlers_not_one_shot : ~ image_handlers_one_shot.
Proof.
  intros H.
  destruct (H (Sample.page false) 7 (Sample.img ["project-image"] (Some 6) false "a.png"))
    as (_ & Herr & _); try (vm_compute; reflexivity).
  vm_compute in Herr. discriminate.
Qed.

Lemma image_handlers_run_twice :
  console (run (optimizeImageLoading (Sample.page false)) [ImageError 7; ImageError 7]) =
    [Warn "Image failed to load:" "a.png"; Warn "Image failed to load:" "a.png"] /\
  handlers_on (TElem 7) "load"
    (run (optimizeImageLoading (Sample.page false)) [ImageLoad 7; ImageLoad 7]) =
    [(HImageLoad, false)].
Proof. vm_compute. split; reflexivity. Qed.

Lemma elems_rel_refl R s : (forall e, R e e) -> elems_rel R s s.
Proof.
  intros HR. unfold elems_rel. induction (elems s); constructor; auto.
Qed.

Lemma class_add_keeps c c' cs : c' ∈ cs -> c' ∈ class_add c cs.
Proof.
  unfold class_add. destruct (has_class c cs); [auto|].
  intros H. apply elem_of_app. now left.
Qed.

Lemma class_add_in c cs : c ∈ class_add c cs.
Proof.
  unfold class_add, has_class. destruct (bool_decide (c ∈ cs)) eqn:H.
  - now apply bool_decide_eq_true in H.
  - apply elem_of_app. right. now left.
Qed.

(** No input ever takes a class away from an element. *)
Lemma run_classes_grow s0 ins s :
  elems_rel classes_grow s0 s -> elems_rel classes_grow s0 (run s ins).
Proof.
  revert s. induction ins as [|i ins IH]; intros s H; [exact H|].
  change (elems_rel classes_grow s0 (run (step s i) ins)). apply IH.
  assert (Hadd : forall c, keeps classes_grow (add_class c)).
  { intros c x y Hxy c' Hc'. simpl. apply class_add_keeps. auto. }
  apply (step_rel classes_grow s0) with (ok := fun _ => True); auto.
  - intros b x y Hxy. exact Hxy.
  - intros h t e s' _. apply run_handler_rel_any; auto; intros; intros x y Hxy;
      try exact Hxy; try (unfold assign_src; destruct (reflects_src _); exact Hxy).
    unfold secure_link. now destruct (_ || _).
  - intros t ty _. apply Forall_forall. auto.
Qed.

(** C3, as amended: [loaded] and [error] are only ever added. Whatever the
    inputs, a class that an element carries is never removed; on an image
    with the two handlers a load event adds [loaded] and an error event adds
    [error], whichever classes the image already carries. *)
Theorem image_classes_only_added s n e :
  elems s !! n = Some e ->
  (forall ins, exists e', elems (run s ins) !! n = Some e' /\ classes_grow e e') /\
  (handlers_on (TElem n) "load" s = [(HImageLoad, false)] ->
     classList <$> elems (step s (ImageLoad n)) !! n =
       Some (class_add "loaded" (classList e))) /\
  (handlers_on (TElem n) "error" s = [(HImageError, false)] ->
     classList <$> elems (step s (ImageError n)) !! n =
       Some (class_add "error" (classList e))).
Proof.
  intros He. split; [|split].
  - intros ins. apply (elems_rel_lookup classes_grow s); [|exact He].
    apply run_classes_grow, elems_rel_refl. intros x c Hc. exact Hc.
  - intros Hl. unfold step.
    destruct (dispatch_single (TElem n) (mk_event "load")
                (upd_elem n (set_complete true) s) HImageLoad false Hl) as (id & _ & ->).
    simpl. rewrite !list_lookup_alter_eq, He. reflexivity.
  - intros Hr. unfold step.
    destruct (dispatch_single (TElem n) (mk_event "error")
                (upd_elem n (set_complete true) s) HImageError false Hr) as (id & _ & ->).
    simpl. rewrite !list_lookup_alter_eq, He. reflexivity.
Qed.

Lemma image_classes_only_added_witness :
  classList <$> elems (step (step Sample.loaded_page (ImageError 7)) (ImageLoad 7)) !! 7 =
    Some (class_add "loaded" ["project-image"; "error"]).
Proof.
  refine (proj1 (proj2 (image_classes_only_added
                          (step Sample.loaded_page (ImageError 7)) 7
                          (Element "img" ∅ ["project-image"; "error"] (Some 6) true
                             "a.png" 0 0 None) _)) _);
    vm_compute; reflexivity.
Defined.

(** C3 as stated fails: an error event followed by a load event leaves the
    image with both classes. *)
Lemma error_then_load_sets_both : ~ loaded_error_exclusive.
Proof.
  intros H.
  refine (H (Sample.page false) 7 (Sample.img ["project-image"] (Some 6) false "a.png")
            [ImageError 7; ImageLoad 7]
            (Element "img" ∅ ["project-image"; "error"; "loaded"] (Some 6) true
               "a.png" 0 0 None) _ _ _ _ _ _ _ _ _);
    try (vm_compute; reflexivity).
  - vm_compute. intros Hin. apply list_elem_of_In in Hin.
    destruct Hin as [Hin | []]. discriminate.
  - vm_compute. intros Hin. apply list_elem_of_In in Hin.
    destruct Hin as [Hin | []]. discriminate.
  - constructor; [right; reflexivity|].
    constructor; [left; reflexivity | constructor].
  - split; apply list_elem_of_In; vm_compute; auto.
Qed.

(** ** What [init] registers *)

Lemma forEach_frame {A B : Type} (proj : state -> B) (f : A -> nat -> state -> state) :
  (forall x k s, proj (f x k s) = proj s) ->
  forall l s, proj (JS.forEach f l s) = proj s.
Proof.
  intros Hf l s. apply (forEach_inv (fun s' => proj s' = proj s)); [|reflexivity].
  intros x k s' Hs'. now rewrite Hf.
Qed.

Lemma checkReducedMotion_handlers t ty s :
  handlers_on t ty (checkReducedMotion s) =
  handlers_on t ty s ++
  (if bool_decide (TMedia = t) && String.eqb "change" ty
   then [(HMotionChange, false)] else []).
Proof.
  unfold checkReducedMotion. rewrite handlers_on_add. f_equal.
  apply handlers_on_listeners. destruct (reducedMotion s); [|reflexivity].
  now rewrite (forEach_frame listeners).
Qed.

Lemma addStaggerDelay_listeners s : listeners (addStaggerDelay s) = listeners s.
Proof. unfold addStaggerDelay. now apply (forEach_frame listeners). Qed.

Lemma initScrollAnimations_listeners s :
  listeners (initScrollAnimations s) = listeners s.
Proof.
  unfold initScrollAnimations. destruct (negb (hasIntersectionObserver s)).
  - now apply (forEach_frame listeners).
  - rewrite (forEach_frame listeners); [reflexivity|].
    intros n k s'. unfold observe. now destruct (observed s').
Qed.

Lemma secureExternalLinks_listeners s :
  listeners (secureExternalLinks s) = listeners s.
Proof. unfold secureExternalLinks. now apply (forEach_frame listeners). Qed.

(** On the media query, the body and the window, [init] registers exactly
    [global_handlers], after whatever was there. *)
Lemma logPerformance_handlers t ty s :
  ty <> "load" ->
  handlers_on t ty (if is_dev_host (hostname s) then logPerformance s else s) =
  handlers_on t ty s.
Proof.
  intros Hty. destruct (is_dev_host _); [|reflexivity].
  unfold logPerformance. destruct (hasPerformance s); [|reflexivity].
  rewrite handlers_on_add.
  assert (E : String.eqb "load" ty = false)
    by (apply String.eqb_neq; congruence).
  rewrite E, andb_false_r. apply app_nil_r.
Qed.

Lemma handlers_on_set_resizeTimer t ty x s :
  handlers_on t ty (set_resizeTimer x s) = handlers_on t ty s.
Proof. reflexivity. Qed.

Lemma handlers_on_setVhProperty t ty s :
  handlers_on t ty (setVhProperty s) = handlers_on t ty s.
Proof. reflexivity. Qed.

Lemma init_ready_handlers t ty s :
  (forall n, t <> TElem n) -> ty <> "load" ->
  handlers_on t ty (init_ready s) = handlers_on t ty s ++ global_handlers t ty.
Proof.
  intros Ht Hty. unfold init_ready, global_handlers.
  rewrite !handlers_on_add.
  rewrite handlers_on_set_resizeTimer.
  rewrite logPerformance_handlers by exact Hty.
  rewrite handlers_on_setVhProperty.
  unfold enhanceKeyboardNavigation. rewrite !handlers_on_add.
  rewrite (handlers_on_listeners _ _ _ _ (secureExternalLinks_listeners _)).
  rewrite initGifPreloading_handlers, optimizeImageLoading_handlers,
    initSmoothScroll_handlers.
  rewrite (handlers_on_listeners _ _ _ _ (initScrollAnimations_listeners _)).
  rewrite (handlers_on_listeners _ _ _ _ (addStaggerDelay_listeners _)).
  rewrite checkReducedMotion_handlers.
  destruct t as [| | | |m]; [| | | |now destruct (Ht m)];
    rewrite ?app_nil_r, <- ?app_assoc; reflexivity.
Qed.

Lemma no_init_add t ty h o s :
  h <> HInit -> no_init_pending s -> no_init_pending (addEventListener t ty h o s).
Proof.
  intros Hh H. unfold no_init_pending, addEventListener. simpl.
  apply Forall_app. split; [exact H|].
  constructor; [intros Heq; contradiction | constructor].
Qed.

Lemma no_init_listeners s s' :
  listeners s' = listeners s -> no_init_pending s -> no_init_pending s'.
Proof. unfold no_init_pending. now intros ->. Qed.

Lemma no_init_set_resizeTimer x s :
  no_init_pending s -> no_init_pending (set_resizeTimer x s).
Proof. exact (fun H => H). Qed.

Lemma no_init_setVhProperty s :
  no_init_pending s -> no_init_pending (setVhProperty s).
Proof. exact (fun H => H). Qed.

(** Past the readiness test, [init] registers nothing that runs it again. *)
Lemma init_ready_no_init s : no_init_pending s -> no_init_pending (init_ready s).
Proof.
  intros H. unfold init_ready.
  apply no_init_add; [discriminate|]. apply no_init_add; [discriminate|].
  apply no_init_set_resizeTimer.
  assert (Hfront : no_init_pending
            (setVhProperty (enhanceKeyboardNavigation (secureExternalLinks
               (initGifPreloading (optimizeImageLoading (initSmoothScroll
                  (initScrollAnimations (addStaggerDelay (checkReducedMotion s)))))))))).
  { apply no_init_setVhProperty. unfold enhanceKeyboardNavigation.
    apply no_init_add; [discriminate|]. apply no_init_add; [discriminate|].
    apply (no_init_listeners _ _ (secureExternalLinks_listeners _)).
    unfold initGifPreloading. apply forEach_inv.
    { intros n k s' Hs'. destruct (querySelectorWithin n _ s'); [|exact Hs'].
      now apply no_init_add. }
    unfold optimizeImageLoading. apply forEach_inv.
    { intros n k s' Hs'. destruct (elems s' !! n) as [e|]; [|exact Hs'].
      destruct (complete e); [exact Hs'|].
      apply no_init_add; [discriminate|]. now apply no_init_add. }
    unfold initSmoothScroll. apply forEach_inv.
    { intros n k s' Hs'. now apply no_init_add. }
    apply (no_init_listeners _ _ (initScrollAnimations_listeners _)).
    apply (no_init_listeners _ _ (addStaggerDelay_listeners _)).
    unfold checkReducedMotion. apply no_init_add; [discriminate|].
    destruct (reducedMotion s); [|exact H].
    eapply no_init_listeners; [|exact H]. now rewrite (forEach_frame listeners). }
  destruct (is_dev_host _); [|exact Hfront].
  unfold logPerformance. destruct (hasPerformance _); [|exact Hfront].
  apply no_init_add; [discriminate | exact Hfront].
Qed.

(** ** Listeners that stay *)

Lemma pruned_refl s : pruned s s.
Proof.
  exists (fun _ => true). split; [reflexivity|].
  induction (listeners s) as [|l ls IH]; simpl; congruence.
Qed.

Lemma filter_filter_and {A : Type} (f g : A -> bool) (l : list A) :
  List.filter g (List.filter f l) = List.filter (fun x => f x && g x) l.
Proof.
  induction l as [|x l IH]; simpl; [reflexivity|].
  destruct (f x); simpl; [destruct (g x)|]; now rewrite IH.
Qed.

Lemma pruned_trans s1 s2 s3 : pruned s1 s2 -> pruned s2 s3 -> pruned s1 s3.
Proof.
  intros (f & Hf & E1) (g & Hg & E2). exists (fun l => f l && g l). split.
  - intros l Hl. now rewrite Hf, Hg.
  - now rewrite E2, E1, filter_filter_and.
Qed.

Lemma pruned_listeners s s' s'' :
  listeners s'' = listeners s' -> pruned s s' -> pruned s s''.
Proof. intros E (f & Hf & E1). exists f. split; [exact Hf | congruence]. Qed.

Lemma pruned_no_init s s' : pruned s s' -> no_init_pending s -> no_init_pending s'.
Proof.
  intros (f & _ & E) H. unfold no_init_pending in *. rewrite E.
  apply Forall_forall. intros l Hl. rewrite Forall_forall in H. apply H.
  apply list_elem_of_In, List.filter_In in Hl as [Hl _]. now apply list_elem_of_In.
Qed.

(** A target whose only listener for an event is persistent keeps it. *)
Lemma pruned_handlers_on s s' t ty h :
  pruned s s' ->
  handlers_on t ty s = [(h, false)] -> handlers_on t ty s' = [(h, false)].
Proof.
  intros (f & Hf & E) H. unfold handlers_on, listeners_on in *. rewrite E.
  rewrite filter_filter_and.
  rewrite (List.filter_ext (fun x => f x && listens t ty x)
             (fun x => listens t ty x && f x)) by (intros; apply andb_comm).
  rewrite <- filter_filter_and.
  destruct (List.filter (listens t ty) (listeners s)) as [|l [|l' ls]]; try discriminate.
  simpl in H. injection H as Hh Ho. simpl. rewrite (Hf l Ho). simpl. congruence.
Qed.

Lemma run_handler_listeners h t e s :
  h <> HInit -> listeners (fst (run_handler h t e s)) = listeners s.
Proof.
  intros Hh. destruct h; try contradiction; simpl; try reflexivity.
  - destruct t; try reflexivity. rewrite anchor_click_unfold; cbv zeta.
    destruct (bool_decide _ || bool_decide _); [reflexivity|].
    now destruct (querySelector_str _ s) as [|[x|]].
  - now destruct t.
  - now destruct t.
  - unfold link_mouseenter. destruct (elems s !! animatedImage) as [x|]; [|reflexivity].
    now destruct (negb (complete x)).
  - unfold motion_change. now destruct (reducedMotion s).
  - unfold body_keydown. now destruct (String.eqb _ _).
  - unfold window_resize, clearTimeout. now destruct (resizeTimer s).
Qed.

Lemma remove_pruned l s : l_once l = true -> pruned s (remove_listener l s).
Proof.
  intros Hl. exists (fun l' => negb (bool_decide (l' = l))). split; [|reflexivity].
  intros l' Hl'. apply negb_true_iff, bool_decide_eq_false_2. congruence.
Qed.

Lemma run_handler_readyState h t e s :
  h <> HInit -> readyState (fst (run_handler h t e s)) = readyState s.
Proof.
  intros Hh. destruct h; try contradiction; simpl; try reflexivity.
  - destruct t; try reflexivity. rewrite anchor_click_unfold; cbv zeta.
    destruct (bool_decide _ || bool_decide _); [reflexivity|].
    now destruct (querySelector_str _ s) as [|[x|]].
  - now destruct t.
  - now destruct t.
  - unfold link_mouseenter. destruct (elems s !! animatedImage) as [x|]; [|reflexivity].
    now destruct (negb (complete x)).
  - unfold motion_change. now destruct (reducedMotion s).
  - unfold body_keydown. now destruct (String.eqb _ _).
  - unfold window_resize, clearTimeout. now destruct (resizeTimer s).
Qed.

(** On a page with nothing but the deferred listener to run [init], the
    listeners of any other event are not [init]. *)
Lemma listeners_on_no_init t ty s :
  no_init_pending s -> t <> TDocument \/ ty <> "DOMContentLoaded" ->
  Forall (fun l => l_handler l <> HInit) (listeners_on t ty s).
Proof.
  intros Hni Ht. apply Forall_forall. intros l Hl.
  apply list_elem_of_In, List.filter_In in Hl as [Hl Hm].
  unfold no_init_pending in Hni. rewrite Forall_forall in Hni.
  intros Hh. destruct (Hni l (proj2 (list_elem_of_In _ _) Hl) Hh) as [E1 E2].
  unfold listens in Hm. apply andb_prop in Hm as [Hm1 Hm2].
  apply bool_decide_eq_true in Hm1. apply String.eqb_eq in Hm2.
  destruct Ht as [Ht | Ht]; congruence.
Qed.

Lemma dispatch_pruned t e s :
  Forall (fun l => l_handler l <> HInit) (listeners_on t (ev_type e) s) ->
  pruned s (fst (dispatch t e s)) /\
  readyState (fst (dispatch t e s)) = readyState s.
Proof.
  unfold dispatch. generalize (listeners_on t (ev_type e) s) as ls.
  assert (Hgen : forall ls se,
            Forall (fun l => l_handler l <> HInit) ls ->
            pruned s (fst se) /\ readyState (fst se) = readyState s ->
            pruned s (fst (fold_left (invoke t) ls se)) /\
            readyState (fst (fold_left (invoke t) ls se)) = readyState s).
  { induction ls as [|l ls IH]; intros [s' e'] Hls Hs'; simpl; [exact Hs'|].
    apply Forall_cons in Hls as [Hl Hls]. apply IH; [exact Hls|].
    destruct Hs' as [Hp Hr]. simpl in Hp, Hr.
    destruct (registered l s'); [|now split].
    split.
    - eapply pruned_listeners; [apply run_handler_listeners, Hl|].
      destruct (l_once l) eqn:Ho; [|exact Hp].
      eapply pruned_trans; [exact Hp | now apply remove_pruned].
    - rewrite run_handler_readyState by exact Hl. now destruct (l_once l). }
  intros ls Hls. apply Hgen; [exact Hls|]. split; [apply pruned_refl | reflexivity].
Qed.

Lemma run_timers_listeners due s : listeners (run_timers due s) = listeners s.
Proof.
  revert s. induction due as [|t due IH]; intros s; simpl; [reflexivity|].
  rewrite IH. now destruct (t_cb t).
Qed.

Lemma run_timers_readyState due s : readyState (run_timers due s) = readyState s.
Proof.
  revert s. induction due as [|t due IH]; intros s; simpl; [reflexivity|].
  rewrite IH. now destruct (t_cb t).
Qed.

Lemma step_pruned s i :
  no_init_pending s -> parsed s -> pruned s (step s i) /\ parsed (step s i).
Proof.
  intros H Hp.
  assert (Hd : forall t e s',
            listeners s' = listeners s -> parsed s' ->
            t <> TDocument \/ ev_type e <> "DOMContentLoaded" ->
            pruned s (fst (dispatch t e s')) /\ parsed (fst (dispatch t e s'))).
  { intros t e s' Hl Hp' Ht.
    destruct (dispatch_pruned t e s') as [H1 H2].
    - apply listeners_on_no_init; [|exact Ht]. now apply (no_init_listeners s).
    - split; [|unfold parsed; now rewrite H2].
      eapply pruned_trans; [|exact H1].
      eapply pruned_listeners; [exact Hl | apply pruned_refl]. }
  destruct i; simpl;
    try (apply Hd; [reflexivity | exact Hp | left; discriminate]).
  - unfold parsed in Hp. rewrite Hp. split; [apply pruned_refl | exact Hp].
  - apply Hd; [reflexivity | reflexivity | left; discriminate].
  - destruct (observed s); [|split; [apply pruned_refl | exact Hp]].
    split.
    + eapply pruned_listeners; [|apply pruned_refl].
      unfold observer_callback. apply (forEach_frame listeners).
      intros [n b] k s'. simpl. destruct b; [|reflexivity].
      unfold unobserve. now destruct (observed (reveal n s')).
    + unfold parsed, observer_callback. rewrite (forEach_frame readyState); [exact Hp|].
      intros [n b] k s'. simpl. destruct b; [|reflexivity].
      unfold unobserve. now destruct (observed (reveal n s')).
  - split.
    + eapply pruned_listeners; [|apply pruned_refl].
      unfold advance. simpl. now rewrite run_timers_listeners.
    + unfold parsed, advance. simpl. now rewrite run_timers_readyState.
  - destruct (registrations s);
      (split; [eapply pruned_listeners; [|apply pruned_refl]; reflexivity | exact Hp]).
Qed.

Lemma run_pruned s ins :
  no_init_pending s -> parsed s ->
  pruned s (run s ins) /\ parsed (run s ins) /\ no_init_pending (run s ins).
Proof.
  revert s. induction ins as [|i ins IH]; intros s H Hp.
  - split; [apply pruned_refl | now split].
  - change (run s (i :: ins)) with (run (step s i) ins).
    destruct (step_pruned s i H Hp) as [Hs Hp'].
    destruct (IH (step s i) (pruned_no_init _ _ Hs H) Hp') as (H1 & H2 & H3).
    split; [|now split]. eapply pruned_trans; [exact Hs | exact H1].
Qed.

(** ** The page after [init] *)

(** What the body of [init] leaves alone, given what its primitives do. *)
Lemma init_ready_frame {B : Type} (proj : state -> B) :
  (forall n f s, proj (upd_elem n f s) = proj s) ->
  (forall t ty h o s, proj (addEventListener t ty h o s) = proj s) ->
  (forall x s, proj (set_bodyClasses x s) = proj s) ->
  (forall x s, proj (set_observed x s) = proj s) ->
  (forall s, proj (setVhProperty s) = proj s) ->
  (forall x s, proj (set_resizeTimer x s) = proj s) ->
  forall s, proj (init_ready s) = proj s.
Proof.
  intros Hupd Hadd Hbody Hobs Hvh Hrt s.
  assert (H1 : proj (checkReducedMotion s) = proj s).
  { unfold checkReducedMotion. rewrite Hadd. destruct (reducedMotion s); [|reflexivity].
    rewrite (forEach_frame proj); [apply Hbody|]. intros n k s'. apply Hupd. }
  assert (H2 : forall x, proj (addStaggerDelay x) = proj x).
  { intros x. unfold addStaggerDelay. apply (forEach_frame proj).
    intros n k s'. apply Hupd. }
  assert (H3 : forall x, proj (initScrollAnimations x) = proj x).
  { intros x. unfold initScrollAnimations. destruct (negb (hasIntersectionObserver x)).
    - apply (forEach_frame proj). intros n k s'. apply Hupd.
    - rewrite (forEach_frame proj); [apply Hobs|].
      intros n k s'. unfold observe. destruct (observed s'); [apply Hobs | reflexivity]. }
  assert (H4 : forall x, proj (initSmoothScroll x) = proj x).
  { intros x. unfold initSmoothScroll. apply (forEach_frame proj).
    intros n k s'. apply Hadd. }
  assert (H5 : forall x, proj (optimizeImageLoading x) = proj x).
  { intros x. unfold optimizeImageLoading. apply (forEach_frame proj).
    intros n k s'. destruct (elems s' !! n) as [e|]; [|reflexivity].
    destruct (complete e); [apply Hupd | now rewrite !Hadd]. }
  assert (H6 : forall x, proj (initGifPreloading x) = proj x).
  { intros x. unfold initGifPreloading. apply (forEach_frame proj).
    intros n k s'. destruct (querySelectorWithin n _ s'); [apply Hadd | reflexivity]. }
  assert (H7 : forall x, proj (secureExternalLinks x) = proj x).
  { intros x. unfold secureExternalLinks. apply (forEach_frame proj).
    intros n k s'. apply Hupd. }
  assert (H8 : forall x, proj (if is_dev_host (hostname x) then logPerformance x else x) =
                         proj x).
  { intros x. destruct (is_dev_host _); [|reflexivity].
    unfold logPerformance. destruct (hasPerformance x); [apply Hadd | reflexivity]. }
  unfold init_ready, enhanceKeyboardNavigation.
  rewrite !Hadd, Hrt, H8, Hvh, !Hadd, H7, H6, H5, H4, H3, H2. exact H1.
Qed.

Lemma init_ready_timers s : timers (init_ready s) = timers s.
Proof. now apply (init_ready_frame timers). Qed.

Lemma init_ready_parsed s : parsed s -> parsed (init_ready s).
Proof.
  unfold parsed. now rewrite (init_ready_frame readyState).
Qed.

Lemma init_ready_window s :
  handlers_on TWindow "resize" s = [] ->
  handlers_on TWindow "orientationchange" s = [] ->
  handlers_on TWindow "resize" (init_ready s) = [(HResize, false)] /\
  handlers_on TWindow "orientationchange" (init_ready s) = [(HOrientationChange, false)].
Proof.
  intros H1 H2.
  rewrite !init_ready_handlers by (try discriminate). now rewrite H1, H2.
Qed.

Lemma init_ready_media s :
  handlers_on TMedia "change" s = [] ->
  handlers_on TMedia "change" (init_ready s) = [(HMotionChange, false)].
Proof.
  intros H. rewrite init_ready_handlers; [|discriminate|discriminate]. now rewrite H.
Qed.

(** The state in which the body of [init] runs, for a script started on a
    page with no listeners yet. *)
Lemma entry_facts s :
  listeners s = [] ->
  elems (entry s) = elems s /\
  reducedMotion (entry s) = reducedMotion s /\
  observed (entry s) = observed s /\
  parsed (entry s) /\
  no_init_pending (entry s) /\
  forall t ty, t <> TDocument -> handlers_on t ty (entry s) = [].
Proof.
  intros Hfresh. unfold entry.
  destruct (String.eqb (readyState s) "loading") eqn:Hl.
  - repeat split.
    + unfold no_init_pending. simpl. rewrite Hfresh. simpl.
      constructor; [intros _; split; reflexivity | constructor].
    + intros t ty Ht.
      rewrite (handlers_on_listeners t ty
                 (addEventListener TDocument "DOMContentLoaded" HInit false s))
        by reflexivity.
      rewrite handlers_on_add, (handlers_on_fresh _ _ _ Hfresh).
      now rewrite (bool_decide_eq_false_2 (TDocument = t)) by congruence.
  - repeat split; try exact Hl.
    + unfold no_init_pending. rewrite Hfresh. constructor.
    + intros t ty _. now apply handlers_on_fresh.
Qed.

(** Whether the script starts before or after the document is parsed, the
    body of [init] runs once, on [entry]. *)
Lemma page_ready_eq s :
  listeners s = [] -> page_ready s = init_ready (entry s).
Proof.
  intros Hfresh. unfold page_ready, entry.
  destruct (String.eqb (readyState s) "loading") eqn:Hl.
  - unfold init. rewrite Hl. unfold step.
    assert (Hr : String.eqb
                   (readyState (addEventListener TDocument "DOMContentLoaded" HInit false s))
                   "loading" = true) by exact Hl.
    rewrite Hr.
    assert (Hw : handlers_on TDocument (ev_type (mk_event "DOMContentLoaded"))
                   (set_readyState "interactive"
                      (addEventListener TDocument "DOMContentLoaded" HInit false s)) =
                 [(HInit, false)]).
    { rewrite (handlers_on_listeners _ _
                 (addEventListener TDocument "DOMContentLoaded" HInit false s))
        by reflexivity.
      now rewrite handlers_on_add, (handlers_on_fresh _ _ _ Hfresh). }
    destruct (dispatch_single _ _ _ _ _ Hw) as (id & _ & ->).
    reflexivity.
  - unfold init. now rewrite Hl.
Qed.

Lemma page_ready_settled s :
  listeners s = [] ->
  no_init_pending (page_ready s) /\ parsed (page_ready s) /\
  handlers_on TMedia "change" (page_ready s) = [(HMotionChange, false)] /\
  handlers_on TWindow "resize" (page_ready s) = [(HResize, false)] /\
  handlers_on TWindow "orientationchange" (page_ready s) = [(HOrientationChange, false)] /\
  timers (page_ready s) = timers s.
Proof.
  intros Hfresh. rewrite (page_ready_eq s Hfresh).
  destruct (entry_facts s Hfresh) as (_ & _ & _ & Hp & Hni & Hh).
  split; [now apply init_ready_no_init|].
  split; [now apply init_ready_parsed|].
  split; [apply init_ready_media, Hh; discriminate|].
  destruct (init_ready_window (entry s)) as [H1 H2]; try (apply Hh; discriminate).
  split; [exact H1|]. split; [exact H2|].
  rewrite init_ready_timers. unfold entry. now destruct (String.eqb _ _).
Qed.

(** ** Reduced motion *)

Lemma checkReducedMotion_reveals s n e :
  reducedMotion s = true ->
  elems s !! n = Some e ->
  elems (checkReducedMotion s) !! n =
    Some (if hasAttribute "data-animate" e then add_class "animate-in" e else e).
Proof.
  intros Hrm He. unfold checkReducedMotion. rewrite Hrm.
  exact (forEach_upd_selected (SelAttr "data-animate") (add_class "animate-in")
           (set_bodyClasses (class_add "reduce-motion" (bodyClasses s)) s) n e He).
Qed.

Lemma checkReducedMotion_observed s :
  observed (checkReducedMotion s) = observed s.
Proof.
  unfold checkReducedMotion. destruct (reducedMotion s); [|reflexivity].
  simpl. now rewrite (forEach_frame observed).
Qed.

Lemma motion_change_step s b :
  handlers_on TMedia "change" s = [(HMotionChange, false)] ->
  step s (MotionPreference b) =
  set_bodyClasses (toggle_reduce_motion b (bodyClasses s)) (set_reducedMotion b s).
Proof.
  intros H. unfold step.
  destruct (dispatch_single TMedia (mk_event "change") (set_reducedMotion b s)
              HMotionChange false H) as (id & _ & ->).
  simpl. unfold motion_change. simpl. now destruct b.
Qed.

(** C4: the body of [init] starts with [checkReducedMotion]; when the
    reduced-motion preference is active at startup, every element with
    [data-animate] carries [animate-in] as soon as that call returns, which is
    before the observer is created, and still does when [init] returns; every
    later change of the preference, after any inputs, only sets the preference
    flag and adds or removes [reduce-motion] on the body: the elements are not
    touched again. *)
Theorem reduced_motion_at_startup s :
  listeners s = [] ->
  page_ready s = init_rest (addStaggerDelay (checkReducedMotion (entry s))) /\
  (reducedMotion s = true ->
   forall n e, elems s !! n = Some e -> hasAttribute "data-animate" e = true ->
     (exists e1, elems (checkReducedMotion (entry s)) !! n = Some e1 /\
                 "animate-in" ∈ classList e1) /\
     observed (checkReducedMotion (entry s)) = observed s /\
     (exists e', elems (page_ready s) !! n = Some e' /\ "animate-in" ∈ classList e')) /\
  (forall ins b,
     step (run (page_ready s) ins) (MotionPreference b) =
     set_bodyClasses (toggle_reduce_motion b (bodyClasses (run (page_ready s) ins)))
       (set_reducedMotion b (run (page_ready s) ins))).
Proof.
  intros Hfresh.
  pose proof (page_ready_eq s Hfresh) as Hinit.
  destruct (entry_facts s Hfresh) as (Hel & Hrm' & Hob & _).
  split; [exact Hinit|]. split.
  - intros Hrm n e He Ha.
    rewrite <- Hel in He. rewrite <- Hrm' in Hrm.
    pose proof (checkReducedMotion_reveals (entry s) n e Hrm He) as H1.
    rewrite Ha in H1.
    assert (Hin : "animate-in" ∈ classList (add_class "animate-in" e))
      by apply class_add_in.
    split; [eauto|]. split; [rewrite checkReducedMotion_observed; exact Hob|].
    rewrite Hinit.
    change (init_ready (entry s))
      with (init_rest (addStaggerDelay (checkReducedMotion (entry s)))).
    assert (Hrel : elems_rel classes_grow (checkReducedMotion (entry s))
                     (init_rest (addStaggerDelay (checkReducedMotion (entry s))))).
    { assert (Hadd : forall c, keeps classes_grow (add_class c)).
      { intros c x y Hxy c' Hc'. simpl. apply class_add_keeps. auto. }
      apply init_rest_rel; auto.
      - intros x y Hxy. unfold secure_link. now destruct (_ || _).
      - apply addStaggerDelay_rel; [intros d x y Hxy; exact Hxy|].
        apply elems_rel_refl. intros x c Hc. exact Hc. }
    destruct (elems_rel_lookup _ _ _ n _ Hrel H1) as (e' & He' & Hgrow).
    exists e'. split; [exact He' | apply Hgrow, Hin].
  - intros ins b.
    destruct (page_ready_settled s Hfresh) as (Hni & Hp & Hm & _).
    apply motion_change_step.
    apply (pruned_handlers_on (page_ready s)); [|exact Hm].
    exact (proj1 (run_pruned (page_ready s) ins Hni Hp)).
Qed.

Lemma reduced_motion_at_startup_witness :
  (exists e', elems (page_ready (Sample.page true)) !! 4 = Some e' /\
              "animate-in" ∈ classList e') /\
  step (run (page_ready (Sample.page true)) [Click 1; MouseEnter 6])
       (MotionPreference false) =
    set_bodyClasses
      (toggle_reduce_motion false
         (bodyClasses (run (page_ready (Sample.page true)) [Click 1; MouseEnter 6])))
      (set_reducedMotion false (run (page_ready (Sample.page true)) [Click 1; MouseEnter 6])).
Proof.
  destruct (reduced_motion_at_startup (Sample.page true) eq_refl) as (_ & H1 & H2).
  split.
  - apply (H1 eq_refl 4 Sample.work_section); vm_compute; reflexivity.
  - apply H2.
Defined.

Example deferred_init_reveals :
  classList <$> elems (page_ready Sample.early_page) !! 4 = Some ["animate-in"] /\
  classList <$> elems (init Sample.early_page) !! 4 = Some [].
Proof. vm_compute. split; reflexivity. Qed.

(** ** Stagger delays *)

Lemma has_class_add_ne c c' cs :
  c <> c' -> has_class c (class_add c' cs) = has_class c cs.
Proof.
  intros Hne. unfold class_add. destruct (has_class c' cs); [reflexivity|].
  unfold has_class. apply bool_decide_ext.
  rewrite elem_of_app, list_elem_of_singleton. intuition.
Qed.












(** C9, as the spec states it: it fails at the fourth card, whose delay
    [3 * 0.1] is the double [0.30000000000000004] and not [0.3]. *)
Lemma fourth_card_delay_is_not_three_tenths : ~ delays_exact_tenths.
Proof.
  intros H. destruct (H gallery 3 3 eq_refl) as (e' & d & He' & Hd & Hv).
  vm_compute in He'. injection He' as <-. vm_compute in Hd. injection Hd as <-.
  destruct Hv as [Hv | (q & Hq & Hv)].
  - vm_compute in Hv. discriminate Hv.
  - vm_compute in Hq. injection Hq as <-. vm_compute in Hv. discriminate Hv.
Qed.

(** ** Timers: resize and orientation change *)

Lemma run_app s xs ys : run s (xs ++ ys) = run (run s xs) ys.
Proof. unfold run. apply fold_left_app. Qed.

Lemma run_timers_frame due s :
  timers (run_timers due s) = timers s /\
  innerHeight (run_timers due s) = innerHeight s /\
  resizeTimer (run_timers due s) = resizeTimer s /\
  listeners (run_timers due s) = listeners s.
Proof.
  revert s. induction due as [|t due IH]; intros s; simpl; [auto|].
  destruct (IH (run_timer (t_cb t) (set_now (max (now s) (t_due t)) s)))
    as (H1 & H2 & H3 & H4).
  rewrite H1, H2, H3, H4. now destruct (t_cb t).
Qed.

(** Timeouts that run in order of their due time each write the viewport
    unit at their due time. *)
Lemma run_timers_writes due s :
  due_sorted due ->
  Forall (fun t => now s <= t_due t) due ->
  vhWrites (run_timers due s) =
    vhWrites s ++ map (fun t => (t_due t, vh_of (innerHeight s))) due /\
  vh (run_timers due s) =
    match due with [] => vh s | _ => Some (vh_of (innerHeight s)) end.
Proof.
  revert s. induction due as [|t due IH]; intros s Hs Hnow; simpl.
  - split; [now rewrite app_nil_r | reflexivity].
  - apply StronglySorted_inv in Hs as [Hs Hle].
    apply Forall_cons in Hnow as [Ht _].
    destruct (IH (run_timer (t_cb t) (set_now (max (now s) (t_due t)) s)))
      as [Hw Hv]; [exact Hs| |].
    + assert (E : now (run_timer (t_cb t) (set_now (max (now s) (t_due t)) s)) =
                  max (now s) (t_due t)) by now destruct (t_cb t).
      rewrite E. eapply Forall_impl; [exact Hle|]. simpl. intros u Hu. lia.
    + rewrite Hw, Hv.
      assert (E : max (now s) (t_due t) = t_due t) by lia.
      destruct (t_cb t); simpl; rewrite E, <- app_assoc; simpl;
        (split; [reflexivity|]); now destruct due.
Qed.

Lemma handlers_on_window_resize ty s :
  handlers_on TWindow ty (window_resize s) = handlers_on TWindow ty s.
Proof.
  apply handlers_on_listeners. unfold window_resize, clearTimeout.
  now destruct (resizeTimer s).
Qed.

(** A resize event cancels the pending recomputation, if any, and arms a
    new one 100 ms ahead. *)
Lemma resize_arms s h :
  handlers_on TWindow "resize" s = [(HResize, false)] ->
  (timers s = [] \/
   exists id due cb, timers s = [Timer id due cb] /\ resizeTimer s = Some id) ->
  resize_pending (step s (Resize h)) (now s) h /\
  vhWrites (step s (Resize h)) = vhWrites s.
Proof.
  intros Hw Hq. unfold step.
  destruct (dispatch_single TWindow (mk_event "resize") (set_innerHeight h s)
              HResize false Hw) as (id0 & _ & ->).
  simpl. unfold resize_pending.
  rewrite handlers_on_window_resize.
  assert (Hclear : timers (clearTimeout (resizeTimer s) (set_innerHeight h s)) = []).
  { destruct Hq as [Hq | (id & due & cb & Hq & Hr)].
    - unfold clearTimeout. destruct (resizeTimer s); simpl; now rewrite Hq.
    - rewrite Hr. simpl. rewrite Hq. simpl. now rewrite Nat.eqb_refl. }
  assert (Hframe : now (clearTimeout (resizeTimer s) (set_innerHeight h s)) = now s /\
                   innerHeight (clearTimeout (resizeTimer s) (set_innerHeight h s)) = h /\
                   vhWrites (clearTimeout (resizeTimer s) (set_innerHeight h s)) = vhWrites s)
    by (unfold clearTimeout; now destruct (resizeTimer s)).
  destruct Hframe as (Hn & Hh & Hv).
  unfold window_resize. simpl. rewrite Hclear, Hn, Hh, Hv. simpl.
  repeat split; try reflexivity; try exact Hw. eauto.
Qed.

Lemma advance_keeps_pending s t h g :
  resize_pending s t h -> g < 100 ->
  handlers_on TWindow "resize" (step s (Advance g)) = [(HResize, false)] /\
  (exists id due cb, timers (step s (Advance g)) = [Timer id due cb] /\
                     resizeTimer (step s (Advance g)) = Some id) /\
  now (step s (Advance g)) = t + g /\
  vhWrites (step s (Advance g)) = vhWrites s.
Proof.
  intros (Hw & (id & Hq & Hr) & Hn & Hh) Hg. simpl. unfold advance.
  rewrite Hq, Hn. simpl. unfold is_due. simpl.
  assert (E : (t + 100 <=? t + g) = false) by (apply Nat.leb_gt; lia).
  rewrite E. simpl. repeat split; try assumption. eauto.
Qed.

Lemma resize_events_run rest :
  forall s h0,
    handlers_on TWindow "resize" s = [(HResize, false)] ->
    (timers s = [] \/
     exists id due cb, timers s = [Timer id due cb] /\ resizeTimer s = Some id) ->
    Forall (fun gh => fst gh < 100) rest ->
    resize_pending (run s (resize_events h0 rest)) (now s + span rest)
      (final_height h0 rest) /\
    vhWrites (run s (resize_events h0 rest)) = vhWrites s.
Proof.
  induction rest as [|[g h] rest IH]; intros s h0 Hw Hq Hgaps.
  - simpl. rewrite Nat.add_0_r. now apply resize_arms.
  - apply Forall_cons in Hgaps as [Hg Hgaps]. simpl in Hg.
    destruct (resize_arms s h0 Hw Hq) as [Hp Hv].
    destruct (advance_keeps_pending _ _ _ g Hp Hg) as (Hw' & Hq' & Hn' & Hv').
    assert (Hrun : run s (resize_events h0 ((g, h) :: rest)) =
                   run (step (step s (Resize h0)) (Advance g)) (resize_events h rest))
      by reflexivity.
    rewrite Hrun. simpl span. simpl final_height.
    destruct (IH (step (step s (Resize h0)) (Advance g)) h Hw' (or_intror Hq') Hgaps)
      as [Hp'' Hv''].
    rewrite Hn' in Hp''. rewrite Nat.add_assoc. split; [exact Hp''|].
    rewrite Hv''. congruence.
Qed.

(** The pending recomputation runs once the 100 ms have passed. *)
Lemma resize_fires s t h d :
  resize_pending s t h -> 100 <= d ->
  vhWrites (step s (Advance d)) = vhWrites s ++ [(t + 100, vh_of h)] /\
  timers (step s (Advance d)) = [] /\
  vh (step s (Advance d)) = Some (vh_of h).
Proof.
  intros (Hw & (id & Hq & Hr) & Hn & Hh) Hd. simpl. unfold advance.
  rewrite Hq, Hn. simpl. unfold is_due. simpl.
  assert (E : (t + 100 <=? t + d) = true) by (apply Nat.leb_le; lia).
  rewrite E. simpl. rewrite Hn, Hh.
  replace (max t (t + 100)) with (t + 100) by lia. auto.
Qed.

Lemma insert_timer_last t q :
  Forall (fun u => t_due u <= t_due t) q -> insert_timer t q = q ++ [t].
Proof.
  induction 1 as [|u q Hu _ IH]; simpl; [reflexivity|].
  assert (E : (t_due t <? t_due u) = false) by (apply Nat.ltb_ge; lia).
  now rewrite E, IH.
Qed.

Lemma due_sorted_snoc q t :
  due_sorted q -> Forall (fun u => t_due u <= t_due t) q -> due_sorted (q ++ [t]).
Proof.
  unfold due_sorted. induction 1 as [|u q Hq IH Hu]; intros Hle; simpl.
  - repeat constructor.
  - apply Forall_cons in Hle as [Hut Hle]. constructor; [now apply IH|].
    apply Forall_app. split; [exact Hu | now constructor].
Qed.

Lemma due_sorted_filter f q : due_sorted q -> due_sorted (List.filter f q).
Proof.
  unfold due_sorted. induction 1 as [|u q Hq IH Hu]; simpl; [constructor|].
  destruct (f u); [|exact IH]. constructor; [exact IH|].
  apply Forall_forall. intros x Hx.
  apply list_elem_of_In, List.filter_In in Hx as [Hx _].
  rewrite Forall_forall in Hu. now apply Hu, list_elem_of_In.
Qed.

Lemma filter_all {A : Type} (f : A -> bool) (l : list A) :
  Forall (fun x => f x = true) l ->
  List.filter f l = l /\ List.filter (fun x => negb (f x)) l = [].
Proof.
  induction 1 as [|x l Hx _ [IH1 IH2]]; simpl; [auto|].
  now rewrite Hx, IH1, IH2.
Qed.

Lemma filter_none {A : Type} (f : A -> bool) (l : list A) :
  Forall (fun x => f x = false) l ->
  List.filter f l = [] /\ List.filter (fun x => negb (f x)) l = l.
Proof.
  induction 1 as [|x l Hx _ [IH1 IH2]]; simpl; [auto|].
  now rewrite Hx, IH1, IH2.
Qed.

(** In a queue ordered by due time the due timers are a prefix. *)
Lemma due_split until q :
  due_sorted q ->
  List.filter (is_due until) q ++ List.filter (fun t => negb (is_due until t)) q = q.
Proof.
  unfold due_sorted. induction 1 as [|u q Hq IH Hu]; simpl; [reflexivity|].
  destruct (is_due until u) eqn:Hd; simpl; [now rewrite IH|].
  destruct (filter_none (is_due until) q) as [E1 E2].
  - eapply Forall_impl; [exact Hu|]. unfold is_due in *. simpl. intros x Hx.
    apply Nat.leb_gt in Hd. apply Nat.leb_gt. lia.
  - now rewrite E1, E2.
Qed.

Lemma advance_fields d s :
  timers (advance d s) = List.filter (fun t => negb (is_due (now s + d) t)) (timers s) /\
  now (advance d s) = now s + d /\
  innerHeight (advance d s) = innerHeight s /\
  listeners (advance d s) = listeners s.
Proof.
  unfold advance.
  destruct (run_timers_frame (List.filter (is_due (now s + d)) (timers s))
              (set_timers (List.filter (fun t => negb (is_due (now s + d) t)) (timers s)) s))
    as (H1 & H2 & _ & H4).
  simpl. rewrite H1, H2, H4. auto.
Qed.

Lemma advance_writes d s :
  due_sorted (timers s) ->
  Forall (fun t => now s <= t_due t) (timers s) ->
  vhWrites (advance d s) =
    vhWrites s ++
    map (fun t => (t_due t, vh_of (innerHeight s)))
      (List.filter (is_due (now s + d)) (timers s)).
Proof.
  intros Hs Hn. unfold advance. simpl.
  destruct (run_timers_writes (List.filter (is_due (now s + d)) (timers s))
              (set_timers (List.filter (fun t => negb (is_due (now s + d) t)) (timers s)) s))
    as [Hw _].
  - now apply due_sorted_filter.
  - apply Forall_forall. intros x Hx.
    apply list_elem_of_In, List.filter_In in Hx as [Hx _].
    rewrite Forall_forall in Hn. now apply Hn, list_elem_of_In.
  - exact Hw.
Qed.

(** An orientation change queues its own recomputation behind the pending
    ones and cancels none. *)
Lemma orientation_queues s :
  handlers_on TWindow "orientationchange" s = [(HOrientationChange, false)] ->
  step s OrientationChange = window_orientationchange s /\
  timers (window_orientationchange s) =
    insert_timer (Timer (next_timer s) (now s + 100) CbSetVhProperty) (timers s).
Proof.
  intros Hw. unfold step.
  destruct (dispatch_single TWindow (mk_event "orientationchange") s
              HOrientationChange false Hw) as (id0 & _ & ->).
  split; reflexivity.
Qed.

Lemma orientation_step hgt W times s :
  orientation_inv hgt W times s ->
  orientation_inv hgt W (times ++ [now s]) (step s OrientationChange) /\
  now (step s OrientationChange) = now s.
Proof.
  intros (Hw & Hh & Hs & Hb & Heq).
  destruct (orientation_queues s Hw) as [-> Ht].
  assert (Hle : Forall (fun u => t_due u <= now s + 100) (timers s))
    by (eapply Forall_impl; [exact Hb|]; simpl; intros u Hu; lia).
  rewrite (insert_timer_last (Timer (next_timer s) (now s + 100) CbSetVhProperty)
             (timers s) Hle) in Ht.
  split; [|reflexivity]. unfold orientation_inv. rewrite Ht.
  repeat split; try assumption.
  - now apply due_sorted_snoc.
  - apply Forall_app. split; [exact Hb|]. constructor; [simpl; lia | constructor].
  - change (vhWrites (window_orientationchange s)) with (vhWrites s).
    rewrite !map_app, !app_assoc, Heq. reflexivity.
Qed.

Lemma orientation_advance hgt W times s d :
  orientation_inv hgt W times s ->
  orientation_inv hgt W times (step s (Advance d)) /\
  now (step s (Advance d)) = now s + d.
Proof.
  intros (Hw & Hh & Hs & Hb & Heq).
  change (step s (Advance d)) with (advance d s).
  destruct (advance_fields d s) as (Ht & Hn & Hi & Hl).
  split; [|exact Hn]. unfold orientation_inv.
  rewrite Ht, Hn, Hi, (handlers_on_listeners _ _ _ _ Hl).
  repeat split; try assumption.
  - now apply due_sorted_filter.
  - apply Forall_forall. intros x Hx.
    apply list_elem_of_In, List.filter_In in Hx as [Hx Hd].
    rewrite Forall_forall in Hb. apply list_elem_of_In, Hb in Hx.
    unfold is_due in Hd. apply negb_true_iff, Nat.leb_gt in Hd. lia.
  - rewrite advance_writes; [|exact Hs|].
    + rewrite Hh, <- app_assoc, <- map_app, due_split by exact Hs. exact Heq.
    + eapply Forall_impl; [exact Hb|]. simpl. intros u Hu. lia.
Qed.

Lemma orientation_events_run hgt W gaps :
  forall times s,
    orientation_inv hgt W times s ->
    orientation_inv hgt W (times ++ event_times (now s) gaps)
      (run s (orientation_events gaps)).
Proof.
  induction gaps as [|g gaps IH]; intros times s H.
  - simpl. now apply orientation_step.
  - assert (Hrun : run s (orientation_events (g :: gaps)) =
                   run (step (step s OrientationChange) (Advance g))
                     (orientation_events gaps)) by reflexivity.
    rewrite Hrun.
    destruct (orientation_step _ _ _ _ H) as (H1 & Hn1).
    destruct (orientation_advance _ _ _ _ g H1) as (H2 & Hn2).
    apply IH in H2. rewrite Hn2, Hn1 in H2.
    simpl. now rewrite <- app_assoc in H2.
Qed.

Lemma orientation_drains hgt W times s d :
  orientation_inv hgt W times s -> 100 <= d ->
  vhWrites (step s (Advance d)) = W ++ map (fun T => (T + 100, vh_of hgt)) times /\
  timers (step s (Advance d)) = [].
Proof.
  intros (Hw & Hh & Hs & Hb & Heq) Hd.
  change (step s (Advance d)) with (advance d s).
  destruct (advance_fields d s) as (Ht & _).
  destruct (filter_all (is_due (now s + d)) (timers s)) as [E1 E2].
  { eapply Forall_impl; [exact Hb|]. unfold is_due. simpl. intros u Hu.
    apply Nat.leb_le. lia. }
  split; [|now rewrite Ht, E2].
  rewrite advance_writes; [|exact Hs|].
  - now rewrite E1, Hh.
  - eapply Forall_impl; [exact Hb|]. simpl. intros u Hu. lia.
Qed.

(** C5: from a page with no timeout pending, a burst of resize events, each
    less than 100 ms after the one before, followed by 100 ms or more of
    quiet, runs [setVhProperty] exactly once, 100 ms after the last resize
    and with the height of that last resize; orientation changes, however
    close, each run their own recomputation 100 ms after the event, none
    being cancelled. *)
Theorem resize_debounced_orientation_not s :
  timers s = [] ->
  handlers_on TWindow "resize" s = [(HResize, false)] ->
  handlers_on TWindow "orientationchange" s = [(HOrientationChange, false)] ->
  (forall h0 rest d,
     Forall (fun gh => fst gh < 100) rest -> 100 <= d ->
     vhWrites (run s (resize_events h0 rest ++ [Advance d])) =
       vhWrites s ++ [(now s + span rest + 100, vh_of (final_height h0 rest))] /\
     timers (run s (resize_events h0 rest ++ [Advance d])) = [] /\
     vh (run s (resize_events h0 rest ++ [Advance d])) =
       Some (vh_of (final_height h0 rest))) /\
  (forall gaps d,
     100 <= d ->
     vhWrites (run s (orientation_events gaps ++ [Advance d])) =
       vhWrites s ++
       map (fun T => (T + 100, vh_of (innerHeight s))) (event_times (now s) gaps) /\
     timers (run s (orientation_events gaps ++ [Advance d])) = []) /\
  (forall s',
     handlers_on TWindow "orientationchange" s' = [(HOrientationChange, false)] ->
     timers (step s' OrientationChange) =
       insert_timer (Timer (next_timer s') (now s' + 100) CbSetVhProperty) (timers s')).
Proof.
  intros Hq Hr Ho. split; [|split].
  - intros h0 rest d Hgaps Hd. rewrite run_app.
    destruct (resize_events_run rest s h0 Hr (or_introl Hq) Hgaps) as [Hp Hv].
    destruct (resize_fires _ _ _ d Hp Hd) as (Hw & Ht & Hvh).
    change (run (run s (resize_events h0 rest)) [Advance d])
      with (step (run s (resize_events h0 rest)) (Advance d)).
    rewrite Hw, Ht, Hvh, Hv. auto.
  - intros gaps d Hd. rewrite run_app.
    assert (Hinv : orientation_inv (innerHeight s) (vhWrites s) [] s).
    { unfold orientation_inv. rewrite Hq. repeat split; try assumption; constructor. }
    apply (orientation_events_run _ _ gaps) in Hinv.
    apply (orientation_drains _ _ _ _ d Hinv Hd).
  - intros s' Hs'. destruct (orientation_queues s' Hs') as [-> Ht]. exact Ht.
Qed.

Lemma resize_debounced_orientation_not_witness :
  vhWrites (run Sample.loaded_page
              (resize_events 700 [(50, 600%Z); (99, 500%Z)] ++ [Advance 100])) =
    vhWrites Sample.loaded_page ++ [(0 + (50 + (99 + 0)) + 100, vh_of 500)] /\
  vhWrites (run Sample.loaded_page (orientation_events [50; 20] ++ [Advance 100])) =
    vhWrites Sample.loaded_page ++
    [(0 + 100, vh_of 800); (50 + 100, vh_of 800); (70 + 100, vh_of 800)].
Proof.
  destruct (resize_debounced_orientation_not Sample.loaded_page eq_refl eq_refl eq_refl)
    as (Hres & Hori & _).
  split.
  - apply (Hres 700%Z [(50, 600%Z); (99, 500%Z)] 100); [|lia].
    repeat constructor; simpl; lia.
  - apply (Hori [50; 20] 100). lia.
Defined.

(** * Further properties of the script *)

(** ** External links: what a run guarantees *)

Lemma indexOf_from_present (sub s : string) (i : Z) :
  JS.indexOf_from i s sub <> (-1)%Z -> JS.occurs_in sub s.
Proof.
  revert i. induction s as [|a r IH]; intros i; rewrite JSFacts.indexOf_from_eq.
  - destruct (String.prefix sub "") eqn:Hp; [intros _|congruence].
    now apply JSFacts.occurs_in_empty.
  - destruct (String.prefix sub (String a r)) eqn:Hp; intros H;
      apply JSFacts.occurs_in_cons; [now left | right; eapply IH, H].
Qed.

Lemma forEach_upd_selected_map sel f s :
  JS.forEach (fun m _ => upd_elem m f) (querySelectorAll sel s) s =
  set_elems ((fun e => if matches_sel sel e then f e else e) <$> elems s) s.
Proof.
  pose proof (forEach_upd_selected sel f s) as Hsel.
  unfold JS.forEach in *. rewrite (forEach_upd 0 (fun _ => f)) in *. simpl in Hsel.
  f_equal. apply list_eq. intros n. rewrite list_lookup_fmap.
  destruct (elems s !! n) as [e|] eqn:He.
  - now rewrite (Hsel n e He).
  - simpl. apply lookup_ge_None. rewrite alter_each_length.
    now apply lookup_ge_None.
Qed.

Lemma secureExternalLinks_map s :
  secureExternalLinks s = set_elems (harden <$> elems s) s.
Proof. apply forEach_upd_selected_map. Qed.

(** After [secure_link] the [rel] attribute is there and contains
    [noopener]. *)
Lemma secure_link_contains e :
  exists r, getAttribute "rel" (secure_link e) = Some r /\ JS.occurs_in "noopener" r.
Proof.
  unfold secure_link.
  destruct (negb (hasAttribute "rel" e) ||
            (JS.indexOf (default "" (getAttribute "rel" e)) "noopener" =? -1)%Z) eqn:Hc.
  - eexists. split; [apply getAttribute_setAttribute|].
    match goal with |- JS.occurs_in _ (?cur +:+ _) =>
      exists (cur +:+ " "), " noreferrer" end.
    now rewrite string_app_assoc.
  - apply orb_false_elim in Hc as [Hh Hi].
    apply negb_false_iff, bool_decide_eq_true in Hh. destruct Hh as [r Hr].
    unfold getAttribute in *. rewrite Hr in *. simpl in Hi.
    exists r. split; [reflexivity|].
    apply (indexOf_from_present _ _ 0). apply Z.eqb_neq in Hi. exact Hi.
Qed.

Lemma secure_link_frame e :
  tagName (secure_link e) = tagName e /\
  classList (secure_link e) = classList e /\
  parentNode (secure_link e) = parentNode e /\
  offsetTop (secure_link e) = offsetTop e /\
  offsetHeight (secure_link e) = offsetHeight e /\
  forall k, k <> "rel" -> getAttribute k (secure_link e) = getAttribute k e.
Proof.
  unfold secure_link. destruct (_ || _); repeat split; try reflexivity.
  intros k Hk. unfold getAttribute, setAttribute. simpl.
  apply lookup_insert_ne. congruence.
Qed.

Lemma secure_link_blank e :
  matches_sel blank_target (secure_link e) = matches_sel blank_target e.
Proof.
  destruct (secure_link_frame e) as (Ht & _ & _ & _ & _ & Ha).
  unfold blank_target. simpl. rewrite Ht, Ha by discriminate. reflexivity.
Qed.

Lemma secure_link_idem e : secure_link (secure_link e) = secure_link e.
Proof.
  destruct (secure_link_contains e) as (r & Hr & Ho).
  exact (secure_link_present _ r Hr Ho).
Qed.

Lemma harden_idem e : harden (harden e) = harden e.
Proof.
  unfold harden. destruct (matches_sel blank_target e) eqn:Hm.
  - now rewrite secure_link_blank, Hm, secure_link_idem.
  - now rewrite Hm.
Qed.

(** X1: after [secureExternalLinks] every anchor with [target="_blank"] has
    a [rel] attribute that contains [noopener]; it is still such an anchor,
    and its classes and its other attributes are as before. *)
Theorem blank_links_end_with_noopener s n e :
  elems s !! n = Some e ->
  matches_sel blank_target e = true ->
  exists e' r,
    elems (secureExternalLinks s) !! n = Some e' /\
    getAttribute "rel" e' = Some r /\
    JS.occurs_in "noopener" r /\
    matches_sel blank_target e' = true /\
    classList e' = classList e /\
    forall k, k <> "rel" -> getAttribute k e' = getAttribute k e.
Proof.
  intros He Hm.
  destruct (secure_link_contains e) as (r & Hr & Ho).
  destruct (secure_link_frame e) as (_ & Hc & _ & _ & _ & Ha).
  exists (secure_link e), r.
  rewrite (secureExternalLinks_lookup s n e He), Hm, secure_link_blank.
  repeat split; assumption.
Qed.

Lemma blank_links_end_with_noopener_witness :
  exists e' r,
    elems (secureExternalLinks (Sample.page false)) !! 6 = Some e' /\
    getAttribute "rel" e' = Some r /\
    JS.occurs_in "noopener" r /\
    matches_sel blank_target e' = true /\
    classList e' = classList Sample.plain_link /\
    forall k, k <> "rel" -> getAttribute k e' = getAttribute k Sample.plain_link.
Proof.
  apply (blank_links_end_with_noopener (Sample.page false) 6 Sample.plain_link).
  - reflexivity.
  - vm_compute. reflexivity.
Defined.

(** X2: [secureExternalLinks] is idempotent: a second run finds [noopener]
    in every link the first run touched and changes nothing. *)
Theorem secureExternalLinks_idempotent s :
  secureExternalLinks (secureExternalLinks s) = secureExternalLinks s.
Proof.
  rewrite (secureExternalLinks_map s).
  rewrite (secureExternalLinks_map (set_elems _ s)), set_elems_twice.
  change (elems (set_elems (harden <$> elems s) s)) with (harden <$> elems s).
  f_equal. rewrite <- list_fmap_compose. apply list_fmap_ext.
  intros i e _. apply harden_idem.
Qed.

(** ** The structure of the document is never changed *)

Lemma assign_src_frame v e :
  tagName (assign_src v e) = tagName e /\
  classList (assign_src v e) = classList e /\
  parentNode (assign_src v e) = parentNode e /\
  complete (assign_src v e) = complete e /\
  transitionDelay (assign_src v e) = transitionDelay e /\
  src (assign_src v e) = v /\
  forall k, k <> "src" -> getAttribute k (assign_src v e) = getAttribute k e.
Proof.
  unfold assign_src. destruct (reflects_src _); repeat split; try reflexivity.
  intros k Hk. unfold getAttribute, setAttribute. simpl.
  apply lookup_insert_ne. congruence.
Qed.




(** ** Frames of the parts of [init] *)

Section InitFrames.

Context {B : Type} (proj : state -> B).
Hypothesis Hupd : forall n f s, proj (upd_elem n f s) = proj s.
Hypothesis Hadd : forall t ty h o s, proj (addEventListener t ty h o s) = proj s.
Hypothesis Hbody : forall x s, proj (set_bodyClasses x s) = proj s.
Hypothesis Hobs : forall x s, proj (set_observed x s) = proj s.
Hypothesis Hvh : forall s, proj (setVhProperty s) = proj s.
Hypothesis Hrt : forall x s, proj (set_resizeTimer x s) = proj s.

Lemma checkReducedMotion_frame s : proj (checkReducedMotion s) = proj s.
Proof.
  unfold checkReducedMotion. rewrite Hadd. destruct (reducedMotion s); [|reflexivity].
  rewrite (forEach_frame proj); [apply Hbody|]. intros n k s'. apply Hupd.
Qed.

Lemma addStaggerDelay_frame s : proj (addStaggerDelay s) = proj s.
Proof.
  unfold addStaggerDelay. apply (forEach_frame proj). intros n k s'. apply Hupd.
Qed.

Lemma initScrollAnimations_frame s : proj (initScrollAnimations s) = proj s.
Proof.
  unfold initScrollAnimations. destruct (negb (hasIntersectionObserver s)).
  - apply (forEach_frame proj). intros n k s'. apply Hupd.
  - rewrite (forEach_frame proj); [apply Hobs|].
    intros n k s'. unfold observe. destruct (observed s'); [apply Hobs | reflexivity].
Qed.

Lemma init_wire_frame s : proj (init_wire s) = proj s.
Proof.
  unfold init_wire, secureExternalLinks, initGifPreloading, optimizeImageLoading,
    initSmoothScroll.
  rewrite (forEach_frame proj) by (intros n k s'; apply Hupd).
  rewrite (forEach_frame proj)
    by (intros n k s'; destruct (querySelectorWithin n _ s'); [apply Hadd | reflexivity]).
  rewrite (forEach_frame proj).
  - apply (forEach_frame proj). intros n k s'. apply Hadd.
  - intros n k s'. destruct (elems s' !! n) as [e|]; [|reflexivity].
    destruct (complete e); [apply Hupd | now rewrite !Hadd].
Qed.

Lemma logPerformance_frame s :
  proj (if is_dev_host (hostname s) then logPerformance s else s) = proj s.
Proof.
  destruct (is_dev_host _); [|reflexivity].
  unfold logPerformance. destruct (hasPerformance s); [apply Hadd | reflexivity].
Qed.

Lemma init_tail_frame s : proj (init_tail s) = proj s.
Proof.
  unfold init_tail, enhanceKeyboardNavigation.
  now rewrite !Hadd, Hrt, logPerformance_frame, Hvh, !Hadd, init_wire_frame.
Qed.

End InitFrames.

Lemma init_tail_elems s : elems (init_tail s) = elems (init_wire s).
Proof.
  unfold init_tail. simpl.
  now destruct (is_dev_host _); [unfold logPerformance; destruct (hasPerformance _)|].
Qed.

Lemma init_wire_rel R s0 s :
  keeps R (add_class "loaded") -> keeps R secure_link ->
  elems_rel R s0 s -> elems_rel R s0 (init_tail s).
Proof.
  intros Hl Hs H. eapply elems_rel_eq; [apply init_tail_elems|]. unfold init_wire.
  apply secureExternalLinks_rel; [exact Hs|].
  apply initGifPreloading_rel, optimizeImageLoading_rel; [exact Hl|].
  now apply initSmoothScroll_rel.
Qed.

(** ** The visibility watcher *)

Lemma class_add_idem c cs : class_add c (class_add c cs) = class_add c cs.
Proof.
  unfold class_add. destruct (has_class c cs) eqn:H.
  - now rewrite H.
  - replace (has_class c (cs ++ [c])) with true; [reflexivity|].
    symmetry. apply bool_decide_eq_true_2, elem_of_app. right. now left.
Qed.

Lemma add_class_idem c e : add_class c (add_class c e) = add_class c e.
Proof. unfold add_class. simpl. now rewrite class_add_idem. Qed.

Lemma intersecting_cons t b es :
  intersecting ((t, b) :: es) = if b then t :: intersecting es else intersecting es.
Proof. unfold intersecting. simpl. now destruct b. Qed.

Lemma observer_callback_from k es s :
  JS.forEach_from k
    (fun (entry : nat * bool) (_ : nat) s =>
       if snd entry then unobserve (fst entry) (reveal (fst entry) s) else s) es s =
  observer_callback es s.
Proof.
  unfold observer_callback, JS.forEach. generalize 0.
  revert k s. induction es as [|en es IH]; intros k s j; [reflexivity|].
  simpl. apply IH.
Qed.

Lemma observer_callback_cons t b es s :
  observer_callback ((t, b) :: es) s =
  observer_callback es (if b then unobserve t (reveal t s) else s).
Proof.
  unfold observer_callback at 1, JS.forEach. simpl. apply observer_callback_from.
Qed.

(** The callback reveals the intersecting targets and nothing else. *)
Lemma observer_callback_elems es s n :
  elems (observer_callback es s) !! n =
  (if bool_decide (n ∈ intersecting es) then add_class "animate-in" else id)
    <$> elems s !! n.
Proof.
  revert s. induction es as [|[t b] es IH]; intros s.
  - change (observer_callback [] s) with s. change (intersecting []) with (@nil nat).
    rewrite bool_decide_eq_false_2 by apply not_elem_of_nil.
    now destruct (elems s !! n).
  - rewrite observer_callback_cons, IH, intersecting_cons. destruct b.
    + rewrite unobserve_elems. unfold reveal, upd_elem. simpl.
      destruct (decide (n = t)) as [->|Hne].
      * rewrite list_lookup_alter_eq.
        rewrite (bool_decide_eq_true_2 (t ∈ t :: intersecting es)) by (now left).
        destruct (elems s !! t) as [e|]; [simpl|reflexivity].
        destruct (bool_decide (t ∈ intersecting es)); [|reflexivity].
        now rewrite add_class_idem.
      * rewrite list_lookup_alter_ne by congruence.
        destruct (decide (n ∈ intersecting es)) as [Hin|Hin].
        -- rewrite !bool_decide_eq_true_2; [reflexivity| now right | exact Hin].
        -- rewrite !bool_decide_eq_false_2; [reflexivity| |exact Hin].
           intros H. apply elem_of_cons in H as [?|?]; contradiction.
    + reflexivity.
Qed.

(** ... and stops observing exactly them. *)
Lemma observer_callback_observed es s :
  observed (observer_callback es s) =
  List.filter (fun m => negb (bool_decide (m ∈ intersecting es))) <$> observed s.
Proof.
  revert s. induction es as [|[t b] es IH]; intros s.
  - change (observer_callback [] s) with s.
    destruct (observed s) as [l|]; [|reflexivity]. simpl. f_equal.
    induction l as [|x l IHl]; [reflexivity|]. simpl. now rewrite <- IHl.
  - rewrite observer_callback_cons, IH, intersecting_cons. destruct b; [|reflexivity].
    unfold unobserve.
    change (observed (reveal t s)) with (observed s).
    destruct (observed s) as [l|] eqn:E;
      [|change (observed (reveal t s)) with (observed s); now rewrite E].
    simpl. f_equal.
    rewrite filter_filter_and. apply List.filter_ext. intros m.
    destruct (Nat.eqb_spec m t) as [->|Hne]; simpl.
    + now rewrite bool_decide_eq_true_2 by (now left).
    + destruct (decide (m ∈ intersecting es)) as [Hin|Hin].
      * rewrite !bool_decide_eq_true_2; [reflexivity| now right | exact Hin].
      * rewrite !bool_decide_eq_false_2; [reflexivity| |exact Hin].
        intros H. apply elem_of_cons in H as [?|?]; contradiction.
Qed.

Lemma observer_callback_idle es s :
  Forall (fun en => snd en = false) es -> observer_callback es s = s.
Proof.
  induction 1 as [|[t b] es Hb _ IH]; [reflexivity|].
  simpl in Hb. subst b. now rewrite observer_callback_cons.
Qed.

Lemma delivered_none obs es :
  Forall (fun en => fst en ∉ obs) es -> delivered obs es = [].
Proof.
  induction 1 as [|en es Hn _ IH]; [reflexivity|].
  unfold delivered in *. simpl. now rewrite bool_decide_eq_false_2, IH.
Qed.

(** X4: a notification reveals exactly the observed targets it reports as
    intersecting and stops observing them; it touches no other element, and
    later notifications about the targets it revealed change nothing (the
    watcher fires once per element). *)
Theorem observer_fires_once s obs entries :
  observed s = Some obs ->
  observed (step s (Intersect entries)) =
    Some (List.filter
            (fun m => negb (bool_decide (m ∈ intersecting (delivered obs entries)))) obs) /\
  (forall n,
     elems (step s (Intersect entries)) !! n =
     (if bool_decide (n ∈ intersecting (delivered obs entries))
      then add_class "animate-in" else id) <$> elems s !! n) /\
  (forall later,
     Forall (fun en => fst en ∈ intersecting (delivered obs entries)) later ->
     step (step s (Intersect entries)) (Intersect later) =
     step s (Intersect entries)).
Proof.
  intros Hobs.
  assert (Hstep : step s (Intersect entries) =
                  observer_callback (delivered obs entries) s)
    by (simpl; now rewrite Hobs).
  assert (Ho : observed (step s (Intersect entries)) =
               Some (List.filter
                       (fun m => negb (bool_decide
                                         (m ∈ intersecting (delivered obs entries)))) obs))
    by (rewrite Hstep, observer_callback_observed, Hobs; reflexivity).
  split; [exact Ho|]. split.
  - intros n. rewrite Hstep. apply observer_callback_elems.
  - intros later Hlater.
    change (step (step s (Intersect entries)) (Intersect later))
      with (match observed (step s (Intersect entries)) with
            | Some o => observer_callback (delivered o later) (step s (Intersect entries))
            | None => step s (Intersect entries)
            end).
    rewrite Ho. rewrite delivered_none; [reflexivity|].
    eapply Forall_impl; [exact Hlater|]. simpl. intros en Hen Hin.
    apply list_elem_of_In, List.filter_In in Hin as [_ Hin].
    apply negb_true_iff, bool_decide_eq_false in Hin. contradiction.
Qed.

Lemma observer_fires_once_witness :
  observed (step Sample.loaded_page (Intersect [(4, true); (5, false); (7, true)])) =
    Some (List.filter
            (fun m => negb (bool_decide
                              (m ∈ intersecting
                                     (delivered [4; 5] [(4, true); (5, false); (7, true)]))))
            [4; 5]).
Proof.
  apply (observer_fires_once Sample.loaded_page [4; 5]). reflexivity.
Defined.

(** X5: a notification in which every entry is either not intersecting or
    about an element that is not observed leaves the page exactly as it
    was. *)
Theorem observer_ignores_the_rest s entries :
  Forall (fun en => snd en = false \/
                    forall obs, observed s = Some obs -> fst en ∉ obs) entries ->
  step s (Intersect entries) = s.
Proof.
  intros H. simpl. destruct (observed s) as [obs|] eqn:Hobs; [|reflexivity].
  apply observer_callback_idle. apply Forall_forall. intros en Hen.
  apply list_elem_of_In, List.filter_In in Hen as [Hen Hin].
  apply bool_decide_eq_true in Hin.
  rewrite Forall_forall in H. destruct (H en (proj2 (list_elem_of_In _ _) Hen)) as [Hf | Hn].
  - exact Hf.
  - now destruct (Hn obs eq_refl).
Qed.

Lemma observer_ignores_the_rest_witness :
  step Sample.loaded_page (Intersect [(4, false); (7, true)]) = Sample.loaded_page.
Proof.
  apply observer_ignores_the_rest.
  constructor; [now left|]. constructor; [|constructor].
  right. intros obs Hobs. vm_compute in Hobs. injection Hobs as <-.
  intros Hin. apply list_elem_of_In in Hin. simpl in Hin.
  destruct Hin as [Hin | [Hin | []]]; discriminate.
Defined.

Lemma init_ready_split s :
  init_ready s = init_tail (initScrollAnimations (addStaggerDelay (checkReducedMotion s))).
Proof. unfold init_ready, init_tail, init_wire. reflexivity. Qed.

Lemma entry_frame {B : Type} (proj : state -> B) s :
  (forall t ty h o s, proj (addEventListener t ty h o s) = proj s) ->
  (forall x s, proj (set_readyState x s) = proj s) ->
  proj (entry s) = proj s.
Proof.
  intros Hadd Hrs. unfold entry.
  destruct (String.eqb (readyState s) "loading"); [|reflexivity].
  now rewrite Hrs, Hadd.
Qed.


Lemma same_attrs_refl e : same_attrs e e.
Proof. now split. Qed.

Lemma same_attrs_hasAttribute k e e' :
  same_attrs e e' -> hasAttribute k e' = hasAttribute k e.
Proof. intros [_ H]. unfold hasAttribute. now rewrite H. Qed.

(** Before [initScrollAnimations] runs, [init] has changed no attribute. *)
Lemma init_front_attrs s :
  elems_rel same_attrs s (addStaggerDelay (checkReducedMotion (entry s))).
Proof.
  apply addStaggerDelay_rel; [intros d x y H; exact H|].
  apply checkReducedMotion_rel; [intros x y H; exact H|].
  apply (elems_rel_eq same_attrs s s).
  - apply (entry_frame elems); reflexivity.
  - apply elems_rel_refl, same_attrs_refl.
Qed.

Lemma initScrollAnimations_fallback s :
  hasIntersectionObserver s = false ->
  initScrollAnimations s =
  set_elems ((fun e => if matches_sel animated e then add_class "animate-in" e else e)
               <$> elems s) s.
Proof.
  intros H. unfold initScrollAnimations. rewrite H. simpl negb. cbv iota.
  exact (forEach_upd_selected_map animated (add_class "animate-in") s).
Qed.

Lemma observe_all ns : forall k l s,
  NoDup ns -> (forall n, n ∈ ns -> n ∉ l) ->
  JS.forEach_from k (fun n _ => observe n) ns (set_observed (Some l) s) =
  set_observed (Some (l ++ ns)) s.
Proof.
  induction ns as [|n ns IH]; intros k l s Hnd Hdis.
  - simpl. now rewrite app_nil_r.
  - simpl. apply NoDup_cons in Hnd as [Hn Hnd].
    assert (Ho : observe n (set_observed (Some l) s) = set_observed (Some (l ++ [n])) s).
    { unfold observe. simpl.
      rewrite bool_decide_eq_false_2 by (apply Hdis; now left).
      now destruct s. }
    rewrite Ho, IH; [now rewrite <- app_assoc|exact Hnd|].
    intros m Hm Hin. apply elem_of_app in Hin as [Hin|Hin].
    + apply (Hdis m); [now right|exact Hin].
    + apply list_elem_of_singleton in Hin. now subst m.
Qed.

Lemma initScrollAnimations_observes s :
  hasIntersectionObserver s = true ->
  initScrollAnimations s = set_observed (Some (querySelectorAll animated s)) s.
Proof.
  intros H. unfold initScrollAnimations. rewrite H. simpl negb. cbv iota.
  unfold JS.forEach.
  change (querySelectorAll (SelAttr "data-animate") (set_observed (Some []) s))
    with (querySelectorAll animated s).
  rewrite (observe_all (querySelectorAll animated s) 0 [] s); [reflexivity| |].
  - apply querySelectorAll_NoDup.
  - intros n _. apply not_elem_of_nil.
Qed.

Lemma classes_grow_loaded : keeps classes_grow (add_class "loaded").
Proof. intros x y H c Hc. apply class_add_keeps, H, Hc. Qed.

Lemma classes_grow_secure : keeps classes_grow secure_link.
Proof.
  intros x y H c Hc. destruct (secure_link_frame y) as (_ & -> & _). now apply H.
Qed.

Lemma same_reveal_loaded : keeps same_reveal (add_class "loaded").
Proof.
  intros x y H. unfold same_reveal in *. simpl.
  now rewrite has_class_add_ne by discriminate.
Qed.

Lemma same_reveal_secure : keeps same_reveal secure_link.
Proof.
  intros x y H. unfold same_reveal in *.
  destruct (secure_link_frame y) as (_ & Hc & _). now rewrite Hc.
Qed.

Lemma init_front_observer s :
  hasIntersectionObserver (addStaggerDelay (checkReducedMotion (entry s))) =
  hasIntersectionObserver s.
Proof.
  rewrite (addStaggerDelay_frame hasIntersectionObserver) by reflexivity.
  rewrite (checkReducedMotion_frame hasIntersectionObserver) by reflexivity.
  apply (entry_frame hasIntersectionObserver); reflexivity.
Qed.

Lemma init_front_observed s :
  observed (addStaggerDelay (checkReducedMotion (entry s))) = observed s.
Proof.
  rewrite (addStaggerDelay_frame observed) by reflexivity.
  rewrite checkReducedMotion_observed.
  apply (entry_frame observed); reflexivity.
Qed.

Lemma init_tail_observed s : observed (init_tail s) = observed s.
Proof. apply (init_tail_frame observed); reflexivity. Qed.

(** With the watcher available, [init] leaves it observing the elements
    that carry [data-animate], in document order. *)
Lemma page_ready_observed s :
  listeners s = [] -> hasIntersectionObserver s = true ->
  observed (page_ready s) = Some (querySelectorAll animated s).
Proof.
  intros Hl Hio. rewrite (page_ready_eq s Hl), init_ready_split, init_tail_observed.
  rewrite initScrollAnimations_observes by (now rewrite init_front_observer).
  change (observed (set_observed ?x _)) with x. cbv beta. f_equal.
  unfold querySelectorAll.
  apply (find_from_rel same_attrs (matches_sel animated)).
  - intros e e' H. apply (same_attrs_hasAttribute "data-animate" e e' H).
  - apply init_front_attrs.
Qed.

(** X6: without [IntersectionObserver] the script reveals every
    [data-animate] element as soon as it starts, and sets up no watcher. *)
Theorem no_observer_reveals_at_startup s n e :
  listeners s = [] ->
  hasIntersectionObserver s = false ->
  elems s !! n = Some e ->
  hasAttribute "data-animate" e = true ->
  observed (page_ready s) = observed s /\
  exists e', elems (page_ready s) !! n = Some e' /\ "animate-in" ∈ classList e'.
Proof.
  intros Hl Hio He Ha.
  rewrite (page_ready_eq s Hl), init_ready_split.
  set (b := addStaggerDelay (checkReducedMotion (entry s))).
  assert (Hb : hasIntersectionObserver b = false)
    by (unfold b; now rewrite init_front_observer).
  rewrite (initScrollAnimations_fallback b Hb).
  split.
  - rewrite init_tail_observed. apply init_front_observed.
  - destruct (elems_rel_lookup same_attrs s b n e (init_front_attrs s) He)
      as (eb & Heb & Hsame).
    set (c := set_elems _ b).
    assert (Hc : elems c !! n = Some (add_class "animate-in" eb)).
    { unfold c. change (elems (set_elems ?x _)) with x. cbv beta.
      rewrite list_lookup_fmap, Heb. simpl.
      now rewrite (same_attrs_hasAttribute "data-animate" e eb Hsame), Ha. }
    assert (Hrel : elems_rel classes_grow c (init_tail c)).
    { apply init_wire_rel; [apply classes_grow_loaded | apply classes_grow_secure |].
      apply elems_rel_refl. now intros x z. }
    destruct (elems_rel_lookup classes_grow c (init_tail c) n _ Hrel Hc)
      as (e' & He' & Hgrow).
    exists e'. split; [exact He'|]. apply Hgrow. simpl. apply class_add_in.
Qed.

Lemma no_observer_reveals_at_startup_witness :
  observed (page_ready legacy_page) = observed legacy_page /\
  exists e', elems (page_ready legacy_page) !! 4 = Some e' /\ "animate-in" ∈ classList e'.
Proof.
  apply (no_observer_reveals_at_startup legacy_page 4 Sample.work_section); reflexivity.
Defined.

Lemma find_from_sorted p i es : StronglySorted lt (find_from p i es).
Proof.
  revert i. induction es as [|e es IH]; intros i; simpl; [constructor|].
  destruct (p i e); [|apply IH].
  constructor; [apply IH|]. apply Forall_forall. intros m Hm.
  apply find_from_ge in Hm. lia.
Qed.

(** X7: with [IntersectionObserver] available the script ends up watching
    exactly the elements that carry [data-animate], each once and in
    document order, whatever the motion preference. *)
Theorem observer_watches_animated s :
  listeners s = [] ->
  hasIntersectionObserver s = true ->
  exists obs,
    observed (page_ready s) = Some obs /\ NoDup obs /\
    StronglySorted lt obs /\
    forall n, n ∈ obs <->
              exists e, elems s !! n = Some e /\ hasAttribute "data-animate" e = true.
Proof.
  intros Hl Hio. exists (querySelectorAll animated s).
  split; [now apply page_ready_observed|]. split; [apply querySelectorAll_NoDup|].
  split; [|intros n; apply (querySelectorAll_spec animated s n)].
  apply find_from_sorted.
Qed.

Lemma observer_watches_animated_witness :
  exists obs,
    observed (page_ready Sample.early_page) = Some obs /\ NoDup obs /\
    StronglySorted lt obs /\
    forall n, n ∈ obs <->
              exists e, elems Sample.early_page !! n = Some e /\
                        hasAttribute "data-animate" e = true.
Proof.
  apply (observer_watches_animated Sample.early_page); reflexivity.
Defined.

(** X8: with [IntersectionObserver] available and no preference for reduced
    motion, starting the script reveals nothing: an element has
    [animate-in] afterwards exactly when it had it before. *)
Theorem observer_defers_reveal s n e :
  listeners s = [] ->
  hasIntersectionObserver s = true ->
  reducedMotion s = false ->
  elems s !! n = Some e ->
  exists e', elems (page_ready s) !! n = Some e' /\
             has_class "animate-in" (classList e') = has_class "animate-in" (classList e).
Proof.
  intros Hl Hio Hrm He.
  assert (Hrel : elems_rel same_reveal s (page_ready s)).
  { rewrite (page_ready_eq s Hl), init_ready_split.
    apply init_wire_rel; [apply same_reveal_loaded | apply same_reveal_secure |].
    rewrite initScrollAnimations_observes by (now rewrite init_front_observer).
    apply (elems_rel_eq same_reveal s (addStaggerDelay (checkReducedMotion (entry s))));
      [reflexivity|].
    apply addStaggerDelay_rel; [intros d x y H; exact H|].
    apply (elems_rel_eq same_reveal s s).
    - unfold checkReducedMotion.
      rewrite (entry_frame reducedMotion) by reflexivity. rewrite Hrm.
      apply (entry_frame elems); reflexivity.
    - apply elems_rel_refl. now intros x. }
  exact (elems_rel_lookup same_reveal s (page_ready s) n e Hrel He).
Qed.

Lemma observer_defers_reveal_witness :
  exists e', elems (page_ready (Sample.page false)) !! 4 = Some e' /\
             has_class "animate-in" (classList e') =
             has_class "animate-in" (classList Sample.work_section).
Proof.
  apply (observer_defers_reveal (Sample.page false) 4 Sample.work_section); reflexivity.
Defined.

(** What [init] does to an element keeps every relation that the five
    element updates of the script keep. *)
Lemma page_ready_rel (R : element -> element -> Prop) s :
  (forall e, R e e) ->
  keeps R (add_class "animate-in") -> keeps R (add_class "loaded") ->
  (forall d, keeps R (set_transitionDelay d)) -> keeps R secure_link ->
  listeners s = [] -> elems_rel R s (page_ready s).
Proof.
  intros Hrefl Ha Hld Hd Hs Hl.
  rewrite (page_ready_eq s Hl), init_ready_split.
  apply init_wire_rel; [exact Hld | exact Hs |].
  apply initScrollAnimations_rel; [exact Ha|].
  apply addStaggerDelay_rel; [exact Hd|].
  apply checkReducedMotion_rel; [exact Ha|].
  apply (elems_rel_eq R s s); [apply (entry_frame elems); reflexivity|].
  now apply elems_rel_refl.
Qed.

(** X9: after startup with [IntersectionObserver], a notification that
    reports a [data-animate] element as intersecting reveals it. *)
Theorem scroll_reveals_animated s n e entries :
  listeners s = [] ->
  hasIntersectionObserver s = true ->
  elems s !! n = Some e ->
  hasAttribute "data-animate" e = true ->
  (n, true) ∈ entries ->
  exists e', elems (step (page_ready s) (Intersect entries)) !! n = Some e' /\
             "animate-in" ∈ classList e'.
Proof.
  intros Hl Hio He Ha Hin.
  pose proof (page_ready_observed s Hl Hio) as Hobs.
  assert (Hn : n ∈ querySelectorAll animated s)
    by (apply querySelectorAll_spec; now exists e).
  assert (Hrel : elems_rel (fun _ _ => True) s (page_ready s))
    by (apply page_ready_rel; try done; now intros ?).
  destruct (elems_rel_lookup _ s (page_ready s) n e Hrel He) as (e1 & He1 & _).
  assert (Hstep : step (page_ready s) (Intersect entries) =
                  observer_callback (delivered (querySelectorAll animated s) entries)
                    (page_ready s))
    by (simpl; now rewrite Hobs).
  rewrite Hstep, observer_callback_elems, He1.
  rewrite bool_decide_eq_true_2.
  - exists (add_class "animate-in" e1). split; [reflexivity|]. simpl. apply class_add_in.
  - unfold intersecting, delivered.
    apply (list_elem_of_fmap_2 fst _ (n, true)).
    apply list_elem_of_In, List.filter_In. split; [|reflexivity].
    apply List.filter_In. split; [now apply list_elem_of_In|].
    now apply bool_decide_eq_true_2.
Qed.

Lemma scroll_reveals_animated_witness :
  exists e', elems (step (page_ready (Sample.page false))
                      (Intersect [(5, true)])) !! 5 = Some e' /\
             "animate-in" ∈ classList e'.
Proof.
  apply (scroll_reveals_animated (Sample.page false) 5
           (Sample.el "div" [("data-animate", "")] ["project-card"] None));
    [reflexivity | reflexivity | reflexivity | reflexivity | now left].
Defined.

(** ** What starting the script writes *)







(** ** The listeners [init] registers *)

Lemma same_wiring_refl e : same_wiring e e.
Proof. now repeat split. Qed.

Lemma same_wiring_add c : c = "animate-in" \/ c = "loaded" -> keeps same_wiring (add_class c).
Proof.
  intros Hc x y (H1 & H2 & H3 & H4 & H5). repeat split; try assumption.
  intros c' Ha Hl. simpl. rewrite has_class_add_ne; [now apply H5|].
  destruct Hc; congruence.
Qed.

Lemma same_wiring_delay d : keeps same_wiring (set_transitionDelay d).
Proof. intros x y H. exact H. Qed.

Lemma same_wiring_matches sel :
  sel = fragment_anchor \/ sel = project_image \/ sel = project_link \/
  sel = animated_image ->
  forall e e', same_wiring e e' -> matches_sel sel e' = matches_sel sel e.
Proof.
  intros Hsel e e' (H1 & H2 & _ & _ & H5).
  destruct Hsel as [-> | [-> | [-> | ->]]]; simpl.
  - unfold getAttribute. now rewrite H1, H2.
  - now apply H5.
  - now apply H5.
  - now apply H5.
Qed.

Lemma querySelectorAll_rel sel s s' :
  (forall e e', same_wiring e e' -> matches_sel sel e' = matches_sel sel e) ->
  elems_rel same_wiring s s' ->
  querySelectorAll sel s' = querySelectorAll sel s.
Proof.
  intros Hsel H. unfold querySelectorAll.
  exact (find_from_rel same_wiring (matches_sel sel) Hsel _ _ 0 H).
Qed.

Lemma find_from_rel_idx (R : element -> element -> Prop) (p p' : nat -> element -> bool) :
  (forall i e e', R e e' -> p' i e' = p i e) ->
  forall es es' i, Forall2 R es es' -> find_from p' i es' = find_from p i es.
Proof.
  intros HR es es' i H. revert i. induction H as [|e e' es es' He H IH]; intros i; simpl.
  - reflexivity.
  - now rewrite (HR i _ _ He), IH.
Qed.

Lemma is_descendant_rel es es' fuel anc n :
  Forall2 same_wiring es es' ->
  is_descendant es' fuel anc n = is_descendant es fuel anc n.
Proof.
  intros H. revert n. induction fuel as [|f IH]; intros n; simpl; [reflexivity|].
  destruct (es !! n) as [e|] eqn:He.
  - destruct (Forall2_lookup_l _ _ _ _ _ H He) as (e' & -> & (_ & _ & Hp & _)).
    rewrite Hp. destruct (parentNode e) as [p|]; [|reflexivity].
    now rewrite IH.
  - assert (He' : es' !! n = None).
    { apply lookup_ge_None. apply lookup_ge_None in He.
      now rewrite <- (Forall2_length _ _ _ H). }
    now rewrite He'.
Qed.

Lemma querySelectorWithin_rel root s s' :
  elems_rel same_wiring s s' ->
  querySelectorWithin root animated_image s' = querySelectorWithin root animated_image s.
Proof.
  intros H. unfold querySelectorWithin. f_equal.
  apply (find_from_rel_idx same_wiring); [|exact H].
  intros i e e' He.
  rewrite (same_wiring_matches animated_image ltac:(auto) e e' He).
  rewrite <- (Forall2_length _ _ _ H). now rewrite (is_descendant_rel _ _ _ _ _ H).
Qed.

Lemma lookup_complete_rel s s' m :
  elems_rel same_wiring s s' ->
  complete <$> elems s' !! m = complete <$> elems s !! m.
Proof.
  intros H. destruct (elems s !! m) as [e|] eqn:He.
  - destruct (elems_rel_lookup _ _ _ _ _ H He) as (e' & -> & (_ & _ & _ & Hc & _)).
    simpl. now rewrite Hc.
  - assert (He' : elems s' !! m = None).
    { apply lookup_ge_None. apply lookup_ge_None in He.
      now rewrite <- (Forall2_length _ _ _ H). }
    now rewrite He'.
Qed.

Lemma logPerformance_table t ty s :
  handlers_on t ty (if is_dev_host (hostname s) then logPerformance s else s) =
  handlers_on t ty s ++ load_logger s t ty.
Proof.
  unfold load_logger, logPerformance.
  destruct (is_dev_host _), (hasPerformance s);
    rewrite ?handlers_on_add, ?andb_false_r, ?andb_true_r, ?app_nil_r; reflexivity.
Qed.

(** The states in which the three wiring loops select their elements. *)
Lemma front_wiring s :
  let c := initScrollAnimations (addStaggerDelay (checkReducedMotion s)) in
  elems_rel same_wiring s c /\
  elems_rel same_wiring s (initSmoothScroll c) /\
  elems_rel same_wiring s (optimizeImageLoading (initSmoothScroll c)).
Proof.
  intros c.
  assert (Hc : elems_rel same_wiring s c).
  { apply initScrollAnimations_rel; [apply same_wiring_add; now left|].
    apply addStaggerDelay_rel; [apply same_wiring_delay|].
    apply checkReducedMotion_rel; [apply same_wiring_add; now left|].
    apply elems_rel_refl, same_wiring_refl. }
  split; [exact Hc|]. split; [now apply initSmoothScroll_rel|].
  apply optimizeImageLoading_rel; [apply same_wiring_add; now right|].
  now apply initSmoothScroll_rel.
Qed.

Lemma init_ready_table t ty s :
  handlers_on t ty (init_ready s) = handlers_on t ty s ++ wired s t ty.
Proof.
  destruct (front_wiring s) as (Hc & Hd & He).
  unfold init_ready.
  rewrite !handlers_on_add.
  rewrite handlers_on_set_resizeTimer.
  rewrite logPerformance_table.
  rewrite handlers_on_setVhProperty.
  unfold enhanceKeyboardNavigation. rewrite !handlers_on_add.
  rewrite (handlers_on_listeners _ _ _ _ (secureExternalLinks_listeners _)).
  rewrite initGifPreloading_handlers, optimizeImageLoading_handlers,
    initSmoothScroll_handlers.
  rewrite (handlers_on_listeners _ _ _ _ (initScrollAnimations_listeners _)).
  rewrite (handlers_on_listeners _ _ _ _ (addStaggerDelay_listeners _)).
  rewrite checkReducedMotion_handlers.
  assert (Hlog : forall x, x = setVhProperty
                    (addEventListener TBody "mousedown" HMousedown false
                       (addEventListener TBody "keydown" HKeydown false
                          (init_wire (initScrollAnimations
                                        (addStaggerDelay (checkReducedMotion s)))))) ->
                 load_logger x t ty = load_logger s t ty).
  { intros x ->. unfold load_logger.
    assert (Hh : forall y, hostname (setVhProperty y) = hostname y) by reflexivity.
    assert (Hp : forall y, hasPerformance (setVhProperty y) = hasPerformance y)
      by reflexivity.
    assert (Hh' : forall a b c d y, hostname (addEventListener a b c d y) = hostname y)
      by reflexivity.
    assert (Hp' : forall a b c d y,
               hasPerformance (addEventListener a b c d y) = hasPerformance y)
      by reflexivity.
    rewrite Hh, Hp, !Hh', !Hp'.
    rewrite (init_wire_frame hostname), (init_wire_frame hasPerformance) by reflexivity.
    rewrite (initScrollAnimations_frame hostname),
      (initScrollAnimations_frame hasPerformance) by reflexivity.
    rewrite (addStaggerDelay_frame hostname), (addStaggerDelay_frame hasPerformance)
      by reflexivity.
    now rewrite (checkReducedMotion_frame hostname),
      (checkReducedMotion_frame hasPerformance) by reflexivity. }
  unfold init_wire in Hlog. rewrite (Hlog _ eq_refl). clear Hlog.
  destruct t as [| | | |m].
  1-4: unfold wired; rewrite <- !app_assoc; reflexivity.
  change (SelTagAttrPrefix "a" "href" "#") with fragment_anchor.
  change (SelClass "project-link") with project_link.
  change (SelClass "project-image-animated") with animated_image.
  rewrite (querySelectorAll_rel fragment_anchor _ _
             (same_wiring_matches fragment_anchor ltac:(auto)) Hc).
  rewrite (querySelectorAll_rel project_image _ _
             (same_wiring_matches project_image ltac:(auto)) Hd).
  rewrite (querySelectorAll_rel project_link _ _
             (same_wiring_matches project_link ltac:(auto)) He).
  rewrite (querySelectorWithin_rel m _ _ He).
  pose proof (lookup_complete_rel _ _ m Hd) as Hcm.
  unfold wired, element_handlers, load_logger.
  rewrite <- !app_assoc. f_equal. 
  change (bool_decide (TMedia = TElem m)) with false.
  change (bool_decide (TBody = TElem m)) with false.
  change (bool_decide (TWindow = TElem m)) with false.
  cbn [andb app]. f_equal. f_equal.
  - destruct (bool_decide (m ∈ querySelectorAll project_image s)); [|reflexivity].
    destruct (elems (initSmoothScroll _) !! m) as [e'|], (elems s !! m) as [e|];
      try discriminate; [|reflexivity].
    simpl in Hcm. injection Hcm as ->. reflexivity.
  - now rewrite app_nil_r.
Qed.

Lemma wired_elems s s' t ty :
  elems s' = elems s -> hostname s' = hostname s -> hasPerformance s' = hasPerformance s ->
  wired s' t ty = wired s t ty.
Proof.
  intros He Hh Hp.
  unfold wired, element_handlers, load_logger, querySelectorAll, querySelectorWithin.
  now rewrite He, Hh, Hp.
Qed.

Lemma entry_handlers s t ty :
  listeners s = [] -> handlers_on t ty (entry s) = deferred_init s t ty.
Proof.
  intros Hl. unfold entry, deferred_init.
  destruct (String.eqb (readyState s) "loading").
  - rewrite (handlers_on_listeners t ty
               (addEventListener TDocument "DOMContentLoaded" HInit false s))
      by reflexivity.
    now rewrite handlers_on_add, (handlers_on_fresh _ _ _ Hl).
  - now apply handlers_on_fresh.
Qed.

(** Every listener of the page once the script has started. *)
Lemma page_ready_table s t ty :
  listeners s = [] ->
  handlers_on t ty (page_ready s) = deferred_init s t ty ++ wired s t ty.
Proof.
  intros Hl. rewrite (page_ready_eq s Hl), init_ready_table, (entry_handlers s t ty Hl).
  f_equal. apply wired_elems.
  - apply (entry_frame elems); reflexivity.
  - apply (entry_frame hostname); reflexivity.
  - apply (entry_frame hasPerformance); reflexivity.
Qed.

Lemma deferred_init_elsewhere s t ty :
  t <> TDocument -> deferred_init s t ty = [].
Proof.
  intros Ht. unfold deferred_init.
  rewrite (bool_decide_eq_false_2 (TDocument = t)) by congruence.
  now rewrite andb_false_r.
Qed.

Lemma page_ready_elem_table s m ty :
  listeners s = [] ->
  handlers_on (TElem m) ty (page_ready s) = element_handlers s m ty.
Proof.
  intros Hl. rewrite (page_ready_table s _ _ Hl).
  now rewrite deferred_init_elsewhere by discriminate.
Qed.

(** ** The whole script *)

Lemma registerServiceWorker_frame {B : Type} (proj : state -> B) s :
  (forall t ty h o s, proj (addEventListener t ty h o s) = proj s) ->
  proj (registerServiceWorker s) = proj s.
Proof. intros Hadd. unfold registerServiceWorker. now destruct (_ && _). Qed.

Lemma registerServiceWorker_handlers t ty s :
  handlers_on t ty (registerServiceWorker s) =
  handlers_on t ty s ++ service_worker_loader s t ty.
Proof.
  unfold registerServiceWorker, service_worker_loader.
  destruct (hasServiceWorker s && String.eqb (protocol s) "https:").
  - apply handlers_on_add.
  - now rewrite app_nil_r.
Qed.

Lemma registerServiceWorker_readyState x s :
  registerServiceWorker (set_readyState x s) = set_readyState x (registerServiceWorker s).
Proof.
  unfold registerServiceWorker.
  change (hasServiceWorker (set_readyState x s)) with (hasServiceWorker s).
  change (protocol (set_readyState x s)) with (protocol s).
  now destruct (_ && _).
Qed.

(** Whether the script starts before or after the document is parsed, the
    body of [init] and the service-worker block each run once; the block
    runs first when [init] is deferred. *)
Lemma script_ready_eq s :
  listeners s = [] ->
  script_ready s =
  if String.eqb (readyState s) "loading"
  then init_ready (registerServiceWorker (entry s))
  else registerServiceWorker (init_ready s).
Proof.
  intros Hfresh. unfold script_ready, main, init, entry.
  destruct (String.eqb (readyState s) "loading") eqn:Hl; [|reflexivity].
  set (a := addEventListener TDocument "DOMContentLoaded" HInit false s).
  unfold step.
  assert (Hr : String.eqb (readyState (registerServiceWorker a)) "loading" = true).
  { rewrite (registerServiceWorker_frame readyState) by reflexivity. exact Hl. }
  rewrite Hr.
  assert (Hw : handlers_on TDocument (ev_type (mk_event "DOMContentLoaded"))
                 (set_readyState "interactive" (registerServiceWorker a)) =
               [(HInit, false)]).
  { rewrite (handlers_on_listeners _ _ (registerServiceWorker a)) by reflexivity.
    rewrite registerServiceWorker_handlers. unfold a.
    rewrite handlers_on_add, (handlers_on_fresh _ _ _ Hfresh).
    unfold service_worker_loader.
    rewrite (bool_decide_eq_false_2 (TWindow = TDocument)) by discriminate.
    now destruct (hasServiceWorker _ && _). }
  destruct (dispatch_single _ _ _ _ _ Hw) as (id & _ & ->).
  rewrite registerServiceWorker_readyState. reflexivity.
Qed.

Lemma script_ready_frame {B : Type} (proj : state -> B) :
  (forall n f s, proj (upd_elem n f s) = proj s) ->
  (forall t ty h o s, proj (addEventListener t ty h o s) = proj s) ->
  (forall x s, proj (set_bodyClasses x s) = proj s) ->
  (forall x s, proj (set_observed x s) = proj s) ->
  (forall s, proj (setVhProperty s) = proj s) ->
  (forall x s, proj (set_resizeTimer x s) = proj s) ->
  (forall x s, proj (set_readyState x s) = proj s) ->
  forall s, listeners s = [] -> proj (script_ready s) = proj s.
Proof.
  intros H1 H2 H3 H4 H5 H6 H7 s Hl. rewrite (script_ready_eq s Hl).
  destruct (String.eqb (readyState s) "loading") eqn:Hr.
  - rewrite (init_ready_frame proj H1 H2 H3 H4 H5 H6).
    rewrite (registerServiceWorker_frame proj _ H2). now apply entry_frame.
  - rewrite (registerServiceWorker_frame proj _ H2).
    apply (init_ready_frame proj H1 H2 H3 H4 H5 H6).
Qed.

Lemma service_worker_loader_frame s s' t ty :
  hasServiceWorker s' = hasServiceWorker s -> protocol s' = protocol s ->
  service_worker_loader s' t ty = service_worker_loader s t ty.
Proof. unfold service_worker_loader. now intros -> ->. Qed.

(** Every listener of the page once the whole script has run. *)
Lemma script_ready_table s t ty :
  listeners s = [] ->
  handlers_on t ty (script_ready s) = registered_by_script s t ty.
Proof.
  intros Hl. rewrite (script_ready_eq s Hl). unfold registered_by_script.
  destruct (String.eqb (readyState s) "loading") eqn:Hr.
  - rewrite init_ready_table, registerServiceWorker_handlers, (entry_handlers s t ty Hl).
    rewrite <- app_assoc. f_equal. f_equal.
    + apply service_worker_loader_frame; apply (entry_frame _); reflexivity.
    + apply wired_elems.
      * rewrite (registerServiceWorker_frame elems) by reflexivity.
        apply (entry_frame elems); reflexivity.
      * rewrite (registerServiceWorker_frame hostname) by reflexivity.
        apply (entry_frame hostname); reflexivity.
      * rewrite (registerServiceWorker_frame hasPerformance) by reflexivity.
        apply (entry_frame hasPerformance); reflexivity.
  - rewrite registerServiceWorker_handlers, init_ready_table.
    rewrite (handlers_on_fresh _ _ _ Hl). simpl. f_equal.
    apply service_worker_loader_frame.
    + apply (init_ready_frame hasServiceWorker); reflexivity.
    + apply (init_ready_frame protocol); reflexivity.
Qed.

(** A dispatch to persistent listeners, none of them the deferred [init]:
    they run in order, each on the page the one before has left. *)
Lemma dispatch_persistent t e s :
  Forall (fun ho => fst ho <> HInit /\ snd ho = false) (handlers_on t (ev_type e) s) ->
  dispatch t e s =
  fold_left (fun se ho => run_handler (fst ho) t (snd se) (fst se))
    (handlers_on t (ev_type e) s) (s, e).
Proof.
  intros H. unfold handlers_on, dispatch in *.
  assert (Hin : Forall (fun l => In l (listeners s)) (listeners_on t (ev_type e) s)).
  { apply Forall_forall. intros l Hl. apply list_elem_of_In in Hl.
    unfold listeners_on in Hl. now apply List.filter_In in Hl as [Hl _]. }
  revert H Hin. generalize (listeners_on t (ev_type e) s) as ls.
  assert (Hgen : forall ls se,
            listeners (fst se) = listeners s ->
            Forall (fun ho => fst ho <> HInit /\ snd ho = false)
              (map (fun l => (l_handler l, l_once l)) ls) ->
            Forall (fun l => In l (listeners s)) ls ->
            fold_left (invoke t) ls se =
            fold_left (fun se ho => run_handler (fst ho) t (snd se) (fst se))
              (map (fun l => (l_handler l, l_once l)) ls) se).
  { induction ls as [|l ls IH]; intros [s' e'] Hs' Hok Hin; [reflexivity|].
    simpl in Hs'. rewrite map_cons in Hok.
    apply Forall_cons in Hok as [[Hh Ho] Hok]. apply Forall_cons in Hin as [Hl Hin].
    simpl in Hh, Ho. simpl. unfold registered.
    rewrite bool_decide_eq_true_2 by (rewrite Hs'; now apply list_elem_of_In).
    rewrite Ho. apply IH; [|exact Hok|exact Hin].
    now rewrite run_handler_listeners by exact Hh. }
  intros ls Hok Hin. now apply Hgen.
Qed.

Lemma perf_load_fields x :
  console (perf_load x) =
    console x ++ [LogPageLoad (loadEventEnd x - navigationStart x)] /\
  registerCalls (perf_load x) = registerCalls x /\
  registrations (perf_load x) = registrations x.
Proof. split; [reflexivity|]. split; reflexivity. Qed.

Lemma service_worker_load_fields x :
  console (service_worker_load x) = console x /\
  registerCalls (service_worker_load x) = registerCalls x ++ ["/sw.js"] /\
  registrations (service_worker_load x) = S (registrations x).
Proof. split; [reflexivity|]. split; reflexivity. Qed.

(** What the listeners of the window's [load] event do, in any order. *)
Lemma window_load_fold hs :
  Forall (fun ho => fst ho = HPerfLoad \/ fst ho = HServiceWorkerLoad) hs ->
  forall x e,
    console (fst (fold_left (fun se ho => run_handler (fst ho) TWindow (snd se) (fst se))
                    hs (x, e))) =
      console x ++ load_entries x hs /\
    registerCalls (fst (fold_left (fun se ho => run_handler (fst ho) TWindow (snd se) (fst se))
                          hs (x, e))) =
      registerCalls x ++ load_registrations hs /\
    registrations (fst (fold_left (fun se ho => run_handler (fst ho) TWindow (snd se) (fst se))
                          hs (x, e))) =
      registrations x + length (load_registrations hs).
Proof.
  induction 1 as [|[h o] hs Hh _ IH]; intros x e.
  - cbn [fold_left fst load_entries load_registrations flat_map length].
    rewrite !app_nil_r. split; [reflexivity|]. split; [reflexivity|]. lia.
  - simpl in Hh. destruct Hh as [-> | ->].
    + destruct (IH (perf_load x) e) as (H1 & H2 & H3).
      destruct (perf_load_fields x) as (F1 & F2 & F3).
      change (fold_left ?f ((HPerfLoad, o) :: hs) (x, e))
        with (fold_left f hs (perf_load x, e)).
      rewrite H1, H2, H3, F1, F2, F3, <- app_assoc.
      split; [reflexivity|]. split; reflexivity.
    + destruct (IH (service_worker_load x) e) as (H1 & H2 & H3).
      destruct (service_worker_load_fields x) as (F1 & F2 & F3).
      change (fold_left ?f ((HServiceWorkerLoad, o) :: hs) (x, e))
        with (fold_left f hs (service_worker_load x, e)).
      rewrite H1, H2, H3, F1, F2, F3, <- app_assoc.
      split; [reflexivity|]. split; [reflexivity|].
      change (load_registrations ((HServiceWorkerLoad, o) :: hs))
        with ("/sw.js" :: load_registrations hs).
      cbn [length]. lia.
Qed.

(** The listeners of the window's [load] event that the script registers. *)
Lemma window_load_table s :
  Forall (fun ho => fst ho <> HInit /\ snd ho = false)
    (registered_by_script s TWindow "load") /\
  Forall (fun ho => fst ho = HPerfLoad \/ fst ho = HServiceWorkerLoad)
    (registered_by_script s TWindow "load") /\
  (forall x, load_entries x (registered_by_script s TWindow "load") =
             if is_dev_host (hostname s) && hasPerformance s
             then [LogPageLoad (loadEventEnd x - navigationStart x)] else []) /\
  load_registrations (registered_by_script s TWindow "load") =
    if hasServiceWorker s && String.eqb (protocol s) "https:" then ["/sw.js"] else [].
Proof.
  unfold registered_by_script, deferred_init, wired, load_logger, service_worker_loader.
  change (bool_decide (TDocument = TWindow)) with false.
  change (bool_decide (TMedia = TWindow)) with false.
  change (bool_decide (TBody = TWindow)) with false.
  change (bool_decide (TWindow = TWindow)) with true.
  change (String.eqb "change" "load") with false.
  change (String.eqb "keydown" "load") with false.
  change (String.eqb "mousedown" "load") with false.
  change (String.eqb "resize" "load") with false.
  change (String.eqb "orientationchange" "load") with false.
  change (String.eqb "DOMContentLoaded" "load") with false.
  change (String.eqb "load" "load") with true.
  rewrite !andb_false_r. cbn [andb app].
  destruct (String.eqb (readyState s) "loading"), (is_dev_host (hostname s)),
    (hasPerformance s), (hasServiceWorker s), (String.eqb (protocol s) "https:");
    cbn [andb app]; (split; [|split; [|split]]);
    try (intros x; reflexivity); try reflexivity;
    repeat (apply Forall_cons; split;
            [first [split; [discriminate|reflexivity] | left; reflexivity | right; reflexivity]|]);
    apply List.Forall_nil.
Qed.

(** X11: the complete table of what the script registers. On an element: a
    click listener if it is an [a] whose [href] starts with [#]; load and
    error listeners if it is a project image that is not yet complete; a
    one-shot mouseenter listener if it is a project link with an animated
    image below it. Elsewhere: the change listener of the media query,
    keydown and mousedown on the body, the optional load logger, resize and
    orientationchange on the window, the load listener of the service-worker
    block when the page is served over https by a browser with service
    workers, and the deferred [init] itself when the script started while
    the document was loading. Nothing else, and each of them once; the two
    load listeners of the window are in the order the script registered
    them. *)
Theorem script_registers_exactly s t ty :
  listeners s = [] ->
  handlers_on t ty (script_ready s) =
  if String.eqb (readyState s) "loading"
  then deferred_init s t ty ++ service_worker_loader s t ty ++ wired s t ty
  else wired s t ty ++ service_worker_loader s t ty.
Proof. apply script_ready_table. Qed.

Lemma script_registers_exactly_witness :
  handlers_on TWindow "load" (script_ready secure_dev_page) =
  [(HServiceWorkerLoad, false); (HPerfLoad, false)].
Proof. apply (script_registers_exactly secure_dev_page). reflexivity. Defined.

(** X12: what the window's [load] event does once the script has run. The
    page-load time [loadEventEnd - navigationStart] is logged if and only if
    the page is served from [localhost] or [127.0.0.1] and the browser has
    [window.performance]; nothing else is logged at that moment. The
    service worker [/sw.js] is registered if and only if the browser has
    service workers and the page is served over https; the outcome of the
    registration is logged later, when its promise settles. *)
Theorem window_load_logs_and_registers s :
  listeners s = [] ->
  console (step (script_ready s) WindowLoad) =
    console s ++
    (if (String.eqb (hostname s) "localhost" || String.eqb (hostname s) "127.0.0.1") &&
        hasPerformance s
     then [LogPageLoad (loadEventEnd s - navigationStart s)] else []) /\
  registerCalls (step (script_ready s) WindowLoad) =
    registerCalls s ++
    (if hasServiceWorker s && String.eqb (protocol s) "https:" then ["/sw.js"] else []) /\
  (forall err,
     registrations s = 0 ->
     console (run (script_ready s) [WindowLoad; RegistrationSettled err]) =
       console (step (script_ready s) WindowLoad) ++
       (if hasServiceWorker s && String.eqb (protocol s) "https:"
        then [match err with
              | None => LogRegistrationOk
              | Some x => LogRegistrationFailed x
              end]
        else [])).
Proof.
  intros Hl.
  assert (Hc : console (script_ready s) = console s)
    by (apply (script_ready_frame console); try reflexivity; exact Hl).
  assert (He : loadEventEnd (script_ready s) = loadEventEnd s)
    by (apply (script_ready_frame loadEventEnd); try reflexivity; exact Hl).
  assert (Hn : navigationStart (script_ready s) = navigationStart s)
    by (apply (script_ready_frame navigationStart); try reflexivity; exact Hl).
  assert (Hrc : registerCalls (script_ready s) = registerCalls s)
    by (apply (script_ready_frame registerCalls); try reflexivity; exact Hl).
  assert (Hrg : registrations (script_ready s) = registrations s)
    by (apply (script_ready_frame registrations); try reflexivity; exact Hl).
  destruct (window_load_table s) as (Hok & Hsh & Hle & Hlr).
  set (r0 := set_readyState "complete" (script_ready s)).
  assert (Hh : handlers_on TWindow (ev_type (mk_event "load")) r0 =
               registered_by_script s TWindow "load").
  { unfold r0. rewrite (handlers_on_listeners _ _ (script_ready s)) by reflexivity.
    exact (script_ready_table s _ _ Hl). }
  assert (Hstep : step (script_ready s) WindowLoad =
                  fst (fold_left (fun se ho => run_handler (fst ho) TWindow (snd se) (fst se))
                         (registered_by_script s TWindow "load") (r0, mk_event "load"))).
  { change (step (script_ready s) WindowLoad)
      with (fst (dispatch TWindow (mk_event "load") r0)).
    rewrite dispatch_persistent by (rewrite Hh; exact Hok). now rewrite Hh. }
  destruct (window_load_fold _ Hsh r0 (mk_event "load")) as (H1 & H2 & H3).
  rewrite <- Hstep in H1, H2, H3.
  change (console r0) with (console (script_ready s)) in H1.
  change (registerCalls r0) with (registerCalls (script_ready s)) in H2.
  change (registrations r0) with (registrations (script_ready s)) in H3.
  rewrite Hle in H1.
  change (loadEventEnd r0) with (loadEventEnd (script_ready s)) in H1.
  change (navigationStart r0) with (navigationStart (script_ready s)) in H1.
  rewrite Hc, He, Hn in H1. rewrite Hrc, Hlr in H2. rewrite Hrg, Hlr in H3.
  split; [exact H1|]. split; [exact H2|].
  intros err Hz. rewrite Hz in H3.
  change (run (script_ready s) [WindowLoad; RegistrationSettled err])
    with (step (step (script_ready s) WindowLoad) (RegistrationSettled err)).
  unfold step at 1. rewrite H3.
  destruct (hasServiceWorker s && String.eqb (protocol s) "https:"); simpl.
  - reflexivity.
  - now rewrite app_nil_r.
Qed.

Lemma window_load_logs_and_registers_witness :
  console (step (script_ready secure_dev_page) WindowLoad) = [LogPageLoad 1250] /\
  registerCalls (step (script_ready secure_dev_page) WindowLoad) = ["/sw.js"] /\
  console (run (script_ready secure_dev_page)
             [WindowLoad; RegistrationSettled (Some "SecurityError")]) =
    console (step (script_ready secure_dev_page) WindowLoad) ++
    [LogRegistrationFailed "SecurityError"].
Proof.
  destruct (window_load_logs_and_registers secure_dev_page eq_refl) as (H1 & H2 & H3).
  split; [exact H1|]. split; [exact H2|]. exact (H3 (Some "SecurityError") eq_refl).
Defined.

(** ** Clicks and their path *)

Lemma path_from_rel es es' fuel n :
  Forall2 (fun e e' => parentNode e' = parentNode e) es es' ->
  path_from es' fuel n = path_from es fuel n.
Proof.
  intros H. revert n. induction fuel as [|f IH]; intros n; simpl; [reflexivity|].
  f_equal. destruct (es !! n) as [e|] eqn:He.
  - destruct (Forall2_lookup_l _ _ _ _ _ H He) as (e' & -> & Hp).
    simpl. rewrite Hp. destruct (parentNode e) as [p|]; [apply IH|reflexivity].
  - assert (He' : es' !! n = None).
    { apply lookup_ge_None. apply lookup_ge_None in He.
      now rewrite <- (Forall2_length _ _ _ H). }
    now rewrite He'.
Qed.

(** [init] moves no node: the path of a click is the one of the document
    the script started on. *)
Lemma page_ready_path s n :
  listeners s = [] ->
  path_from (elems (page_ready s)) (length (elems (page_ready s))) n =
  path_from (elems s) (length (elems s)) n.
Proof.
  intros Hl.
  assert (H : elems_rel (fun e e' => parentNode e' = parentNode e) s (page_ready s)).
  { apply page_ready_rel; try exact Hl; try reflexivity;
      try (intros x y Hxy; exact Hxy); try (intros d x y Hxy; exact Hxy).
    intros x y Hxy. destruct (secure_link_frame y) as (_ & _ & Hp & _). now rewrite Hp. }
  rewrite <- (Forall2_length _ _ _ H). now apply path_from_rel.
Qed.

Lemma click_handlers s m :
  listeners s = [] ->
  handlers_on (TElem m) "click" (page_ready s) =
  if bool_decide (m ∈ querySelectorAll fragment_anchor s)
  then [(HAnchorClick, false)] else [].
Proof.
  intros Hl. rewrite (page_ready_elem_table s m _ Hl). unfold element_handlers.
  destruct (bool_decide (m ∈ querySelectorAll fragment_anchor s)),
    (bool_decide (m ∈ querySelectorAll project_image s)),
    (elems s !! m) as [e|],
    (bool_decide (m ∈ querySelectorAll project_link s)),
    (querySelectorWithin m animated_image s);
    try destruct (complete e); reflexivity.
Qed.

Lemma click_elsewhere s t :
  listeners s = [] -> t = TBody \/ t = TDocument \/ t = TWindow ->
  handlers_on t "click" (page_ready s) = [].
Proof.
  intros Hl Ht. rewrite (page_ready_table s _ _ Hl).
  unfold deferred_init, wired, load_logger.
  change (String.eqb "DOMContentLoaded" "click") with false.
  change (String.eqb "change" "click") with false.
  change (String.eqb "keydown" "click") with false.
  change (String.eqb "mousedown" "click") with false.
  change (String.eqb "load" "click") with false.
  change (String.eqb "resize" "click") with false.
  change (String.eqb "orientationchange" "click") with false.
  rewrite !andb_false_r.
  destruct Ht as [-> | [-> | ->]]; reflexivity.
Qed.

Lemma anchor_click_ev_type a e s : ev_type (snd (anchor_click a e s)) = ev_type e.
Proof.
  rewrite anchor_click_unfold; cbv zeta.
  destruct (bool_decide _ || bool_decide _); [reflexivity|].
  now destruct (querySelector_str _ s) as [|[t|]].
Qed.

Lemma anchor_click_listeners a e s : listeners (fst (anchor_click a e s)) = listeners s.
Proof. exact (run_handler_listeners HAnchorClick (TElem a) e s ltac:(discriminate)). Qed.

(** The deliveries of a click along its path, on a page with the listeners
    of [page_ready]: the listener of each fragment anchor passed runs. *)
Lemma click_deliveries s (Hl : listeners s = []) path :
  forall se,
    listeners (fst se) = listeners (page_ready s) -> ev_type (snd se) = "click" ->
    let r := fold_left (fun se t => dispatch t (snd se) (fst se)) (map TElem path) se in
    r = fold_left (fun se a => anchor_click a (snd se) (fst se))
          (List.filter (fun m => bool_decide (m ∈ querySelectorAll fragment_anchor s)) path)
          se /\
    listeners (fst r) = listeners (page_ready s) /\ ev_type (snd r) = "click".
Proof.
  induction path as [|m path IH]; intros [x e] Hx He; [now repeat split|].
  simpl in Hx, He. cbn [map fold_left List.filter fst snd].
  assert (Hh : handlers_on (TElem m) (ev_type e) x =
               if bool_decide (m ∈ querySelectorAll fragment_anchor s)
               then [(HAnchorClick, false)] else []).
  { rewrite He, (handlers_on_listeners _ _ (page_ready s)) by exact Hx.
    now apply click_handlers. }
  destruct (bool_decide (m ∈ querySelectorAll fragment_anchor s)).
  - destruct (dispatch_single _ _ _ _ _ Hh) as (id & _ & ->).
    cbn [run_handler fold_left]. apply IH.
    + now rewrite anchor_click_listeners.
    + now rewrite anchor_click_ev_type.
  - rewrite (dispatch_none _ _ _ Hh). now apply IH.
Qed.

(** X13: a click passes the element clicked and then, bubbling, each of its
    ancestors; on its way it runs the smooth-scroll listener of every [a]
    whose [href] starts with [#], innermost first, and no other code of the
    script. So a click inside such an anchor is intercepted like a click on
    the anchor itself, and a click that passes no such anchor leaves the
    page unchanged and its default action in place. *)
Theorem click_runs_enclosing_anchors s n :
  listeners s = [] ->
  click n (page_ready s) =
    fold_left (fun se a => anchor_click a (snd se) (fst se))
      (List.filter (fun m => bool_decide (m ∈ querySelectorAll fragment_anchor s))
         (path_from (elems s) (length (elems s)) n))
      (page_ready s, mk_event "click") /\
  ((forall m e, m ∈ path_from (elems s) (length (elems s)) n -> elems s !! m = Some e ->
                matches_sel fragment_anchor e = false) ->
   click n (page_ready s) = (page_ready s, mk_event "click")).
Proof.
  intros Hl.
  assert (Hc : click n (page_ready s) =
               fold_left (fun se a => anchor_click a (snd se) (fst se))
                 (List.filter (fun m => bool_decide (m ∈ querySelectorAll fragment_anchor s))
                    (path_from (elems s) (length (elems s)) n))
                 (page_ready s, mk_event "click")).
  { unfold click, event_path. rewrite (page_ready_path s n Hl), fold_left_app.
    destruct (click_deliveries s Hl (path_from (elems s) (length (elems s)) n)
                (page_ready s, mk_event "click") eq_refl eq_refl) as (-> & Hls & Hty).
    set (r := fold_left _ (List.filter _ _) _) in *.
    assert (Hnone : forall t x e, t = TBody \/ t = TDocument \/ t = TWindow ->
              listeners x = listeners (page_ready s) -> ev_type e = "click" ->
              dispatch t e x = (x, e)).
    { intros t x e Ht Hx He. apply dispatch_none.
      rewrite He, (handlers_on_listeners _ _ (page_ready s)) by exact Hx.
      now apply click_elsewhere. }
    cbn [fold_left]. destruct r as [x e]. cbn [fst snd] in *.
    rewrite (Hnone TBody x e) by auto. cbn [fst snd].
    rewrite (Hnone TDocument x e) by auto. cbn [fst snd].
    rewrite (Hnone TWindow x e) by auto. reflexivity. }
  split; [exact Hc|]. intros Hn. rewrite Hc.
  assert (Hf : Forall (fun m => bool_decide (m ∈ querySelectorAll fragment_anchor s) = false)
                 (path_from (elems s) (length (elems s)) n)).
  { apply Forall_forall. intros m Hm. apply bool_decide_eq_false_2. intros Hin.
    apply querySelectorAll_spec in Hin as (e & He & Hmatch).
    rewrite (Hn m e Hm He) in Hmatch. discriminate. }
  now rewrite (proj1 (filter_none _ _ Hf)).
Qed.

Lemma click_runs_enclosing_anchors_witness :
  click 3 (page_ready nested_page) =
    (set_scrollCalls [(520%Z, "smooth")] (page_ready nested_page),
     preventDefault (mk_event "click")) /\
  click 1 (page_ready nested_page) = (page_ready nested_page, mk_event "click").
Proof.
  destruct (click_runs_enclosing_anchors nested_page 3 eq_refl) as [H3 _].
  destruct (click_runs_enclosing_anchors nested_page 1 eq_refl) as [_ H1].
  split.
  - rewrite H3. vm_compute. reflexivity.
  - apply H1. intros m e Hm He. vm_compute in Hm.
    apply list_elem_of_singleton in Hm. subst m. vm_compute in He.
    injection He as <-. reflexivity.
Defined.


(** ** Images at startup *)

Lemma forEach_from_elems_ext {A : Type} (B1 B2 : A -> nat -> state -> state) :
  (forall x k s1 s2, elems s1 = elems s2 -> elems (B1 x k s1) = elems (B2 x k s2)) ->
  forall l k s1 s2, elems s1 = elems s2 ->
    elems (JS.forEach_from k B1 l s1) = elems (JS.forEach_from k B2 l s2).
Proof.
  intros HB l. induction l as [|x l IH]; intros k s1 s2 H; simpl; [exact H|].
  apply IH, HB, H.
Qed.

Lemma optimizeImageLoading_elems s :
  elems (optimizeImageLoading s) =
  (fun e => if matches_sel project_image e then mark_loaded e else e) <$> elems s.
Proof.
  transitivity (elems (JS.forEach (fun m _ => upd_elem m mark_loaded)
                         (querySelectorAll project_image s) s));
    [|now rewrite forEach_upd_selected_map].
  unfold optimizeImageLoading, JS.forEach.
  apply forEach_from_elems_ext; [|reflexivity].
  intros n k s1 s2 H. unfold upd_elem at 2. simpl. rewrite <- H.
  destruct (elems s1 !! n) as [e|] eqn:He.
  - destruct (complete e) eqn:Hc.
    + unfold upd_elem. simpl. apply list_eq. intros j. rewrite !list_lookup_alter.
      destruct (decide (n = j)) as [<-|]; [|reflexivity].
      rewrite He. simpl. unfold mark_loaded. now rewrite Hc.
    + simpl. apply list_eq. intros j. rewrite list_lookup_alter.
      destruct (decide (n = j)) as [<-|]; [|reflexivity].
      rewrite He. simpl. unfold mark_loaded. now rewrite Hc.
  - apply list_eq. intros j. rewrite list_lookup_alter.
    destruct (decide (n = j)) as [<-|]; [|reflexivity]. now rewrite He.
Qed.

Lemma initSmoothScroll_elems s : elems (initSmoothScroll s) = elems s.
Proof. unfold initSmoothScroll. now apply (forEach_frame elems). Qed.

Lemma same_wiring_loaded_refl e : same_wiring e e /\ same_loaded e e.
Proof. split; [apply same_wiring_refl | reflexivity]. Qed.

(** Up to [optimizeImageLoading], [init] adds [loaded] nowhere. *)
Lemma before_images s :
  elems_rel (fun e e' => same_wiring e e' /\ same_loaded e e') s
    (initSmoothScroll
       (initScrollAnimations (addStaggerDelay (checkReducedMotion (entry s))))).
Proof.
  assert (Ha : keeps (fun e e' => same_wiring e e' /\ same_loaded e e')
                 (add_class "animate-in")).
  { intros x y [H1 H2]. split; [apply same_wiring_add; auto|].
    unfold same_loaded in *. simpl. now rewrite has_class_add_ne by discriminate. }
  apply initSmoothScroll_rel, initScrollAnimations_rel; [exact Ha|].
  apply addStaggerDelay_rel; [intros d x y H; exact H|].
  apply checkReducedMotion_rel; [exact Ha|].
  eapply elems_rel_eq; [apply (entry_frame elems); reflexivity|].
  apply elems_rel_refl, same_wiring_loaded_refl.
Qed.

(** After [optimizeImageLoading], [init] changes no class. *)
Lemma after_images c :
  elems_rel (fun e e' => classList e' = classList e)
    (optimizeImageLoading (initSmoothScroll c)) (init_tail c).
Proof.
  eapply elems_rel_eq; [apply init_tail_elems|]. unfold init_wire.
  apply secureExternalLinks_rel.
  - intros x y H. destruct (secure_link_frame y) as (_ & Hc & _). now rewrite Hc.
  - apply initGifPreloading_rel, elems_rel_refl. reflexivity.
Qed.

Lemma image_handlers_at_startup s n e ty :
  listeners s = [] -> elems s !! n = Some e -> matches_sel project_image e = true ->
  ty = "load" \/ ty = "error" ->
  handlers_on (TElem n) ty (page_ready s) =
  if complete e then []
  else if String.eqb ty "load" then [(HImageLoad, false)] else [(HImageError, false)].
Proof.
  intros Hl He Hm Hty. rewrite (page_ready_elem_table s n ty Hl). unfold element_handlers.
  rewrite (bool_decide_eq_true_2 (n ∈ querySelectorAll project_image s))
    by (apply querySelectorAll_spec; now exists e).
  rewrite He.
  destruct Hty as [-> | ->]; simpl;
    destruct (bool_decide (n ∈ querySelectorAll fragment_anchor s)),
      (bool_decide (n ∈ querySelectorAll project_link s)),
      (querySelectorWithin n animated_image s), (complete e); reflexivity.
Qed.

(** X14: what startup does with a project image depends on whether it is
    already complete. A complete image is marked [loaded] at once and gets
    no listener, so a later error event on it runs no code of the script. An
    image still loading is not marked, and gets one load and one error
    listener. *)
Theorem images_at_startup s n e :
  listeners s = [] ->
  elems s !! n = Some e ->
  matches_sel project_image e = true ->
  (complete e = true ->
     (exists e', elems (page_ready s) !! n = Some e' /\ "loaded" ∈ classList e') /\
     handlers_on (TElem n) "load" (page_ready s) = [] /\
     handlers_on (TElem n) "error" (page_ready s) = [] /\
     step (page_ready s) (ImageError n) = upd_elem n (set_complete true) (page_ready s)) /\
  (complete e = false ->
     (exists e', elems (page_ready s) !! n = Some e' /\
                 has_class "loaded" (classList e') = has_class "loaded" (classList e)) /\
     handlers_on (TElem n) "load" (page_ready s) = [(HImageLoad, false)] /\
     handlers_on (TElem n) "error" (page_ready s) = [(HImageError, false)]).
Proof.
  intros Hl He Hm.
  pose proof (image_handlers_at_startup s n e "load" Hl He Hm (or_introl eq_refl)) as Hload.
  pose proof (image_handlers_at_startup s n e "error" Hl He Hm (or_intror eq_refl)) as Herr.
  destruct (elems_rel_lookup _ _ _ n e (before_images s) He)
    as (ed & Hed & (_ & _ & _ & Hcd & Hpd) & Hld).
  set (c := initScrollAnimations (addStaggerDelay (checkReducedMotion (entry s)))) in *.
  assert (Hmd : matches_sel project_image ed = true).
  { simpl. rewrite Hpd by discriminate. exact Hm. }
  assert (Hee : elems (optimizeImageLoading (initSmoothScroll c)) !! n =
                Some (mark_loaded ed)).
  { rewrite optimizeImageLoading_elems, list_lookup_fmap, Hed. simpl.
    simpl in Hmd. now rewrite Hmd. }
  destruct (elems_rel_lookup _ _ _ n _ (after_images c) Hee) as (e' & He' & Hcl).
  assert (Hpr : page_ready s = init_tail c)
    by (rewrite (page_ready_eq s Hl); apply init_ready_split).
  split; intros Hc; rewrite Hc in *; simpl in Hload, Herr.
  - split; [|split; [exact Hload|split; [exact Herr|]]].
    + exists e'. rewrite Hpr. split; [exact He'|]. rewrite Hcl.
      unfold mark_loaded. rewrite Hcd. simpl. apply class_add_in.
    + change (step (page_ready s) (ImageError n))
        with (fst (dispatch (TElem n) (mk_event "error")
                     (upd_elem n (set_complete true) (page_ready s)))).
      rewrite dispatch_none; [reflexivity|].
      now rewrite (handlers_on_listeners _ _ (page_ready s)) by reflexivity.
  - split; [|split; [exact Hload|exact Herr]].
    exists e'. rewrite Hpr. split; [exact He'|]. rewrite Hcl.
    unfold mark_loaded. rewrite Hcd. exact Hld.
Qed.

Lemma images_at_startup_witness :
  (complete (Sample.img ["project-image"; "project-image-animated"] (Some 10) true "b.gif")
     = true ->
     (exists e', elems (page_ready (Sample.page false)) !! 11 = Some e' /\
                 "loaded" ∈ classList e') /\
     handlers_on (TElem 11) "load" (page_ready (Sample.page false)) = [] /\
     handlers_on (TElem 11) "error" (page_ready (Sample.page false)) = [] /\
     step (page_ready (Sample.page false)) (ImageError 11) =
       upd_elem 11 (set_complete true) (page_ready (Sample.page false))) /\
  (complete (Sample.img ["project-image"; "project-image-animated"] (Some 10) true "b.gif")
     = false ->
     (exists e', elems (page_ready (Sample.page false)) !! 11 = Some e' /\
                 has_class "loaded" (classList e') =
                 has_class "loaded"
                   (classList (Sample.img ["project-image"; "project-image-animated"]
                                 (Some 10) true "b.gif"))) /\
     handlers_on (TElem 11) "load" (page_ready (Sample.page false)) = [(HImageLoad, false)] /\
     handlers_on (TElem 11) "error" (page_ready (Sample.page false)) =
       [(HImageError, false)]).
Proof.
  apply (images_at_startup (Sample.page false) 11); reflexivity.
Defined.

(** ** Hovering project links *)

Lemma assign_src_twice v w e : assign_src v (assign_src w e) = assign_src v e.
Proof.
  unfold assign_src. destruct (reflects_src (tagName e)) eqn:Hr.
  - change (tagName (set_src w (setAttribute "src" w e))) with (tagName e).
    rewrite Hr. destruct e. unfold set_src, setAttribute, set_attrs. simpl.
    f_equal. apply insert_insert_eq.
  - change (tagName (set_src w e)) with (tagName e). rewrite Hr. now destruct e.
Qed.

(** The two writes of the reload amount to one, of the value read. *)
Lemma link_mouseenter_elems img s :
  elems (link_mouseenter img s) = alter reload img (elems s).
Proof.
  unfold link_mouseenter. apply list_eq. intros j.
  destruct (elems s !! img) as [e|] eqn:He.
  - destruct (decide (img = j)) as [<-|Hne].
    + rewrite list_lookup_alter_eq, He. unfold reload. simpl.
      destruct (complete e); simpl; [exact He|].
      rewrite !list_lookup_alter_eq, He. simpl. now rewrite assign_src_twice.
    + rewrite list_lookup_alter_ne by exact Hne.
      destruct (complete e); simpl; [reflexivity|].
      now rewrite !list_lookup_alter_ne by exact Hne.
  - destruct (decide (img = j)) as [<-|Hne].
    + now rewrite list_lookup_alter_eq, He.
    + now rewrite list_lookup_alter_ne by exact Hne.
Qed.

Lemma link_mouseenter_listeners img s : listeners (link_mouseenter img s) = listeners s.
Proof.
  unfold link_mouseenter. destruct (elems s !! img) as [e|]; [|reflexivity].
  now destruct (negb (complete e)).
Qed.

Lemma listeners_on_remove_other t ty l s :
  l_target l <> t -> listeners_on t ty (remove_listener l s) = listeners_on t ty s.
Proof.
  intros Ht. rewrite listeners_on_remove.
  destruct (filter_all (fun l' => negb (bool_decide (l' = l))) (listeners_on t ty s))
    as [H _]; [|exact H].
  apply Forall_forall. intros x Hx. apply negb_true_iff, bool_decide_eq_false_2.
  intros ->. unfold listeners_on in Hx.
  apply list_elem_of_In, List.filter_In in Hx as [_ Hx].
  unfold listens in Hx. apply andb_true_iff in Hx as [Hx _].
  apply bool_decide_eq_true in Hx. contradiction.
Qed.

Lemma hover_table s link ty :
  listeners s = [] ->
  ty = "mouseenter" ->
  handlers_on (TElem link) ty (page_ready s) =
  if bool_decide (link ∈ querySelectorAll project_link s)
  then match querySelectorWithin link animated_image s with
       | Some img => [(HLinkMouseEnter img, true)]
       | None => []
       end
  else [].
Proof.
  intros Hl ->. rewrite (page_ready_elem_table s link _ Hl). unfold element_handlers.
  simpl.
  destruct (bool_decide (link ∈ querySelectorAll fragment_anchor s)),
    (bool_decide (link ∈ querySelectorAll project_image s)),
    (elems s !! link) as [e|]; try destruct (complete e); reflexivity.
Qed.

(** X15: hovering a project link with an animated image below it. The
    one-shot listener is there after startup. Running it changes no node but
    the image, and the image only when it is not complete: its [src]
    property was assigned the value read from it, so the property reads as
    before, the [src] attribute of an [img] now holds that value, and no
    other attribute and no class has changed. The hover uses up the listener
    of the link hovered and no other. *)
Theorem hover_rewrites_src_attribute s link e img :
  listeners s = [] ->
  elems s !! link = Some e ->
  matches_sel project_link e = true ->
  querySelectorWithin link animated_image s = Some img ->
  handlers_on (TElem link) "mouseenter" (page_ready s) = [(HLinkMouseEnter img, true)] /\
  (forall n, n <> img ->
     elems (step (page_ready s) (MouseEnter link)) !! n = elems (page_ready s) !! n) /\
  (forall x, elems (page_ready s) !! img = Some x ->
     exists x', elems (step (page_ready s) (MouseEnter link)) !! img = Some x' /\
       (complete x = true -> x' = x) /\
       (complete x = false ->
          x' = assign_src (src x) x /\
          src x' = src x /\
          (tagName x = "img" -> getAttribute "src" x' = Some (src x)) /\
          classList x' = classList x /\
          forall k, k <> "src" -> getAttribute k x' = getAttribute k x)) /\
  forall other ty,
    other <> link ->
    handlers_on (TElem other) ty (step (page_ready s) (MouseEnter link)) =
    handlers_on (TElem other) ty (page_ready s).
Proof.
  intros Hl He Hm Hq.
  assert (Hw : handlers_on (TElem link) "mouseenter" (page_ready s) =
               [(HLinkMouseEnter img, true)]).
  { rewrite (hover_table s link _ Hl eq_refl), Hq.
    now rewrite bool_decide_eq_true_2 by (apply querySelectorAll_spec; now exists e). }
  split; [exact Hw|].
  change (step (page_ready s) (MouseEnter link))
    with (fst (dispatch (TElem link) (mk_event "mouseenter") (page_ready s))).
  destruct (dispatch_single (TElem link) (mk_event "mouseenter") _ _ _ Hw)
    as (id & _ & ->).
  cbn [run_handler fst]. rewrite link_mouseenter_elems.
  change (elems (remove_listener ?l ?x)) with (elems x).
  split; [|split].
  - intros n Hn. now rewrite list_lookup_alter_ne by congruence.
  - intros x Hx. exists (reload x). rewrite list_lookup_alter_eq, Hx.
    split; [reflexivity|]. unfold reload. split.
    + now intros ->.
    + intros ->. destruct (assign_src_frame (src x) x) as (_ & Hc & _ & _ & _ & Hs & Ha).
      repeat split; try assumption.
      intros Ht. unfold assign_src. rewrite Ht.
      change (reflects_src "img") with true.
      unfold getAttribute, setAttribute. simpl. apply lookup_insert_eq.
  - intros other ty Hne. unfold handlers_on at 1. unfold listeners_on at 1.
    rewrite link_mouseenter_listeners.
    change (List.filter (listens (TElem other) ty) (listeners (remove_listener ?l ?x)))
      with (listeners_on (TElem other) ty (remove_listener l x)).
    rewrite listeners_on_remove_other; [reflexivity|]. simpl. congruence.
Qed.

Lemma hover_rewrites_src_attribute_witness :
  exists x',
    elems (step (page_ready (Sample.page false)) (MouseEnter 6)) !! 8 = Some x' /\
    src x' = "a.gif" /\ getAttribute "src" x' = Some "a.gif".
Proof.
  destruct (hover_rewrites_src_attribute (Sample.page false) 6 Sample.plain_link 8
              eq_refl eq_refl eq_refl eq_refl) as (_ & _ & H & _).
  destruct (H (Sample.img ["project-image"; "project-image-animated"] (Some 6) false "a.gif")
              eq_refl) as (x' & Hx' & _ & Hr).
  destruct (Hr eq_refl) as (_ & Hs & Ha & _).
  exists x'. split; [exact Hx'|]. split; [exact Hs | exact (Ha eq_refl)].
Defined.

(** X16: a hover over anything that is not a project link with an animated
    image below it runs no code of the script. *)
Theorem other_hovers_do_nothing s m :
  listeners s = [] ->
  (forall e, elems s !! m = Some e -> matches_sel project_link e = true ->
             querySelectorWithin m animated_image s = None) ->
  step (page_ready s) (MouseEnter m) = page_ready s.
Proof.
  intros Hl Hm.
  change (step (page_ready s) (MouseEnter m))
    with (fst (dispatch (TElem m) (mk_event "mouseenter") (page_ready s))).
  rewrite dispatch_none; [reflexivity|].
  change (ev_type (mk_event "mouseenter")) with "mouseenter".
  rewrite (hover_table s m _ Hl eq_refl).
  destruct (bool_decide (m ∈ querySelectorAll project_link s)) eqn:Hb; [|reflexivity].
  apply bool_decide_eq_true in Hb. apply querySelectorAll_spec in Hb as (e & He & Hp).
  now rewrite (Hm e He Hp).
Qed.

Lemma other_hovers_do_nothing_witness :
  step (page_ready (Sample.page false)) (MouseEnter 5) = page_ready (Sample.page false).
Proof.
  apply (other_hovers_do_nothing (Sample.page false) 5); [reflexivity|].
  intros e He. vm_compute in He. injection He as <-. intros Hp. vm_compute in Hp.
  discriminate.
Defined.

(** ** Repeated clicks *)

(** The click handler reads the document only: what it scrolls to does not
    depend on the calls made so far, and it writes nothing else. *)
Lemma anchor_click_calls a ev s :
  exists d, length d <= 1 /\
    forall calls,
      fst (anchor_click a ev (set_scrollCalls calls s)) = set_scrollCalls (calls ++ d) s.
Proof.
  destruct (bool_decide ((elems s !! a) ≫= getAttribute "href" = Some "#") ||
            bool_decide ((elems s !! a) ≫= getAttribute "href" = Some "")) eqn:Hb.
  - exists []. split; [simpl; lia|]. intros calls. rewrite anchor_click_unfold; cbv zeta.
    change (elems (set_scrollCalls calls s)) with (elems s).
    rewrite Hb, app_nil_r. reflexivity.
  - destruct (querySelector_str (str_of ((elems s !! a) ≫= getAttribute "href")) s)
      as [|[target|]] eqn:Hq.
    + exists []. split; [simpl; lia|]. intros calls. rewrite anchor_click_unfold; cbv zeta.
      change (elems (set_scrollCalls calls s)) with (elems s). rewrite Hb.
      change (querySelector_str ?x (set_scrollCalls calls s))
        with (querySelector_str x s).
      rewrite Hq, app_nil_r. reflexivity.
    + eexists [_]. split; [simpl; lia|]. intros calls. rewrite anchor_click_unfold; cbv zeta.
      change (elems (set_scrollCalls calls s)) with (elems s). rewrite Hb.
      change (querySelector_str ?x (set_scrollCalls calls s))
        with (querySelector_str x s).
      change (querySelector ?x (set_scrollCalls calls s)) with (querySelector x s).
      rewrite Hq. reflexivity.
    + exists []. split; [simpl; lia|]. intros calls. rewrite anchor_click_unfold; cbv zeta.
      change (elems (set_scrollCalls calls s)) with (elems s). rewrite Hb.
      change (querySelector_str ?x (set_scrollCalls calls s))
        with (querySelector_str x s).
      rewrite Hq, app_nil_r. reflexivity.
Qed.

Lemma set_scrollCalls_id s : set_scrollCalls (scrollCalls s) s = s.
Proof. now destruct s. Qed.

(** X17: the click listener of a fragment link stays registered and does
    the same thing every time: each click makes the same scroll call (or
    none), at most one, and changes nothing else on the page. *)
Theorem every_click_scrolls_alike s a :
  handlers_on (TElem a) "click" s = [(HAnchorClick, false)] ->
  exists d, length d <= 1 /\
    forall k, run s (repeat (Click a) k) =
              set_scrollCalls (scrollCalls s ++ concat (repeat d k)) s.
Proof.
  intros Hw. destruct (anchor_click_calls a (mk_event "click") s) as (d & Hd & Hcalls).
  exists d. split; [exact Hd|].
  assert (Hgen : forall k calls,
            run (set_scrollCalls calls s) (repeat (Click a) k) =
            set_scrollCalls (calls ++ concat (repeat d k)) s).
  { induction k as [|k IH]; intros calls.
    - simpl. now rewrite app_nil_r.
    - change (run (set_scrollCalls calls s) (repeat (Click a) (S k)))
        with (run (fst (dispatch (TElem a) (mk_event "click") (set_scrollCalls calls s)))
                (repeat (Click a) k)).
      rewrite anchor_dispatch
        by (now rewrite (handlers_on_listeners _ _ s) by reflexivity).
      rewrite Hcalls, IH. simpl. now rewrite app_assoc. }
  intros k. rewrite <- (Hgen k (scrollCalls s)). now rewrite set_scrollCalls_id.
Qed.

Lemma every_click_scrolls_alike_witness :
  exists d, length d <= 1 /\
    forall k, run Sample.loaded_page (repeat (Click 1) k) =
              set_scrollCalls (scrollCalls Sample.loaded_page ++ concat (repeat d k))
                Sample.loaded_page.
Proof.
  apply (every_click_scrolls_alike Sample.loaded_page 1). reflexivity.
Defined.

(** ** The classes of the body *)

Lemma elem_of_class_add c c' cs : c ∈ class_add c' cs <-> c ∈ cs \/ c = c'.
Proof.
  unfold class_add, has_class. destruct (bool_decide (c' ∈ cs)) eqn:Hb.
  - apply bool_decide_eq_true in Hb. split; [now left | intros [H | ->]; assumption].
  - rewrite elem_of_app, list_elem_of_singleton. reflexivity.
Qed.

Lemma elem_of_class_remove c c' cs : c ∈ class_remove c' cs <-> c ∈ cs /\ c <> c'.
Proof.
  unfold class_remove. rewrite list_elem_of_In, List.filter_In, <- list_elem_of_In.
  rewrite negb_true_iff, String.eqb_neq. reflexivity.
Qed.


(** A persistent listener that [init] registered is still the only one of
    its target and type after any run. *)
Lemma settled_handler s ins t ty h :
  listeners s = [] ->
  handlers_on t ty (page_ready s) = [(h, false)] ->
  handlers_on t ty (run (page_ready s) ins) = [(h, false)].
Proof.
  intros Hl Hh. destruct (page_ready_settled s Hl) as (Hni & Hp & _).
  destruct (run_pruned (page_ready s) ins Hni Hp) as (Hpr & _).
  exact (pruned_handlers_on _ _ t ty h Hpr Hh).
Qed.



Lemma body_handlers s ins :
  listeners s = [] ->
  handlers_on TBody "keydown" (run (page_ready s) ins) = [(HKeydown, false)] /\
  handlers_on TBody "mousedown" (run (page_ready s) ins) = [(HMousedown, false)].
Proof.
  intros Hl. split; apply settled_handler; try exact Hl;
    rewrite (page_ready_table s _ _ Hl), deferred_init_elsewhere by discriminate;
    reflexivity.
Qed.

(** X19: keyboard mode. At any time after startup, pressing Tab adds
    [using-keyboard] to the body, any other key runs nothing, and a mouse
    press removes the class; both leave the other classes of the body and
    the rest of the page alone. *)
Theorem keyboard_class_follows_input s ins :
  listeners s = [] ->
  step (run (page_ready s) ins) (KeyDown "Tab") =
    set_bodyClasses (class_add "using-keyboard" (bodyClasses (run (page_ready s) ins)))
      (run (page_ready s) ins) /\
  (forall k, k <> "Tab" ->
     step (run (page_ready s) ins) (KeyDown k) = run (page_ready s) ins) /\
  step (run (page_ready s) ins) MouseDown =
    set_bodyClasses (class_remove "using-keyboard" (bodyClasses (run (page_ready s) ins)))
      (run (page_ready s) ins) /\
  "using-keyboard" ∈ bodyClasses (step (run (page_ready s) ins) (KeyDown "Tab")) /\
  "using-keyboard" ∉ bodyClasses (step (run (page_ready s) ins) MouseDown).
Proof.
  intros Hl. destruct (body_handlers s ins Hl) as [Hk Hm].
  set (r := run (page_ready s) ins) in *.
  assert (Hkey : forall k, step r (KeyDown k) = body_keydown (Event "keydown" k false) r).
  { intros k. change (step r (KeyDown k))
      with (fst (dispatch TBody (Event "keydown" k false) r)).
    now destruct (dispatch_single TBody (Event "keydown" k false) r _ _ Hk)
      as (id & _ & ->). }
  assert (Hmouse : step r MouseDown = body_mousedown r).
  { change (step r MouseDown) with (fst (dispatch TBody (mk_event "mousedown") r)).
    now destruct (dispatch_single TBody (mk_event "mousedown") r _ _ Hm)
      as (id & _ & ->). }
  split; [rewrite Hkey; reflexivity|].
  split.
  { intros k Hne. rewrite Hkey. unfold body_keydown.
    change (ev_key (Event "keydown" k false)) with k.
    apply String.eqb_neq in Hne. now rewrite Hne. }
  split; [rewrite Hmouse; reflexivity|].
  split.
  - rewrite Hkey. apply elem_of_class_add. now right.
  - rewrite Hmouse. unfold body_mousedown.
    change (bodyClasses (set_bodyClasses ?x _)) with x.
    rewrite elem_of_class_remove. now intros [_ H].
Qed.

Lemma keyboard_class_follows_input_witness :
  step (run (page_ready (Sample.page false)) [MouseDown]) (KeyDown "Tab") =
    set_bodyClasses
      (class_add "using-keyboard"
         (bodyClasses (run (page_ready (Sample.page false)) [MouseDown])))
      (run (page_ready (Sample.page false)) [MouseDown]) /\
  (forall k, k <> "Tab" ->
     step (run (page_ready (Sample.page false)) [MouseDown]) (KeyDown k) =
     run (page_ready (Sample.page false)) [MouseDown]) /\
  step (run (page_ready (Sample.page false)) [MouseDown]) MouseDown =
    set_bodyClasses
      (class_remove "using-keyboard"
         (bodyClasses (run (page_ready (Sample.page false)) [MouseDown])))
      (run (page_ready (Sample.page false)) [MouseDown]) /\
  "using-keyboard" ∈
    bodyClasses (step (run (page_ready (Sample.page false)) [MouseDown]) (KeyDown "Tab")) /\
  "using-keyboard" ∉
    bodyClasses (step (run (page_ready (Sample.page false)) [MouseDown]) MouseDown).
Proof.
  apply (keyboard_class_follows_input (Sample.page false) [MouseDown]). reflexivity.
Defined.

(** ** The listeners at any later time *)

Ltac table_case H :=
  lazymatch type of H with
  | _ ∈ _ ++ _ => apply elem_of_app in H as [H|H]; table_case H
  | _ ∈ (if ?c then _ else _) => let E := fresh "E" in destruct c eqn:E; table_case H
  | _ ∈ match ?x with Some _ => _ | None => _ end => destruct x; table_case H
  | _ ∈ [] => inversion H
  | _ ∈ [_] => apply list_elem_of_singleton in H; injection H as -> ->
  end.

Ltac table_done :=
  repeat match goal with
         | E : _ && _ = true |- _ => apply andb_true_iff in E as [? ?]
         end;
  repeat match goal with
         | E : bool_decide _ = true |- _ => apply bool_decide_eq_true in E
         end;
  repeat match goal with
         | E : String.eqb _ _ = true |- _ => apply String.eqb_eq in E
         end;
  subst; try discriminate; try reflexivity.

Lemma table_shapes s t ty h o :
  (h, o) ∈ deferred_init s t ty ++ wired s t ty -> shape_ok t ty h o = true.
Proof.
  intros H. apply elem_of_app in H as [H|H].
  - unfold deferred_init in H. table_case H. table_done.
  - destruct t; unfold wired, element_handlers, load_logger in H;
      table_case H; table_done.
Qed.

Lemma listens_self l : listens (l_target l) (l_type l) l = true.
Proof.
  unfold listens. rewrite bool_decide_eq_true_2 by reflexivity.
  now rewrite String.eqb_refl.
Qed.

(** After startup no listener is added, only one-shot listeners go away,
    and every listener has one of the shapes of the table. *)
Lemma listeners_settled s ins :
  listeners s = [] ->
  pruned (page_ready s) (run (page_ready s) ins) /\
  Forall (fun l => listener_ok l = true) (listeners (run (page_ready s) ins)).
Proof.
  intros Hl. destruct (page_ready_settled s Hl) as (Hni & Hp & _).
  destruct (run_pruned (page_ready s) ins Hni Hp) as (Hpr & _).
  split; [exact Hpr|]. destruct Hpr as (f & _ & ->).
  apply Forall_forall. intros l Hin.
  apply list_elem_of_In, List.filter_In in Hin as [Hin _].
  apply (table_shapes s). rewrite <- (page_ready_table s _ _ Hl).
  unfold handlers_on, listeners_on.
  apply (list_elem_of_fmap_2 (fun l => (l_handler l, l_once l))).
  apply list_elem_of_In, List.filter_In. split; [exact Hin | apply listens_self].
Qed.







(** ** What each input can change *)

Lemma dispatch_frame {B : Type} (proj : state -> B) (ok : handler -> Prop) t e s :
  (forall l x, proj (remove_listener l x) = proj x) ->
  (forall h ev x, ok h -> proj (fst (run_handler h t ev x)) = proj x) ->
  Forall (fun l => ok (l_handler l)) (listeners_on t (ev_type e) s) ->
  proj (fst (dispatch t e s)) = proj s.
Proof.
  intros Hrm Hrun. unfold dispatch. generalize (listeners_on t (ev_type e) s) as ls.
  assert (Hgen : forall ls se, Forall (fun l => ok (l_handler l)) ls ->
            proj (fst (fold_left (invoke t) ls se)) = proj (fst se)).
  { induction ls as [|l ls IH]; intros [s' e'] Hls; simpl; [reflexivity|].
    apply Forall_cons in Hls as [Hl Hls]. rewrite (IH _ Hls).
    destruct (registered l s'); [|reflexivity].
    rewrite (Hrun _ _ _ Hl). now destruct (l_once l); [apply Hrm|]. }
  intros ls Hls. now rewrite Hgen.
Qed.

Lemma run_timers_proj {B : Type} (proj : state -> B) due s :
  (forall x s, proj (set_now x s) = proj s) ->
  (forall s, proj (setVhProperty s) = proj s) ->
  proj (run_timers due s) = proj s.
Proof.
  intros Hnow Hvh. revert s. induction due as [|t due IH]; intros s; simpl; [reflexivity|].
  rewrite IH. destruct (t_cb t); simpl; now rewrite Hvh, Hnow.
Qed.

Lemma advance_proj {B : Type} (proj : state -> B) d s :
  (forall x s, proj (set_now x s) = proj s) ->
  (forall x s, proj (set_timers x s) = proj s) ->
  (forall s, proj (setVhProperty s) = proj s) ->
  proj (advance d s) = proj s.
Proof.
  intros Hnow Htm Hvh. unfold advance.
  now rewrite Hnow, (run_timers_proj proj _ _ Hnow Hvh), Htm.
Qed.

Lemma observer_callback_proj {B : Type} (proj : state -> B) es s :
  (forall n f x, proj (upd_elem n f x) = proj x) ->
  (forall o x, proj (set_observed o x) = proj x) ->
  proj (observer_callback es s) = proj s.
Proof.
  intros Hupd Hobs. revert s. induction es as [|[t b] es IH]; intros s; [reflexivity|].
  rewrite observer_callback_cons, IH. destruct b; [|reflexivity].
  unfold unobserve, reveal. destruct (observed _); now rewrite ?Hobs, Hupd.
Qed.

Lemma settled_listeners_on t ty x :
  Forall (fun l => listener_ok l = true) (listeners x) ->
  Forall (fun l => exists o, shape_ok t ty (l_handler l) o = true) (listeners_on t ty x).
Proof.
  intros H. apply Forall_forall. intros l Hl. unfold listeners_on in Hl.
  apply list_elem_of_In, List.filter_In in Hl as [Hin Hm].
  rewrite Forall_forall in H. specialize (H l (proj2 (list_elem_of_In _ _) Hin)).
  unfold listens in Hm. apply andb_true_iff in Hm as [Ht Hty].
  apply bool_decide_eq_true in Ht. apply String.eqb_eq in Hty.
  exists (l_once l). unfold listener_ok in H. now rewrite Ht, Hty in H.
Qed.

Ltac absurd_input :=
  exfalso;
  match goal with
  | H : forall _, _ <> _ |- _ => eapply H; reflexivity
  | H : _ <> _ |- _ => apply H; reflexivity
  end.

Ltac handler_frame :=
  simpl;
  unfold anchor_click, anchor_click_run, link_mouseenter, motion_change, body_keydown,
    window_resize, clearTimeout, service_worker_load;
  repeat match goal with
         | |- context [if ?c then _ else _] => destruct c
         | |- context [match ?x with QThrow => _ | QResult _ => _ end] => destruct x
         | |- context [match ?x with Some _ => _ | None => _ end] => destruct x
         end;
  reflexivity.

Ltac settled_dispatch Hok :=
  match goal with
  | |- ?proj (fst (dispatch ?t ?e ?x)) = _ =>
      rewrite (dispatch_frame (fun y => proj y) (fun h => exists o, shape_ok t (ev_type e) h o = true)
                 t e x);
      [ reflexivity
      | reflexivity
      | let h := fresh "h" in let o := fresh "o" in let Ho := fresh "Ho" in
        intros h ? ? [o Ho]; destruct h; simpl in Ho; try discriminate Ho;
        try absurd_input; handler_frame
      | apply settled_listeners_on; exact Hok ]
  end.

(** Each field of the page is written on some inputs only. *)
Lemma step_footprint r i :
  parsed r ->
  Forall (fun l => listener_ok l = true) (listeners r) ->
  ((forall n, i <> Click n) -> scrollCalls (step r i) = scrollCalls r) /\
  ((forall n, i <> ImageError n) -> i <> WindowLoad ->
   (forall err, i <> RegistrationSettled err) -> console (step r i) = console r) /\
  ((forall n, i <> MouseEnter n) -> srcWrites (step r i) = srcWrites r) /\
  ((forall d, i <> Advance d) -> vhWrites (step r i) = vhWrites r /\ vh (step r i) = vh r) /\
  ((forall b, i <> MotionPreference b) -> (forall k, i <> KeyDown k) -> i <> MouseDown ->
     bodyClasses (step r i) = bodyClasses r) /\
  ((forall h, i <> Resize h) -> i <> OrientationChange -> (forall d, i <> Advance d) ->
     timers (step r i) = timers r) /\
  ((forall h, i <> Resize h) -> i <> OrientationChange ->
     next_timer (step r i) = next_timer r /\ resizeTimer (step r i) = resizeTimer r) /\
  ((forall es, i <> Intersect es) -> observed (step r i) = observed r) /\
  ((forall n, i <> ImageLoad n) -> (forall n, i <> ImageError n) ->
   (forall n, i <> MouseEnter n) -> (forall es, i <> Intersect es) ->
     elems (step r i) = elems r) /\
  (i <> WindowLoad -> registerCalls (step r i) = registerCalls r).
Proof.
  intros Hp Hok. unfold parsed in Hp.
  destruct i; repeat split; intros; try absurd_input.
  all: try (simpl; rewrite Hp; reflexivity).
  all: try (apply advance_proj; reflexivity).
  all: try (apply advance_elems).
  all: try (simpl; destruct (observed r); [apply observer_callback_proj|]; reflexivity).
  all: try (simpl; destruct (registrations r); reflexivity).
  all: unfold step.
  all: try (settled_dispatch Hok).
Qed.



(** ** Pending timeouts *)

Lemma Forall_insert_timer (P : timer -> Prop) t q :
  Forall P (insert_timer t q) <-> P t /\ Forall P q.
Proof.
  induction q as [|u q IH]; simpl.
  - rewrite Forall_singleton, Forall_nil. tauto.
  - destruct (t_due t <? t_due u).
    + now rewrite Forall_cons.
    + rewrite !Forall_cons, IH. tauto.
Qed.

Lemma filter_insert_timer_out f t q :
  f t = false -> List.filter f (insert_timer t q) = List.filter f q.
Proof.
  intros Hf. induction q as [|u q IH]; simpl.
  - now rewrite Hf.
  - destruct (t_due t <? t_due u); simpl; [now rewrite Hf|]. now rewrite IH.
Qed.

Lemma length_filter_insert_timer f t q :
  length (List.filter f (insert_timer t q)) =
  (if f t then 1 else 0) + length (List.filter f q).
Proof.
  induction q as [|u q IH]; simpl.
  - now destruct (f t).
  - destruct (t_due t <? t_due u); simpl.
    + now destruct (f t).
    + destruct (f u); simpl; rewrite IH; destruct (f t); lia.
Qed.

Lemma Forall_filter_sub {A : Type} (P : A -> Prop) f (l : list A) :
  Forall P l -> Forall P (List.filter f l).
Proof.
  intros H. apply Forall_forall. intros x Hx. rewrite Forall_forall in H. apply H.
  apply list_elem_of_In, List.filter_In in Hx as [Hx _]. now apply list_elem_of_In.
Qed.

Lemma length_filter_filter {A : Type} (f g : A -> bool) (l : list A) :
  length (List.filter f (List.filter g l)) <= length (List.filter f l).
Proof.
  induction l as [|x l IH]; simpl; [lia|].
  destruct (g x), (f x) eqn:Hf; simpl; rewrite ?Hf; simpl; lia.
Qed.

Lemma timers_inv_fields s s' :
  timers s' = timers s -> next_timer s' = next_timer s -> resizeTimer s' = resizeTimer s ->
  timers_inv s -> timers_inv s'.
Proof. unfold timers_inv. now intros -> -> ->. Qed.

Lemma window_resize_timers s :
  timers (window_resize s) =
    insert_timer (Timer (next_timer s) (now s + 100) CbResizeArrow)
      (match resizeTimer s with
       | Some i => List.filter (fun t => negb (t_id t =? i)) (timers s)
       | None => timers s
       end) /\
  next_timer (window_resize s) = S (next_timer s) /\
  resizeTimer (window_resize s) = Some (next_timer s).
Proof. unfold window_resize, clearTimeout. now destruct (resizeTimer s). Qed.

Lemma cleared_list (r : option nat) q :
  Forall (fun t => if is_resize_timer t then r = Some (t_id t) else r <> Some (t_id t)) q ->
  List.filter is_resize_timer
    (match r with
     | Some i => List.filter (fun t => negb (t_id t =? i)) q
     | None => q
     end) = [] /\
  List.filter (fun t => negb (is_resize_timer t))
    (match r with
     | Some i => List.filter (fun t => negb (t_id t =? i)) q
     | None => q
     end) = List.filter (fun t => negb (is_resize_timer t)) q.
Proof.
  induction 1 as [|t q Ht _ [IH1 IH2]].
  - now destruct r.
  - destruct r as [i|].
    + destruct (is_resize_timer t) eqn:Hk.
      * injection Ht as ->. cbn [List.filter]. rewrite (Nat.eqb_refl (t_id t)). cbn [negb].
        rewrite Hk. cbn [negb]. now split.
      * assert (Hne : (t_id t =? i) = false) by (apply Nat.eqb_neq; congruence).
        cbn [List.filter]. rewrite Hne. cbn [negb List.filter]. rewrite Hk. cbn [negb].
        split; [exact IH1 | now rewrite IH2].
    + destruct (is_resize_timer t) eqn:Hk; [discriminate|].
      cbn [List.filter]. rewrite Hk. split; [exact IH1 | reflexivity].
Qed.

(** A resize clears every pending timeout of the resize listener and no
    other. *)
Lemma cleared_timers s :
  timers_inv s ->
  List.filter is_resize_timer
    (match resizeTimer s with
     | Some i => List.filter (fun t => negb (t_id t =? i)) (timers s)
     | None => timers s
     end) = [] /\
  List.filter (fun t => negb (is_resize_timer t))
    (match resizeTimer s with
     | Some i => List.filter (fun t => negb (t_id t =? i)) (timers s)
     | None => timers s
     end) = List.filter (fun t => negb (is_resize_timer t)) (timers s).
Proof. intros (_ & _ & Hnames & _). now apply cleared_list. Qed.

Lemma window_resize_inv s : timers_inv s -> timers_inv (window_resize s).
Proof.
  intros Hinv. destruct (cleared_timers s Hinv) as [Hnone _].
  destruct Hinv as (Hids & Hrt & Hnames & _).
  destruct (window_resize_timers s) as (Ht & Hn & Hr).
  unfold timers_inv. rewrite Ht, Hn, Hr.
  set (q := match resizeTimer s with
            | Some i => List.filter (fun t => negb (t_id t =? i)) (timers s)
            | None => timers s
            end) in *.
  assert (Hq : Forall (fun t => t_id t < next_timer s) q)
    by (unfold q; destruct (resizeTimer s); [apply Forall_filter_sub|]; exact Hids).
  assert (Hqn : Forall (fun t => is_resize_timer t = false) q).
  { apply Forall_forall. intros t Hin. destruct (is_resize_timer t) eqn:Hk; [|reflexivity].
    assert (Hin' : In t (List.filter is_resize_timer q))
      by (apply List.filter_In; split; [now apply list_elem_of_In | exact Hk]).
    rewrite Hnone in Hin'. destruct Hin'. }
  split; [|split; [|split]].
  - apply Forall_insert_timer. split; [simpl; lia|].
    eapply Forall_impl; [exact Hq|]. simpl. intros; lia.
  - intros id [= <-]. lia.
  - apply Forall_insert_timer. split; [reflexivity|].
    rewrite Forall_forall in Hq, Hqn. apply Forall_forall. intros t Hin.
    rewrite (Hqn t Hin). specialize (Hq t Hin). intros [= E]. lia.
  - rewrite length_filter_insert_timer. simpl. now rewrite Hnone.
Qed.

Lemma window_orientationchange_inv s :
  timers_inv s -> timers_inv (window_orientationchange s).
Proof.
  intros (Hids & Hrt & Hnames & Hone). unfold timers_inv, window_orientationchange.
  simpl. split; [|split; [|split]].
  - apply Forall_insert_timer. split; [simpl; lia|].
    eapply Forall_impl; [exact Hids|]. simpl. intros; lia.
  - intros id Hid. specialize (Hrt id Hid). lia.
  - apply Forall_insert_timer. split; [|exact Hnames].
    simpl. intros E. specialize (Hrt _ E). lia.
  - now rewrite length_filter_insert_timer.
Qed.

Lemma advance_inv d s : timers_inv s -> timers_inv (advance d s).
Proof.
  intros (Hids & Hrt & Hnames & Hone).
  destruct (advance_fields d s) as (Ht & _).
  unfold timers_inv. rewrite Ht.
  rewrite (advance_proj next_timer), (advance_proj resizeTimer) by reflexivity.
  split; [|split; [|split]].
  - now apply Forall_filter_sub.
  - exact Hrt.
  - now apply Forall_filter_sub.
  - etransitivity; [apply length_filter_filter | exact Hone].
Qed.

Lemma window_handlers s ins :
  listeners s = [] ->
  handlers_on TWindow "resize" (run (page_ready s) ins) = [(HResize, false)] /\
  handlers_on TWindow "orientationchange" (run (page_ready s) ins) =
    [(HOrientationChange, false)].
Proof.
  intros Hl. destruct (page_ready_settled s Hl) as (_ & _ & _ & H1 & H2 & _).
  split; now apply settled_handler.
Qed.

Lemma resize_step s h :
  handlers_on TWindow "resize" s = [(HResize, false)] ->
  step s (Resize h) = window_resize (set_innerHeight h s).
Proof.
  intros Hw. change (step s (Resize h))
    with (fst (dispatch TWindow (mk_event "resize") (set_innerHeight h s))).
  assert (Hw' : handlers_on TWindow (ev_type (mk_event "resize")) (set_innerHeight h s) =
                [(HResize, false)]) by exact Hw.
  now destruct (dispatch_single TWindow (mk_event "resize") _ _ _ Hw') as (id & _ & ->).
Qed.

Lemma orientationchange_step s :
  handlers_on TWindow "orientationchange" s = [(HOrientationChange, false)] ->
  step s OrientationChange = window_orientationchange s.
Proof.
  intros Hw. change (step s OrientationChange)
    with (fst (dispatch TWindow (mk_event "orientationchange") s)).
  now destruct (dispatch_single TWindow (mk_event "orientationchange") s _ _ Hw)
    as (id & _ & ->).
Qed.

Lemma run_snoc s ins i : run s (ins ++ [i]) = step (run s ins) i.
Proof. unfold run. now rewrite fold_left_app. Qed.

Lemma timers_inv_run s ins :
  listeners s = [] -> timers s = [] -> timers_inv (run (page_ready s) ins).
Proof.
  intros Hl Ht. induction ins as [|i ins IH] using rev_ind.
  - destruct (page_ready_settled s Hl) as (_ & _ & _ & _ & _ & Htm).
    assert (Hr : resizeTimer (page_ready s) = None).
    { rewrite (page_ready_eq s Hl). unfold init_ready.
      assert (Ha : forall t ty h o x, resizeTimer (addEventListener t ty h o x) =
                                      resizeTimer x) by reflexivity.
      now rewrite !Ha. }
    unfold timers_inv. simpl. rewrite Htm, Ht, Hr. simpl.
    repeat split; try constructor; try discriminate. lia.
  - rewrite run_snoc. set (r := run (page_ready s) ins) in *.
    destruct (window_handlers s ins Hl) as [Hres Hori]. fold r in Hres, Hori.
    destruct (listeners_settled s ins Hl) as (_ & Hok). fold r in Hok.
    destruct (page_ready_settled s Hl) as (Hni & Hp & _).
    destruct (run_pruned (page_ready s) ins Hni Hp) as (_ & Hpr & _). fold r in Hpr.
    destruct (step_footprint r i Hpr Hok) as (_ & _ & _ & _ & _ & Htm & Hnr & _).
    destruct i;
      try (destruct Hnr as [Hn' Hr']; [discriminate | discriminate |];
           apply (timers_inv_fields r); [apply Htm; discriminate | exact Hn' | exact Hr'
                                        | exact IH]).
    + rewrite (resize_step r height Hres). apply window_resize_inv.
      now apply (timers_inv_fields r).
    + rewrite (orientationchange_step r Hori). now apply window_orientationchange_inv.
    + now apply advance_inv.
Qed.

(** X22: at any time after startup at most one timeout of the resize
    listener is pending, and a resize neither cancels nor delays a pending
    recomputation scheduled by an orientation change: the timeouts of the
    orientation listener in the queue are the same before and after. *)
Theorem resize_spares_orientation_timers s ins h :
  listeners s = [] ->
  timers s = [] ->
  length (List.filter is_resize_timer (timers (run (page_ready s) ins))) <= 1 /\
  List.filter (fun t => negb (is_resize_timer t))
    (timers (step (run (page_ready s) ins) (Resize h))) =
  List.filter (fun t => negb (is_resize_timer t)) (timers (run (page_ready s) ins)).
Proof.
  intros Hl Ht. pose proof (timers_inv_run s ins Hl Ht) as Hinv.
  split; [apply Hinv|].
  destruct (window_handlers s ins Hl) as [Hres _].
  rewrite (resize_step _ h Hres).
  destruct (window_resize_timers (set_innerHeight h (run (page_ready s) ins)))
    as (Htm & _).
  rewrite Htm, filter_insert_timer_out by reflexivity.
  exact (proj2 (cleared_timers (set_innerHeight h (run (page_ready s) ins))
                  (timers_inv_fields _ _ eq_refl eq_refl eq_refl Hinv))).
Qed.

Lemma resize_spares_orientation_timers_witness :
  length (List.filter is_resize_timer
            (timers (run (page_ready (Sample.page false))
                       [Resize 700; OrientationChange]))) <= 1 /\
  List.filter (fun t => negb (is_resize_timer t))
    (timers (step (run (page_ready (Sample.page false)) [Resize 700; OrientationChange])
               (Resize 600))) =
  List.filter (fun t => negb (is_resize_timer t))
    (timers (run (page_ready (Sample.page false)) [Resize 700; OrientationChange])).
Proof.
  apply (resize_spares_orientation_timers (Sample.page false)
           [Resize 700; OrientationChange] 600); reflexivity.
Defined.

(** ** The nodes after startup *)

Lemma only_marks_refl e : only_marks e e.
Proof. unfold only_marks. repeat split; auto. Qed.

Lemma only_marks_add c :
  c = "animate-in" \/ c = "loaded" \/ c = "error" -> keeps only_marks (add_class c).
Proof.
  intros Hc x y (H1 & H2 & H3 & H4 & H5 & H6 & H7 & H8 & H9 & H10).
  unfold only_marks. simpl. repeat split; try assumption.
  - intros c' Hin. apply elem_of_class_add. left. now apply H9.
  - intros c' Hin. apply elem_of_class_add in Hin as [Hin | ->]; [now apply H10|].
    right. exact Hc.
Qed.

Lemma only_marks_complete : keeps only_marks (set_complete true).
Proof.
  intros x y (H1 & H2 & H3 & H4 & H5 & H6 & H7 & H8 & H9 & H10).
  unfold only_marks. simpl. repeat split; assumption.
Qed.

Lemma only_marks_reload : keeps only_marks reload.
Proof.
  intros x y (H1 & H2 & H3 & H4 & H5 & H6 & H7 & H8 & H9 & H10).
  unfold reload. destruct (complete y) eqn:Hc; [now repeat split|].
  destruct (assign_src_frame (src y) y) as (F1 & F2 & F3 & F4 & F5 & F6 & F7).
  unfold only_marks. rewrite F1, F2, F3, F4, F5, F6.
  assert (G1 : offsetTop (assign_src (src y) y) = offsetTop y)
    by (unfold assign_src; now destruct (reflects_src _)).
  assert (G2 : offsetHeight (assign_src (src y) y) = offsetHeight y)
    by (unfold assign_src; now destruct (reflects_src _)).
  rewrite G1, G2. repeat split; try assumption.
  - intros k Hk. rewrite F7 by exact Hk. now apply H2.
  - intros Hx. discriminate (H8 Hx).
Qed.

Lemma shape_handler t ty h o :
  shape_ok t ty h o = true ->
  match ty with
  | "click" => h = HAnchorClick
  | "load" => h = HImageLoad \/ h = HPerfLoad \/ h = HServiceWorkerLoad
  | "error" => h = HImageError
  | "mouseenter" => exists img, h = HLinkMouseEnter img
  | _ => True
  end.
Proof.
  intros H. unfold shape_ok in H.
  destruct t, h; try discriminate H; apply andb_true_iff in H as [H _];
    apply String.eqb_eq in H; subst ty; simpl; eauto.
Qed.

Lemma settled_step_marks r0 r i :
  parsed r ->
  Forall (fun l => listener_ok l = true) (listeners r) ->
  elems_rel only_marks r0 r -> elems_rel only_marks r0 (step r i).
Proof.
  intros Hp Hok Hrel.
  destruct (step_footprint r i Hp Hok) as (_ & _ & _ & _ & _ & _ & _ & _ & Hel & _).
  destruct i;
    try (eapply elems_rel_eq; [apply Hel; discriminate | exact Hrel]).
  - change (step r (ImageLoad n))
      with (fst (dispatch (TElem n) (mk_event "load") (upd_elem n (set_complete true) r))).
    apply (dispatch_rel only_marks r0
             (fun h => h = HImageLoad \/ h = HPerfLoad \/ h = HServiceWorkerLoad)).
    + intros h t e s [-> | [-> | ->]] Hs; simpl; [|exact Hs|exact Hs].
      destruct t; try exact Hs.
      apply upd_elem_rel; [apply only_marks_add; auto | exact Hs].
    + eapply Forall_impl; [apply (settled_listeners_on (TElem n) "load"); exact Hok|].
      intros l [o Ho]. exact (shape_handler _ "load" _ _ Ho).
    + apply upd_elem_rel; [apply only_marks_complete | exact Hrel].
  - change (step r (ImageError n))
      with (fst (dispatch (TElem n) (mk_event "error") (upd_elem n (set_complete true) r))).
    apply (dispatch_rel only_marks r0 (fun h => h = HImageError)).
    + intros h t e s -> Hs; simpl. destruct t; try exact Hs.
      apply upd_elem_rel; [apply only_marks_add; auto | exact Hs].
    + eapply Forall_impl; [apply (settled_listeners_on (TElem n) "error"); exact Hok|].
      intros l [o Ho]. exact (shape_handler _ "error" _ _ Ho).
    + apply upd_elem_rel; [apply only_marks_complete | exact Hrel].
  - change (step r (MouseEnter n))
      with (fst (dispatch (TElem n) (mk_event "mouseenter") r)).
    apply (dispatch_rel only_marks r0 (fun h => exists img, h = HLinkMouseEnter img)).
    + intros h t e s [img ->] Hs. cbn [run_handler fst].
      apply (elems_rel_eq only_marks r0 (upd_elem img reload s));
        [apply link_mouseenter_elems|].
      apply upd_elem_rel; [apply only_marks_reload | exact Hs].
    + eapply Forall_impl; [apply (settled_listeners_on (TElem n) "mouseenter"); exact Hok|].
      intros l [o Ho]. exact (shape_handler _ "mouseenter" _ _ Ho).
    + exact Hrel.
  - simpl. destruct (observed r); [|exact Hrel].
    apply observer_callback_rel; [apply only_marks_add; auto | exact Hrel].
Qed.

Lemma settled_facts s ins :
  listeners s = [] ->
  parsed (run (page_ready s) ins) /\
  Forall (fun l => listener_ok l = true) (listeners (run (page_ready s) ins)).
Proof.
  intros Hl. destruct (listeners_settled s ins Hl) as (_ & Hok).
  destruct (page_ready_settled s Hl) as (Hni & Hp & _).
  destruct (run_pruned (page_ready s) ins Hni Hp) as (_ & Hpr & _).
  now split.
Qed.

Lemma settled_run_marks s ins :
  listeners s = [] ->
  elems_rel only_marks (page_ready s) (run (page_ready s) ins).
Proof.
  intros Hl. induction ins as [|i ins IH] using rev_ind.
  - apply elems_rel_refl, only_marks_refl.
  - rewrite run_snoc. destruct (settled_facts s ins Hl) as [Hp Hok].
    now apply settled_step_marks.
Qed.



Lemma init_tail_after_links c :
  elems (init_tail c) =
  elems (secureExternalLinks
           (initGifPreloading (optimizeImageLoading (initSmoothScroll c)))).
Proof. apply init_tail_elems. Qed.

Lemma initGifPreloading_elems s : elems (initGifPreloading s) = elems s.
Proof.
  unfold initGifPreloading. apply (forEach_frame elems).
  intros n k x. now destruct (querySelectorWithin n _ x).
Qed.

(** X24: the hardening of external links is permanent. Every anchor that
    has [target="_blank"] when the script starts has a [rel] containing
    [noopener] after startup and after every later sequence of inputs. *)
Theorem blank_links_stay_hardened s n e ins :
  listeners s = [] ->
  elems s !! n = Some e ->
  matches_sel blank_target e = true ->
  exists e' r,
    elems (run (page_ready s) ins) !! n = Some e' /\
    getAttribute "rel" e' = Some r /\ JS.occurs_in "noopener" r /\
    matches_sel blank_target e' = true.
Proof.
  intros Hl He Hm.
  destruct (front_wiring (entry s)) as (_ & _ & Hw).
  set (c := initScrollAnimations (addStaggerDelay (checkReducedMotion (entry s)))) in *.
  assert (Hes : elems (entry s) !! n = Some e)
    by (now rewrite (entry_frame elems) by reflexivity).
  destruct (elems_rel_lookup _ _ _ n e Hw Hes) as (ef & Hef & (Ht & Ha & _)).
  assert (Hmf : matches_sel blank_target ef = true).
  { unfold blank_target in *. simpl in *. unfold getAttribute in *. now rewrite Ht, Ha. }
  assert (Hpr : elems (page_ready s) !! n = Some (secure_link ef)).
  { rewrite (page_ready_eq s Hl), init_ready_split. fold c.
    rewrite init_tail_after_links.
    rewrite (secureExternalLinks_lookup _ n ef)
      by (now rewrite initGifPreloading_elems).
    now rewrite Hmf. }
  destruct (elems_rel_lookup _ _ _ n _ (settled_run_marks s ins Hl) Hpr)
    as (e' & He' & (Ht' & Ha' & _)).
  destruct (secure_link_contains ef) as (r & Hr & Hocc).
  exists e', r. split; [exact He'|]. split; [|split; [exact Hocc|]].
  - now rewrite Ha' by discriminate.
  - rewrite <- Hmf, <- (secure_link_blank ef).
    unfold blank_target. simpl. now rewrite Ht', Ha' by discriminate.
Qed.

Lemma blank_links_stay_hardened_witness :
  exists e' r,
    elems (run (page_ready Sample.early_page) [Click 6; MouseEnter 6]) !! 6 = Some e' /\
    getAttribute "rel" e' = Some r /\ JS.occurs_in "noopener" r /\
    matches_sel blank_target e' = true.
Proof.
  apply (blank_links_stay_hardened Sample.early_page 6 Sample.plain_link
           [Click 6; MouseEnter 6]); reflexivity.
Defined.

(** X25: a project image that is still loading when the script starts is
    handled whenever its event finally comes, whatever happened in between.
    On [load] it gets [loaded]; on [error] it gets [error] and the console
    gets one warning that names the [src] the image had when the script
    started. *)
Theorem late_image_events s ins n e :
  listeners s = [] ->
  elems s !! n = Some e ->
  matches_sel project_image e = true ->
  complete e = false ->
  (exists e', elems (step (run (page_ready s) ins) (ImageLoad n)) !! n = Some e' /\
              "loaded" ∈ classList e' /\ complete e' = true) /\
  (exists e', elems (step (run (page_ready s) ins) (ImageError n)) !! n = Some e' /\
              "error" ∈ classList e' /\ complete e' = true) /\
  console (step (run (page_ready s) ins) (ImageError n)) =
    console (run (page_ready s) ins) ++ [Warn "Image failed to load:" (src e)].
Proof.
  intros Hl He Hm Hc.
  pose proof (image_handlers_at_startup s n e "load" Hl He Hm (or_introl eq_refl)) as Hload.
  pose proof (image_handlers_at_startup s n e "error" Hl He Hm (or_intror eq_refl)) as Herr.
  rewrite Hc in Hload, Herr. simpl in Hload, Herr.
  apply (settled_handler s ins _ _ _ Hl) in Hload, Herr.
  assert (Hsrc : elems_rel (fun x y => src y = src x) s (page_ready s)).
  { apply page_ready_rel;
      [ reflexivity | intros x y H; exact H | intros x y H; exact H
      | intros d x y H; exact H | | exact Hl ].
    intros x y H. rewrite <- H. unfold secure_link, setAttribute.
    now destruct (_ || _). }
  destruct (elems_rel_lookup _ _ _ n e Hsrc He) as (e0 & He0 & Hs0).
  destruct (elems_rel_lookup _ _ _ n e0 (settled_run_marks s ins Hl) He0)
    as (er & Her & (_ & _ & _ & Hsr & _)).
  set (r := run (page_ready s) ins) in *.
  set (x := upd_elem n (set_complete true) r).
  assert (Hx : elems x !! n = Some (set_complete true er))
    by (unfold x, upd_elem; simpl; now rewrite list_lookup_alter_eq, Her).
  split; [|split].
  - change (step r (ImageLoad n)) with (fst (dispatch (TElem n) (mk_event "load") x)).
    assert (Hw : handlers_on (TElem n) (ev_type (mk_event "load")) x = [(HImageLoad, false)])
      by exact Hload.
    destruct (dispatch_single (TElem n) (mk_event "load") x _ _ Hw) as (id & _ & ->).
    exists (add_class "loaded" (set_complete true er)). split; [|split].
    + cbn [run_handler fst]. unfold image_load, upd_elem.
      change (elems (set_elems ?a _)) with a. now rewrite list_lookup_alter_eq, Hx.
    + simpl. apply class_add_in.
    + reflexivity.
  - change (step r (ImageError n)) with (fst (dispatch (TElem n) (mk_event "error") x)).
    assert (Hw : handlers_on (TElem n) (ev_type (mk_event "error")) x =
                 [(HImageError, false)]) by exact Herr.
    destruct (dispatch_single (TElem n) (mk_event "error") x _ _ Hw) as (id & _ & ->).
    exists (add_class "error" (set_complete true er)). split; [|split].
    + cbn [run_handler fst]. unfold image_error, upd_elem.
      change (elems (set_elems ?a _)) with a.
      change (elems (set_console ?a ?y)) with (elems y).
      now rewrite list_lookup_alter_eq, Hx.
    + simpl. apply class_add_in.
    + reflexivity.
  - change (step r (ImageError n)) with (fst (dispatch (TElem n) (mk_event "error") x)).
    assert (Hw : handlers_on (TElem n) (ev_type (mk_event "error")) x =
                 [(HImageError, false)]) by exact Herr.
    destruct (dispatch_single (TElem n) (mk_event "error") x _ _ Hw) as (id & _ & ->).
    cbn [run_handler fst]. unfold image_error.
    change (console (upd_elem ?a ?b (set_console ?c ?y))) with c.
    rewrite Hx. change (console x) with (console r).
    change (src (set_complete true er)) with (src er). now rewrite Hsr, Hs0.
Qed.

Lemma late_image_events_witness :
  (exists e', elems (step (run (page_ready (Sample.page false)) [MouseEnter 6])
                       (ImageLoad 8)) !! 8 = Some e' /\
              "loaded" ∈ classList e' /\ complete e' = true) /\
  (exists e', elems (step (run (page_ready (Sample.page false)) [MouseEnter 6])
                       (ImageError 8)) !! 8 = Some e' /\
              "error" ∈ classList e' /\ complete e' = true) /\
  console (step (run (page_ready (Sample.page false)) [MouseEnter 6]) (ImageError 8)) =
    console (run (page_ready (Sample.page false)) [MouseEnter 6]) ++
    [Warn "Image failed to load:"
       (src (Sample.img ["project-image"; "project-image-animated"] (Some 6) false "a.gif"))].
Proof.
  apply (late_image_events (Sample.page false) [MouseEnter 6] 8
           (Sample.img ["project-image"; "project-image-animated"] (Some 6) false "a.gif"));
    reflexivity.
Defined.

(** ** Stagger delays of other elements *)

Lemma addStaggerDelay_others s n :
  n ∉ querySelectorAll project_card s ->
  elems (addStaggerDelay s) !! n = elems s !! n.
Proof.
  intros Hn. unfold addStaggerDelay, JS.forEach.
  rewrite (forEach_upd 0 (fun i => set_transitionDelay (Some (stagger i)))).
  change (elems (set_elems ?x _)) with x. now apply alter_each_notin.
Qed.

(** X26: the stagger delay is given to project cards only: an element that
    is not a [.project-card] when the script starts keeps the transition
    delay it had, through startup and every later input. *)
Theorem only_cards_get_delay s ins n e :
  listeners s = [] ->
  elems s !! n = Some e ->
  matches_sel project_card e = false ->
  exists e', elems (run (page_ready s) ins) !! n = Some e' /\
             transitionDelay e' = transitionDelay e.
Proof.
  intros Hl He Hm.
  set (R0 := fun x y : element =>
               transitionDelay y = transitionDelay x /\
               matches_sel project_card y = matches_sel project_card x).
  assert (Ha : elems_rel R0 s (checkReducedMotion (entry s))).
  { apply checkReducedMotion_rel.
    - intros x y [H1 H2]. split; [exact H1|]. rewrite <- H2. simpl.
      now apply has_class_add_ne.
    - apply (elems_rel_eq R0 s s); [apply (entry_frame elems); reflexivity|].
      apply elems_rel_refl. now intros x. }
  destruct (elems_rel_lookup _ _ _ n e Ha He) as (ea & Hea & Hd & Hc).
  assert (Hb : elems (addStaggerDelay (checkReducedMotion (entry s))) !! n = Some ea).
  { rewrite addStaggerDelay_others; [exact Hea|].
    intros Hin. apply querySelectorAll_spec in Hin as (x & Hx & Hcard).
    rewrite Hea in Hx. injection Hx as <-. congruence. }
  set (b := addStaggerDelay (checkReducedMotion (entry s))) in *.
  assert (Hrest : elems_rel same_delay b (page_ready s)).
  { rewrite (page_ready_eq s Hl), init_ready_split. fold b.
    apply init_wire_rel.
    - intros x y H. exact H.
    - intros x y H. unfold same_delay in *. rewrite <- H.
      unfold secure_link, setAttribute. now destruct (_ || _).
    - apply initScrollAnimations_rel; [intros x y H; exact H|].
      apply elems_rel_refl. now intros x. }
  destruct (elems_rel_lookup _ _ _ n ea Hrest Hb) as (e0 & He0 & Hd0).
  destruct (elems_rel_lookup _ _ _ n e0 (settled_run_marks s ins Hl) He0)
    as (e' & He' & (_ & _ & _ & _ & _ & _ & Hd' & _)).
  exists e'. split; [exact He'|]. unfold same_delay in Hd0. congruence.
Qed.

Lemma only_cards_get_delay_witness :
  exists e', elems (run (page_ready (Sample.page true)) [Intersect [(4, true)]]) !! 4 =
               Some e' /\
             transitionDelay e' = transitionDelay Sample.work_section.
Proof.
  apply (only_cards_get_delay (Sample.page true) [Intersect [(4, true)]] 4
           Sample.work_section); reflexivity.
Defined.
